(** * crashapp: pattern engine, streak tracking and alert cooldown

    A shallow embedding of [pattern_engine.py] and of the rule validation,
    streak history and alert cooldown code of [main.py], with the properties
    of the specification stated and proved over it; and of the code around
    it: the loading of the engine and of the buffers, the simulation, the
    preview and the streak table of the dashboard and the payload helpers of
    [main.py], the colour thresholds of [models.py], and the path of a crash
    value to the callback in [bc_game_listener.py].

    Conventions of the embedding.
    - A Python [str] is a Rocq [string]; a character is a code point below
      256.  The interpreter's resource limits (the optional limit on the
      digits of an integer conversion, the depth of its parser) are not
      modelled.
    - A Python [int] is a [Z].
    - A rule is the nested mapping decoded from JSON.  Its fields carry the
      types of the wire schema; a key that the code reads with [.get] is an
      optional field, and the keys whose JSON [null] value the code meets
      ([trigger], [miss], [treat_yellow_as_green], a step's [count]) are
      [field]s with the three cases absent, null and present.
    - A function that can raise returns a [res]; a mutated dictionary is a
      [gmap] threaded through the calls.
    - A payload is a decoded JSON value, [json]; an object keeps its entries
      in order.  A Python [float] is a [spec_float], compared by the number
      it stands for.
    - A table of the database is the list of its rows in the order of the
      query, or a [gmap] from its unique key. *)

From Stdlib Require Import ZArith String Ascii List Lia DecimalString.
From Stdlib Require DecimalFacts DecimalPos.
From Stdlib Require Import SpecFloat QArith Sorted.
From stdpp Require Import base option gmap strings list.

Open Scope string_scope.
Open Scope list_scope.
Open Scope Z_scope.

(** ** Exceptions and fallible results *)

Inductive exn : Type :=
| TypeError
| ValueError
| KeyError
| AttributeError
| IndexError.

Inductive res (A : Type) : Type :=
| Ok (a : A)
| Raise (e : exn).

Arguments Ok {A} a.
Arguments Raise {A} e.

Definition res_bind {A B : Type} (r : res A) (k : A -> res B) : res B :=
  match r with
  | Ok a => k a
  | Raise e => Raise e
  end.

Notation "'try!' x <- r ; k" := (res_bind r (fun x => k))
  (at level 10, x name, r at level 100, k at level 200).

Fixpoint res_map_list {A B : Type} (f : A -> res B) (l : list A) : res (list B) :=
  match l with
  | [] => Ok []
  | a :: l' =>
      try! b <- f a;
      try! bs <- res_map_list f l';
      Ok (b :: bs)
  end.

(** A key of a JSON object: absent, present with value [null], or present
    with a value of its schema type. *)
Inductive field (A : Type) : Type :=
| Absent
| Null
| Val (a : A).

Arguments Absent {A}.
Arguments Null {A}.
Arguments Val {A} a.

(** [d.get(k, default)]: [None] stands for Python's [None]. *)
Definition get_default {A : Type} (f : field A) (d : A) : option A :=
  match f with
  | Absent => Some d
  | Null => None
  | Val a => Some a
  end.

(** [d.get(k)]. *)
Definition get {A : Type} (f : field A) : option A :=
  match f with
  | Absent => None
  | Null => None
  | Val a => Some a
  end.

(** ** The Python built-ins the code relies on *)

Module Py.

Definition code (c : ascii) : N := N_of_ascii c.

Definition between (lo hi n : N) : bool := ((lo <=? n) && (n <=? hi))%N.

(** [str.isspace] on one character. *)
Definition isspace_char (c : ascii) : bool :=
  let n := code c in
  between 9 13 n || between 28 32 n || (n =? 133)%N || (n =? 160)%N.

(** The white space [int] skips around a literal: that of [isspace]
    without the four separators 28 to 31. *)
Definition int_space_char (c : ascii) : bool :=
  let n := code c in
  between 9 13 n || (n =? 32)%N || (n =? 133)%N || (n =? 160)%N.

(** The decimal characters, the only digits [int] accepts. *)
Definition isdecimal_char (c : ascii) : bool := between 48 57 (code c).

(** [str.isdigit] on one character: the decimal characters and the
    superscript digits. *)
Definition isdigit_char (c : ascii) : bool :=
  let n := code c in
  between 48 57 n || (n =? 178)%N || (n =? 179)%N || (n =? 185)%N.

Definition digit_val (c : ascii) : option Z :=
  if isdecimal_char c then Some (Z.of_N (code c) - 48) else None.

Definition is_empty (s : string) : bool :=
  match s with
  | EmptyString => true
  | String _ _ => false
  end.

Fixpoint all_chars (p : ascii -> bool) (s : string) : bool :=
  match s with
  | EmptyString => true
  | String c r => p c && all_chars p r
  end.

Fixpoint mem_char (c : ascii) (s : string) : bool :=
  match s with
  | EmptyString => false
  | String d r => Ascii.eqb c d || mem_char c r
  end.

(** [s.isdigit()] *)
Definition isdigit (s : string) : bool :=
  negb (is_empty s) && all_chars isdigit_char s.

(** Leading and trailing characters satisfying [p] removed. *)
Fixpoint lstrip_by (p : ascii -> bool) (s : string) : string :=
  match s with
  | EmptyString => EmptyString
  | String c r => if p c then lstrip_by p r else s
  end.

Fixpoint rstrip_by (p : ascii -> bool) (s : string) : string :=
  match s with
  | EmptyString => EmptyString
  | String c r =>
      let r' := rstrip_by p r in
      if p c && is_empty r' then EmptyString else String c r'
  end.

Definition strip_by (p : ascii -> bool) (s : string) : string :=
  rstrip_by p (lstrip_by p s).

(** [s.strip()] *)
Definition strip (s : string) : string := strip_by isspace_char s.

(** [sub in s] *)
Fixpoint contains (sub s : string) : bool :=
  String.prefix sub s ||
  match s with
  | EmptyString => false
  | String _ r => contains sub r
  end.

(** [s.replace('$X', new)]: every occurrence, left to right. *)
Fixpoint replace_dollar_x (new s : string) : string :=
  match s with
  | String "$" (String "X" r) => new +:+ replace_dollar_x new r
  | String c r => String c (replace_dollar_x new r)
  | EmptyString => EmptyString
  end.

(** [s.split(sep, 1)[0]] and [s.split(sep, 1)[1]] for a one-character
    separator; the second is only read when [sep] occurs in [s]. *)
Fixpoint split_head (sep : ascii) (s : string) : string :=
  match s with
  | EmptyString => EmptyString
  | String c r => if Ascii.eqb c sep then EmptyString else String c (split_head sep r)
  end.

Fixpoint split_tail (sep : ascii) (s : string) : string :=
  match s with
  | EmptyString => EmptyString
  | String c r => if Ascii.eqb c sep then r else split_tail sep r
  end.

(** [s[n:]] *)
Fixpoint drop (n : nat) (s : string) : string :=
  match n, s with
  | O, _ => s
  | S _, EmptyString => EmptyString
  | S n', String _ r => drop n' r
  end.

(** [str(x)] for an integer. *)
Definition str (x : Z) : string := NilZero.string_of_int (Z.to_int x).

(** The digits of an integer literal given to [int]: decimal characters,
    with single underscores allowed between two of them. *)
Fixpoint int_digits (s : string) (acc : Z) (after_digit : bool) : option Z :=
  match s with
  | EmptyString => if after_digit then Some acc else None
  | String c r =>
      match digit_val c with
      | Some d => int_digits r (10 * acc + d) true
      | None =>
          if Ascii.eqb c "_" && after_digit then int_digits r acc false else None
      end
  end.

(** [int(s)] for a string: [None] is the [ValueError]. *)
Definition int (s : string) : option Z :=
  match strip_by int_space_char s with
  | String "+" r => int_digits r 0 false
  | String "-" r => Z.opp <$> int_digits r 0 false
  | t => int_digits t 0 false
  end.

(** [eval] on a string made of digits, [+], [-] and spaces.  The tokens
    are the numbers and the two signs; a number with a leading zero is a
    syntax error unless it is zero. *)
Inductive token : Type :=
| TNum (z : Z)
| TPlus
| TMinus.

Definition flush (cur : option (bool * Z)) (rest : list token) : option (list token) :=
  match cur with
  | None => Some rest
  | Some (lead0, v) =>
      if lead0 && negb (v =? 0) then None else Some (TNum v :: rest)
  end.

Definition extend (cur : option (bool * Z)) (d : Z) : option (bool * Z) :=
  match cur with
  | None => Some (d =? 0, d)
  | Some (lead0, v) => Some (lead0, 10 * v + d)
  end.

Fixpoint tokenize (s : string) (cur : option (bool * Z)) : option (list token) :=
  match s with
  | EmptyString => flush cur []
  | String c r =>
      match digit_val c with
      | Some d => tokenize r (extend cur d)
      | None =>
          if Ascii.eqb c "+" then ts ← tokenize r None; flush cur (TPlus :: ts)
          else if Ascii.eqb c "-" then ts ← tokenize r None; flush cur (TMinus :: ts)
          else if Ascii.eqb c " " then ts ← tokenize r None; flush cur ts
          else None
      end
  end.

(** The grammar is [expr: factor (('+'|'-') factor)*] with
    [factor: ('+'|'-') factor | NUMBER], evaluated from the left.
    [sign] is the product of the signs read since the last number and
    [operand] tells whether a number is due. *)
Fixpoint eval_tokens (ts : list token) (acc sign : Z) (operand : bool) : option Z :=
  match ts with
  | [] => if operand then None else Some acc
  | TNum n :: r => if operand then eval_tokens r (acc + sign * n) 1 false else None
  | TPlus :: r => eval_tokens r acc sign true
  | TMinus :: r => eval_tokens r acc (- sign) true
  end.

(** [eval(expr)]: [None] is the [SyntaxError]. *)
Definition eval (expr : string) : option Z :=
  ts ← tokenize expr None; eval_tokens ts 0 1 true.

End Py.

(** ** The rule model *)

Inductive CountVal : Type :=
| CInt (z : Z)
| CStr (s : string).

Record Step : Type := mkStep {
  s_colors : option (list string);
  s_operator : option string;
  s_count : field CountVal
}.

Record Block : Type := mkBlock {
  b_steps : option (list Step)
}.

Record Alerts : Type := mkAlerts {
  a_trigger_streak_threshold : option Z;
  a_miss_threshold : option Z;
  a_cooldown_rounds : option Z
}.

Record Rule : Type := mkRule {
  r_type : option string;
  r_name : option string;
  r_treat_yellow_as_green : field bool;
  r_trigger : field Block;
  r_miss : field Block;
  r_dynamic_values : option (list Z);
  r_dynamic_x : option Z;
  r_active : option bool;
  r_alerts : option Alerts
}.

(** Truth value of what [rule.get('treat_yellow_as_green', True)] returns. *)
Definition truthy (o : option bool) : bool :=
  match o with
  | Some b => b
  | None => false
  end.

(** [rule.get(path, {}).get('steps', [])] *)
Definition steps_of (f : field Block) : res (list Step) :=
  match get_default f (mkBlock None) with
  | None => Raise AttributeError
  | Some b => Ok (default [] (b_steps b))
  end.

(** ** [pattern_engine.py] *)

Module PatternEngine.

Definition normalize_color (color : string) (treat_yellow_as_green : bool) : string :=
  if treat_yellow_as_green && String.eqb color "yellow" then "green" else color.

Definition in_green_yellow (c : string) : bool :=
  String.eqb c "green" || String.eqb c "yellow".

(** The [for g in group] loop of [color_matches_group]. *)
Fixpoint group_loop (color normalized : string) (group : list string) : bool :=
  match group with
  | [] => false
  | g :: rest =>
      if String.eqb g "green_yellow" then
        if in_green_yellow normalized || in_green_yellow color then true
        else group_loop color normalized rest
      else if String.eqb g normalized || String.eqb g color then true
      else group_loop color normalized rest
  end.

Definition color_matches_group (color : string) (group : list string)
    (treat_yellow_as_green : bool) : bool :=
  let normalized := normalize_color color treat_yellow_as_green in
  group_loop color normalized group.

Definition allowed_expr_char (ch : ascii) : bool := Py.mem_char ch "0123456789+- ".

(** [value] is what [step.get('count')] returned. *)
Definition _replace_x_expr (value : option CountVal) (x : Z) : option CountVal :=
  match value with
  | Some (CStr s) =>
      if negb (Py.contains "$X" s) then value
      else
        let expr := Py.strip (Py.replace_dollar_x (Py.str x) s) in
        if Py.all_chars allowed_expr_char expr then
          match Py.eval expr with
          | Some z => Some (CInt z)
          | None => value
          end
        else value
  | _ => value
  end.

(** The [while] loop of [match_sequence].  The cursor [i] of the code is
    [n - 1]: [n] outcomes, [colors[0..n-1]], are still unconsumed. *)
Fixpoint consume (colors group : list string) (treat_yellow_as_green : bool)
    (n : nat) (matched : Z) : res (nat * Z) :=
  match n with
  | O => Ok (O, matched)
  | S i =>
      match colors !! i with
      | None => Raise IndexError
      | Some c =>
          if color_matches_group c group treat_yellow_as_green
          then consume colors group treat_yellow_as_green i (matched + 1)
          else Ok (n, matched)
      end
  end.

(** The [if/elif] chain after the loop: [true] when it returns False. *)
Definition operator_fails (operator : string) (matched count : Z) : bool :=
  if String.eqb operator "exact" then negb (matched =? count)
  else if String.eqb operator "minimum" then matched <? count
  else if String.eqb operator "maximum" then matched >? count
  else false.

(** The conversion of [step.get('count', 1)] to an integer: [Ok None] is
    the [return False] of the [except] branch, [Raise] the conversion
    outside the [try]. *)
Definition count_of (step : Step) : res (option Z) :=
  match get_default (s_count step) (CInt 1) with
  | Some (CStr s) =>
      match Py.int s with
      | Some c => Ok (Some c)
      | None => Ok None
      end
  | Some (CInt z) => Ok (Some z)
  | None => Raise TypeError
  end.

(** One iteration of [for step in reversed(sequence)]: [Ok None] is
    [return False], [Ok (Some n')] goes on with the cursor at [n' - 1]. *)
Definition match_step (colors : list string) (treat_yellow_as_green : bool)
    (step : Step) (n : nat) : res (option nat) :=
  match n with
  | O => Ok None
  | S _ =>
      let group := default [] (s_colors step) in
      let operator := default "minimum" (s_operator step) in
      try! count <- count_of step;
      match count with
      | None => Ok None
      | Some count =>
          try! r <- consume colors group treat_yellow_as_green n 0;
          if operator_fails operator (snd r) count then Ok None
          else Ok (Some (fst r))
      end
  end.

Fixpoint match_steps (colors : list string) (treat_yellow_as_green : bool)
    (rsteps : list Step) (n : nat) : res bool :=
  match rsteps with
  | [] => Ok true
  | step :: rest =>
      try! o <- match_step colors treat_yellow_as_green step n;
      match o with
      | None => Ok false
      | Some n' => match_steps colors treat_yellow_as_green rest n'
      end
  end.

Definition match_sequence (colors : list string) (sequence : list Step)
    (treat_yellow_as_green : bool) : res bool :=
  match colors, sequence with
  | [], _ => Ok false
  | _, [] => Ok false
  | _, _ => match_steps colors treat_yellow_as_green (rev sequence) (length colors)
  end.

(** [step['count'] = self._replace_x_expr(step.get('count'), x)]: the key
    is always set, to [null] when the result is [None]. *)
Definition resolve_step (x : Z) (step : Step) : Step :=
  let count :=
    match _replace_x_expr (get (s_count step)) x with
    | Some v => Val v
    | None => Null
    end in
  mkStep (s_colors step) (s_operator step) count.

(** [if path in new_rule and 'steps' in new_rule[path]: for step in ...] *)
Definition resolve_block (x : Z) (f : field Block) : res (field Block) :=
  match f with
  | Absent => Ok Absent
  | Null => Raise TypeError
  | Val b =>
      match b_steps b with
      | None => Ok (Val b)
      | Some l => Ok (Val (mkBlock (Some (map (resolve_step x) l))))
      end
  end.

(** The body of [for x in dynamic_values]. *)
Definition expand_one (pattern_rule : Rule) (x : Z) : res Rule :=
  match r_name pattern_rule with
  | None => Raise KeyError
  | Some name =>
      let new_name := name +:+ " (X=" +:+ Py.str x +:+ ")" in
      try! trigger <- resolve_block x (r_trigger pattern_rule);
      try! miss <- resolve_block x (r_miss pattern_rule);
      Ok (mkRule (r_type pattern_rule) (Some new_name)
            (r_treat_yellow_as_green pattern_rule) trigger miss
            (r_dynamic_values pattern_rule) (Some x)
            (r_active pattern_rule) (r_alerts pattern_rule))
  end.

Definition expand_dynamic_pattern (pattern_rule : Rule) : res (list Rule) :=
  if negb (bool_decide (r_type pattern_rule = Some "dynamic")) then Ok [pattern_rule]
  else
    let dynamic_values := default [3; 4; 5; 6; 7; 8] (r_dynamic_values pattern_rule) in
    res_map_list (expand_one pattern_rule) dynamic_values.

Record Check : Type := mkCheck {
  c_trigger : bool;
  c_miss : bool
}.

Definition check_pattern (colors : list string) (pattern_rule : Rule) : res Check :=
  let treat_yellow_as_green :=
    truthy (get_default (r_treat_yellow_as_green pattern_rule) true) in
  try! trigger_seq <- steps_of (r_trigger pattern_rule);
  try! miss_seq <- steps_of (r_miss pattern_rule);
  try! trigger_match <- match_sequence colors trigger_seq treat_yellow_as_green;
  try! miss_match <- match_sequence colors miss_seq treat_yellow_as_green;
  Ok (mkCheck trigger_match miss_match).

Record PatternState : Type := mkStat {
  trigger_streak : Z;
  miss_streak : Z;
  total_triggers : Z;
  total_misses : Z;
  longest_trigger_streak : Z;
  longest_miss_streak : Z
}.

Definition zero_stat : PatternState := mkStat 0 0 0 0 0 0.

Record MatchEvent : Type := mkEvent {
  ev_pattern_id : string;
  ev_event : string;
  ev_streak : Z;
  ev_stats : PatternState
}.

(** The [if check['trigger']] branch. *)
Definition on_trigger (stat : PatternState) : PatternState :=
  let ts := trigger_streak stat + 1 in
  mkStat ts 0 (total_triggers stat + 1) (total_misses stat)
    (if ts >? longest_trigger_streak stat then ts else longest_trigger_streak stat)
    (longest_miss_streak stat).

(** The [elif check['miss']] branch. *)
Definition on_miss (stat : PatternState) : PatternState :=
  let ms := miss_streak stat + 1 in
  mkStat 0 ms (total_triggers stat) (total_misses stat + 1)
    (longest_trigger_streak stat)
    (if ms >? longest_miss_streak stat then ms else longest_miss_streak stat).

(** What one rule does to its state and to [results], given its check. *)
Definition apply_check (pattern_id : string) (check : Check) (stat : PatternState)
    : PatternState * list MatchEvent :=
  if c_trigger check then
    let stat' := on_trigger stat in
    (stat', [mkEvent pattern_id "trigger" (trigger_streak stat') stat'])
  else if c_miss check then
    let stat' := on_miss stat in
    (stat', [mkEvent pattern_id "miss" (miss_streak stat') stat'])
  else (stat, []).

(** [process_round], as the loop over [self.patterns]: the dictionary
    [pattern_stats] is mutated in place, so its value at the moment of a
    raise is returned too. *)
Fixpoint process_patterns (colors : list string) (patterns : list (string * Rule))
    (pattern_stats : gmap string PatternState) (results : list MatchEvent)
    : gmap string PatternState * res (list MatchEvent) :=
  match patterns with
  | [] => (pattern_stats, Ok results)
  | (pattern_id, rule) :: rest =>
      if negb (default true (r_active rule))
      then process_patterns colors rest pattern_stats results
      else
        let stat := default zero_stat (pattern_stats !! pattern_id) in
        match check_pattern colors rule with
        | Raise e => (pattern_stats, Raise e)
        | Ok check =>
            let '(stat', evs) := apply_check pattern_id check stat in
            process_patterns colors rest (<[pattern_id := stat']> pattern_stats)
              (results ++ evs)
        end
  end.

Definition process_round (patterns : list (string * Rule)) (colors : list string)
    (pattern_stats : gmap string PatternState)
    : gmap string PatternState * res (list MatchEvent) :=
  process_patterns colors patterns pattern_stats [].

(** [DEFAULT_PATTERNS]; the descriptions, which no function reads, are
    left out. *)
Definition default_step (group : string) (operator : string) (count : CountVal) : Step :=
  mkStep (Some [group]) (Some operator) (Val count).

Definition default_rule (name type : string) (treat_yellow_as_green : bool)
    (dynamic_values : option (list Z)) (trigger miss : list Step) : Rule :=
  mkRule (Some type) (Some name) (Val treat_yellow_as_green)
    (Val (mkBlock (Some trigger))) (Val (mkBlock (Some miss)))
    dynamic_values None (Some true) None.

Definition DEFAULT_PATTERNS : list Rule :=
  [ default_rule "Pattern 1" "static" true None
      [default_step "green_yellow" "minimum" (CInt 3);
       default_step "red" "exact" (CInt 1);
       default_step "green_yellow" "minimum" (CInt 1)]
      [default_step "green_yellow" "minimum" (CInt 3);
       default_step "red" "minimum" (CInt 2)];
    default_rule "Pattern 2" "static" true None
      [default_step "green_yellow" "minimum" (CInt 3);
       default_step "red" "exact" (CInt 2);
       default_step "green_yellow" "minimum" (CInt 1)]
      [default_step "green_yellow" "minimum" (CInt 3);
       default_step "red" "minimum" (CInt 3)];
    default_rule "Pattern 3" "static" true None
      [default_step "red" "minimum" (CInt 3);
       default_step "green_yellow" "exact" (CInt 1);
       default_step "red" "minimum" (CInt 1)]
      [default_step "red" "minimum" (CInt 3);
       default_step "green_yellow" "minimum" (CInt 2)];
    default_rule "Pattern 4" "static" true None
      [default_step "red" "minimum" (CInt 3);
       default_step "green_yellow" "exact" (CInt 2);
       default_step "red" "minimum" (CInt 1)]
      [default_step "red" "minimum" (CInt 3);
       default_step "green_yellow" "minimum" (CInt 3)];
    default_rule "Pattern 5" "static" false None
      [default_step "yellow" "exact" (CInt 1);
       default_step "red" "exact" (CInt 1);
       default_step "green_yellow" "minimum" (CInt 1)]
      [default_step "yellow" "exact" (CInt 1);
       default_step "red" "minimum" (CInt 2)];
    default_rule "Pattern 6" "dynamic" true (Some [3; 4; 5; 6; 7; 8])
      [default_step "green_yellow" "exact" (CStr "$X")]
      [default_step "green_yellow" "minimum" (CStr "$X+1")];
    default_rule "Pattern 7" "dynamic" true (Some [3; 4; 5; 6; 7; 8])
      [default_step "red" "exact" (CStr "$X")]
      [default_step "red" "minimum" (CStr "$X+1")] ].

End PatternEngine.

(** ** Decoded JSON values and Python numbers *)

(** A value as [json.loads] returns it; the entries of an object are
    kept in their order, as a [dict] keeps them. *)
#[local] Unset Elimination Schemes.

Inductive json : Type :=
| JNull
| JBool (b : bool)
| JInt (z : Z)
| JFloat (f : spec_float)
| JStr (s : string)
| JList (l : list json)
| JDict (d : list (string * json)).

#[local] Set Elimination Schemes.

Module Json.

(** [d.get(k)] on the entries of an object; [None] when the key is
    missing. *)
Fixpoint dict_get (d : list (string * json)) (k : string) : option json :=
  match d with
  | [] => None
  | (k', v) :: rest => if String.eqb k' k then Some v else dict_get rest k
  end.

(** [d[k] = v]: the value is replaced where the key stands, a new key is
    added at the end. *)
Fixpoint dict_set (d : list (string * json)) (k : string) (v : json)
    : list (string * json) :=
  match d with
  | [] => [(k, v)]
  | (k', v') :: rest =>
      if String.eqb k' k then (k, v) :: rest else (k', v') :: dict_set rest k v
  end.

(** [v is None or v == ''] *)
Definition is_blank (v : json) : bool :=
  match v with
  | JNull => true
  | JStr EmptyString => true
  | _ => false
  end.

End Json.

Module Num.

(** What a Python number stands for: a rational, an infinity, or not a
    number.  Comparisons of numbers compare what they stand for. *)
Inductive ext : Type :=
| Nan
| NegInf
| Fin (q : Q)
| PosInf.

(** The value of a float; the sign [true] is the negative one. *)
Definition of_float (f : spec_float) : ext :=
  match f with
  | S754_zero _ => Fin 0
  | S754_infinity true => NegInf
  | S754_infinity false => PosInf
  | S754_nan => Nan
  | S754_finite s m e =>
      Fin (inject_Z (if s then Z.neg m else Z.pos m) * Qpower (inject_Z 2) e)
  end.

Definition of_int (z : Z) : ext := Fin (inject_Z z).

(** The number a decoded value is, if it is one; [True] and [False] are
    the integers 1 and 0. *)
Definition of_json (v : json) : option ext :=
  match v with
  | JBool b => Some (of_int (if b then 1 else 0))
  | JInt z => Some (of_int z)
  | JFloat f => Some (of_float f)
  | _ => None
  end.

(** [a < b] *)
Definition lt (a b : ext) : bool :=
  match a, b with
  | Nan, _ => false
  | _, Nan => false
  | NegInf, NegInf => false
  | NegInf, _ => true
  | _, NegInf => false
  | PosInf, _ => false
  | Fin _, PosInf => true
  | Fin p, Fin q => negb (Qle_bool q p)
  end.

(** [a == b] *)
Definition eq (a b : ext) : bool :=
  match a, b with
  | Fin p, Fin q => Qeq_bool p q
  | NegInf, NegInf => true
  | PosInf, PosInf => true
  | _, _ => false
  end.

(** [a <= b] *)
Definition le (a b : ext) : bool := lt a b || eq a b.

(** [int(f)] for a float: the value cut towards zero; [None] is the
    exception raised for an infinity or not a number. *)
Definition trunc (f : spec_float) : option Z :=
  match f with
  | S754_zero _ => Some 0
  | S754_finite s m e =>
      let a := if 0 <=? e then Z.pos m * 2 ^ e else Z.pos m / 2 ^ (- e) in
      Some (if s then - a else a)
  | _ => None
  end.

End Num.

(** ** [models.py]: the colour of a crash value *)

Module Models.

(** The thresholds [(red_max, green_max)], each a nullable column. *)
Definition Thresholds : Type := option spec_float * option spec_float.

(** 2.0 and 10.0 *)
Definition two : spec_float := S754_finite false 4503599627370496 (-51).
Definition ten : spec_float := S754_finite false 5629499534213120 (-49).

(** [get_color_config]: [row] is [ColorConfig.query.first()] and [cache]
    the global [_color_config_cache]; the cache after the call and the
    thresholds returned. *)
Definition get_color_config (row : option Thresholds) (cache : option Thresholds)
    : option Thresholds * Thresholds :=
  match cache with
  | Some c => (cache, c)
  | None =>
      let c := match row with
               | Some config => config
               | None => (Some two, Some ten)
               end in
      (Some c, c)
  end.

Definition invalidate_color_config_cache (cache : option Thresholds) : option Thresholds :=
  None.

(** [value < bound] for a bound read from the table. *)
Definition below (value : json) (bound : option spec_float) : res bool :=
  match Num.of_json value, bound with
  | Some v, Some b => Ok (Num.lt v (Num.of_float b))
  | _, _ => Raise TypeError
  end.

Definition get_color_from_value (value : json) (row : option Thresholds)
    (cache : option Thresholds) : option Thresholds * res string :=
  let '(cache', (red_max, green_max)) := get_color_config row cache in
  (cache',
   try! red <- below value red_max;
   if red then Ok "red"
   else
     try! green <- below value green_max;
     if green then Ok "green" else Ok "yellow").

End Models.

(** ** [main.py]: rule validation, alert cooldown, streak history *)

Module Main.

Import PatternEngine.

Definition MAX_COLORS_BUFFER : nat := 500.
Definition DEFAULT_TRIGGER_THRESHOLD : Z := 5.
Definition DEFAULT_MISS_THRESHOLD : Z := 2.
Definition DEFAULT_COOLDOWN_ROUNDS : Z := 1.

Definition mem_str (s : string) (l : list string) : bool := existsb (String.eqb s) l.

Definition is_nil {A : Type} (l : list A) : bool :=
  match l with
  | [] => true
  | _ :: _ => false
  end.

(** [rest.startswith(('+', '-'))] *)
Definition starts_with_sign (rest : string) : bool :=
  match rest with
  | String c _ => Ascii.eqb c "+" || Ascii.eqb c "-"
  | EmptyString => false
  end.

(** [value] is what [s.get('count', 1)] returned. *)
Definition _is_valid_count_expr (value : option CountVal) : res bool :=
  match value with
  | Some (CInt z) => Ok (z >? 0)
  | Some (CStr s) =>
      let v := Py.strip s in
      if Py.isdigit v then
        match Py.int v with
        | Some n => Ok (n >? 0)
        | None => Raise ValueError
        end
      else if String.prefix "$X" v then
        let rest := Py.drop 2 v in
        if Py.is_empty rest then Ok true
        else if starts_with_sign rest then Ok (Py.isdigit (Py.strip (Py.drop 1 rest)))
        else Ok false
      else Ok false
  | None => Ok false
  end.

Definition allowed_colors : list string := ["red"; "green"; "yellow"; "green_yellow"].
Definition allowed_ops : list string := ["exact"; "minimum"; "maximum"].

(** The [for s in steps] loop of [_validate_steps]. *)
Fixpoint validate_step_list (path : string) (steps : list Step)
    : res (bool * option string) :=
  match steps with
  | [] => Ok (true, None)
  | s :: rest =>
      let colors := default [] (s_colors s) in
      if is_nil colors then Ok (false, Some (path +:+ ".steps colors required"))
      else if existsb (fun c => negb (mem_str c allowed_colors)) colors
      then Ok (false, Some (path +:+ ".steps contains invalid colors"))
      else if negb (mem_str (default "minimum" (s_operator s)) allowed_ops)
      then Ok (false, Some (path +:+ ".steps contains invalid operator"))
      else
        try! valid <- _is_valid_count_expr (get_default (s_count s) (CInt 1));
        if negb valid then Ok (false, Some (path +:+ ".steps contains invalid count"))
        else validate_step_list path rest
  end.

(** [rule.get(path, {})] for the two paths the validator visits. *)
Definition block_at (rule : Rule) (path : string) : field Block :=
  if String.eqb path "trigger" then r_trigger rule else r_miss rule.

Definition _validate_steps (rule : Rule) (path : string) : res (bool * option string) :=
  try! steps <- steps_of (block_at rule path);
  validate_step_list path steps.

(** [rule.get('type') in l]: a missing type is [None], in no list. *)
Definition type_in (t : option string) (l : list string) : bool :=
  match t with
  | Some s => mem_str s l
  | None => false
  end.

Definition _validate_rule_json (rule : Rule) : res (bool * option string) :=
  if negb (type_in (r_type rule) ["static"; "dynamic"])
  then Ok (false, Some "type must be static or dynamic")
  else if Py.is_empty (Py.strip (default "" (r_name rule)))
  then Ok (false, Some "name is required")
  else
    try! t <- _validate_steps rule "trigger";
    if negb (fst t) then Ok (false, snd t)
    else
      try! m <- _validate_steps rule "miss";
      if negb (fst m) then Ok (false, snd m)
      else if bool_decide (r_type rule = Some "dynamic") then
        let dvs := default [] (r_dynamic_values rule) in
        if is_nil dvs then Ok (false, Some "dynamic_values required for dynamic patterns")
        else if existsb (fun x => (x <? 3) || (x >? 8)) dvs
        then Ok (false, Some "dynamic_values must be ints between 3 and 8")
        else Ok (true, None)
      else Ok (true, None).

(** [int(pid.split(':', 1)[0])], else on ['_'], else [int(pid)]. *)
Definition base_pattern_id (pid : string) : res Z :=
  let part :=
    if Py.mem_char ":" pid then Py.split_head ":" pid
    else if Py.mem_char "_" pid then Py.split_head "_" pid
    else pid in
  match Py.int part with
  | Some z => Ok z
  | None => Raise ValueError
  end.

Record AlertData : Type := mkAlertData {
  ad_pattern_id : string;
  ad_pattern_name : string;
  ad_event : string;
  ad_streak : Z;
  ad_round : string
}.

(** The row handed to the session; the payload is kept as the record
    rather than as its JSON text. *)
Record Alert : Type := mkAlert {
  al_pattern_id : Z;
  al_alert_type : string;
  al_payload : AlertData
}.

(** Which alert the event is eligible for, if any. *)
Definition alert_type_of (event_type : string) (streak : Z) (rule : Rule) : option string :=
  let alerts_config := default (mkAlerts None None None) (r_alerts rule) in
  let trigger_threshold :=
    default DEFAULT_TRIGGER_THRESHOLD (a_trigger_streak_threshold alerts_config) in
  let miss_threshold := default DEFAULT_MISS_THRESHOLD (a_miss_threshold alerts_config) in
  if String.eqb event_type "trigger" && (streak >=? trigger_threshold) then Some "trigger_streak"
  else if String.eqb event_type "miss" && (streak >=? miss_threshold) then Some "miss_streak"
  else None.

Definition cooldown_of (rule : Rule) : Z :=
  default DEFAULT_COOLDOWN_ROUNDS
    (a_cooldown_rounds (default (mkAlerts None None None) (r_alerts rule))).

Definition cooldown_key_of (pattern_id alert_type : string) : string :=
  pattern_id +:+ "_" +:+ alert_type.

(** [check_and_fire_alert] on the dictionary [alert_cooldown_cache].  The
    broadcast and the notification channels are the caller's collaborators;
    the returned row is what is added to the session. *)
Definition check_and_fire_alert (pattern_id pattern_name event_type : string)
    (streak : Z) (round_number : string) (rule : Rule)
    (alert_cooldown_cache : gmap string Z) : gmap string Z * res (option Alert) :=
  match alert_type_of event_type streak rule with
  | None => (alert_cooldown_cache, Ok None)
  | Some alert_type =>
      let cooldown_key := cooldown_key_of pattern_id alert_type in
      let outstanding :=
        match alert_cooldown_cache !! cooldown_key with
        | Some n => n >? 0
        | None => false
        end in
      if outstanding then
        (alter (fun n => n - 1) cooldown_key alert_cooldown_cache, Ok None)
      else
        let cache := <[cooldown_key := cooldown_of rule]> alert_cooldown_cache in
        let alert_data := mkAlertData pattern_id pattern_name alert_type streak round_number in
        (cache,
         try! base <- base_pattern_id pattern_id;
         Ok (Some (mkAlert base alert_type alert_data)))
  end.

Record StreakHistory : Type := mkStreakHistory {
  sh_pattern_id : Z;
  sh_streak_type : string;
  sh_streak_length : Z;
  sh_sub_pattern_key : option string;
  sh_start_round : string;
  sh_end_round : string;
  sh_sequence : list string
}.

(** [l[i]] with Python's negative indices. *)
Definition py_index {A : Type} (l : list A) (i : Z) : res A :=
  let len := Z.of_nat (length l) in
  let j := if i <? 0 then len + i else i in
  if j <? 0 then Raise IndexError
  else
    match l !! Z.to_nat j with
    | Some a => Ok a
    | None => Raise IndexError
    end.

(** [sequence[-n:] if len(sequence) >= n else sequence], for [n >= 2]. *)
Definition trailing {A : Type} (sequence : list A) (n : Z) : list A :=
  let len := Z.of_nat (length sequence) in
  if len >=? n then drop (Z.to_nat (len - n)) sequence else sequence.

(** The rows [save_streak_history] adds to the session. *)
Definition save_streak_history (pattern_id streak_type : string) (streak_length : Z)
    (start_round end_round : string) (sequence : list string)
    (sub_pattern_key : option string) : res (list StreakHistory) :=
  if streak_length <? 2 then Ok []
  else
    try! base_id <- base_pattern_id pattern_id;
    Ok [mkStreakHistory base_id streak_type streak_length sub_pattern_key
          start_round end_round (trailing sequence streak_length)].

(** [recent_rounds[-prev-1] if len(recent_rounds) > prev else ''] *)
Definition start_marker (recent_rounds : list string) (prev : Z) : res string :=
  if Z.of_nat (length recent_rounds) >? prev then py_index recent_rounds (- prev - 1)
  else Ok "".

(** [recent_rounds[-2] if len(recent_rounds) > 1 else ''] *)
Definition end_marker (recent_rounds : list string) : res string :=
  if Z.of_nat (length recent_rounds) >? 1 then py_index recent_rounds (-2)
  else Ok "".

(** One kind of streak of one key: the [if prev > 1 and current < prev]
    statement of the history loop. *)
Definition ended_streak (pattern_key kind : string) (prev current : Z)
    (recent_rounds recent_colors : list string) (sub_key : option string)
    : res (list StreakHistory) :=
  if (prev >? 1) && (current <? prev) then
    try! start_round <- start_marker recent_rounds prev;
    try! end_round <- end_marker recent_rounds;
    save_streak_history pattern_key kind prev start_round end_round recent_colors sub_key
  else Ok [].

(** The body of [for pattern_key, current_stat in pattern_stats_cache.items()];
    [prev] is [prev_stats.get(pattern_key, {})] with its zero defaults. *)
Definition history_for (pattern_key : string) (prev current_stat : PatternState)
    (recent_rounds recent_colors : list string) : res (list StreakHistory) :=
  let sub_key :=
    if Py.mem_char ":" pattern_key then Some (Py.split_tail ":" pattern_key) else None in
  try! t <- ended_streak pattern_key "trigger" (trigger_streak prev)
              (trigger_streak current_stat) recent_rounds recent_colors sub_key;
  try! m <- ended_streak pattern_key "miss" (miss_streak prev)
              (miss_streak current_stat) recent_rounds recent_colors sub_key;
  Ok (t ++ m).

(** The history loop.  Each row is paired with the key of the iteration
    that added it. *)
Fixpoint history_loop (items : list (string * PatternState))
    (prev_stats : gmap string PatternState) (recent_rounds recent_colors : list string)
    : res (list (string * StreakHistory)) :=
  match items with
  | [] => Ok []
  | (pattern_key, current_stat) :: rest =>
      let prev := default zero_stat (prev_stats !! pattern_key) in
      try! rows <- history_for pattern_key prev current_stat recent_rounds recent_colors;
      try! more <- history_loop rest prev_stats recent_rounds recent_colors;
      Ok (map (pair pattern_key) rows ++ more)
  end.

(** The module-level state [process_round_patterns] works on. *)
Record AppState : Type := mkApp {
  patterns : list (string * Rule);
  recent_colors : list string;
  recent_rounds : list string;
  pattern_stats_cache : gmap string PatternState
}.

Record RoundOutput : Type := mkOut {
  out_results : list MatchEvent;
  out_history : list (string * StreakHistory)
}.

(** The two appends, and the two [pop(0)] when the colour buffer exceeds
    its cap. *)
Definition push_round (color round_number : string)
    (recent_colors recent_rounds : list string) : list string * list string :=
  let colors := recent_colors ++ [color] in
  let rounds := recent_rounds ++ [round_number] in
  if (MAX_COLORS_BUFFER <? length colors)%nat then (tail colors, tail rounds)
  else (colors, rounds).

(** [process_round_patterns] up to the end of the history loop.  The
    snapshot [prev_stats] copies every state of the dictionary, so it is
    the dictionary's value before [process_round] runs.  The dictionary is
    visited here in the key order of [map_to_list]; no statement below
    depends on the order.  Persisting the states and dispatching the
    alerts, which follow in the source, go through the database and are
    left to [check_and_fire_alert]. *)
Definition process_round_patterns (color round_number : string) (st : AppState)
    : AppState * res RoundOutput :=
  let '(colors, rounds) :=
    push_round color round_number (recent_colors st) (recent_rounds st) in
  let prev_stats := pattern_stats_cache st in
  let '(stats, r) := process_round (patterns st) colors (pattern_stats_cache st) in
  (mkApp (patterns st) colors rounds stats,
   try! results <- r;
   try! history <- history_loop (map_to_list stats) prev_stats rounds colors;
   Ok (mkOut results history)).

(** The rounds arriving one after another, each as its colour and its
    round number; a round that raises leaves what it had already written,
    as its caller only reports the error. *)
Definition feed (st : AppState) (round : string * string) : AppState :=
  (process_round_patterns round.1 round.2 st).1.

Definition feed_all (st : AppState) (rounds : list (string * string)) : AppState :=
  foldl feed st rounds.


(** *** Loading the engine and the buffers *)

(** A row of the table [rounds], by the two columns the buffers are
    loaded from. *)
Record RoundRow : Type := mkRoundRow {
  rd_round_number : string;
  rd_color : string
}.

(** [load_recent_colors] on the table [rounds] listed by ascending [id]:
    the two buffers it assigns.  The query takes the rows by descending
    [id], at most [MAX_COLORS_BUFFER] of them, and both buffers read them
    reversed. *)
Definition load_recent_colors (table : list RoundRow) : list string * list string :=
  let rounds := take MAX_COLORS_BUFFER (reverse table) in
  (rd_color <$> reverse rounds, rd_round_number <$> reverse rounds).

(** A row of the table [patterns] with its [PatternStats] row, if any.
    [p_rule_json] is the decoded text of the column; [p_active] tells
    whether the column [active] holds [True], the rows the loader
    selects. *)
Record PatternRow : Type := mkPatternRow {
  p_id : Z;
  p_name : string;
  p_rule_json : Rule;
  p_active : bool;
  p_stats : option PatternState
}.

(** [rule['active'] = p.active] *)
Definition set_active (rule : Rule) (active : bool) : Rule :=
  mkRule (r_type rule) (r_name rule) (r_treat_yellow_as_green rule)
    (r_trigger rule) (r_miss rule) (r_dynamic_values rule) (r_dynamic_x rule)
    (Some active) (r_alerts rule).

(** [f"X={x}" if x is not None else "X=?"] for [x = exp.get('dynamic_x')] *)
Definition sub_key_of (exp : Rule) : string :=
  match r_dynamic_x exp with
  | Some x => "X=" +:+ Py.str x
  | None => "X=?"
  end.

Definition sub_pattern_key (id : Z) (exp : Rule) : string :=
  Py.str id +:+ ":" +:+ sub_key_of exp.

(** The body of the first loop of [load_patterns_to_engine]: what one
    row appends to [pattern_list].  The key [priority], which the loop
    also sets and nothing reads, is left out of the rule. *)
Definition engine_entries (p : PatternRow) : res (list (string * Rule)) :=
  let rule := set_active (p_rule_json p) (p_active p) in
  if bool_decide (r_type rule = Some "dynamic") then
    try! expanded <- expand_dynamic_pattern rule;
    Ok ((fun exp => (sub_pattern_key (p_id p) exp, exp)) <$> expanded)
  else Ok [(Py.str (p_id p), rule)].

Fixpoint pattern_list_of (rows : list PatternRow) : res (list (string * Rule)) :=
  match rows with
  | [] => Ok []
  | p :: rest =>
      try! entries <- engine_entries p;
      try! more <- pattern_list_of rest;
      Ok (entries ++ more)
  end.

(** The table [pattern_sub_stats], by its unique key, and the dictionary
    [pattern_stats_cache]. *)
Record StatsStore : Type := mkStore {
  sub_stats : gmap (Z * string) PatternState;
  stats_cache : gmap string PatternState
}.

(** The body of [for exp in expanded] in the second loop: the row of the
    sub-rule is looked up, created with its column defaults when missing,
    and copied into the cache. *)
Definition cache_sub_rule (id : Z) (store : StatsStore) (exp : Rule) : StatsStore :=
  let sub_key := sub_key_of exp in
  let stat_row := default zero_stat (sub_stats store !! (id, sub_key)) in
  mkStore (<[(id, sub_key) := stat_row]> (sub_stats store))
          (<[sub_pattern_key id exp := stat_row]> (stats_cache store)).

(** The body of the second loop. *)
Definition cache_row (store : StatsStore) (p : PatternRow) : res StatsStore :=
  if bool_decide (r_type (p_rule_json p) = Some "dynamic") then
    try! expanded <- expand_dynamic_pattern (p_rule_json p);
    Ok (foldl (cache_sub_rule (p_id p)) store expanded)
  else
    match p_stats p with
    | Some s => Ok (mkStore (sub_stats store) (<[Py.str (p_id p) := s]> (stats_cache store)))
    | None => Ok store
    end.

Fixpoint cache_rows (store : StatsStore) (rows : list PatternRow) : res StatsStore :=
  match rows with
  | [] => Ok store
  | p :: rest =>
      try! store' <- cache_row store p;
      cache_rows store' rest
  end.

(** What [load_patterns_to_engine] leaves behind when it returns: the
    list given to the engine, and the tables and the cache. *)
Record Loaded : Type := mkLoaded {
  l_patterns : list (string * Rule);
  l_store : StatsStore
}.

(** [load_patterns_to_engine] on the rows of [patterns] in the order of
    the query and on the table of the sub-rule states.  The cache is
    cleared between the two loops. *)
Definition load_patterns_to_engine (rows : list PatternRow)
    (table : gmap (Z * string) PatternState) : res Loaded :=
  let patterns := filter (fun p => p_active p = true) rows in
  try! pattern_list <- pattern_list_of patterns;
  try! store <- cache_rows (mkStore table ∅) patterns;
  Ok (mkLoaded pattern_list store).

(** *** Simulation *)

(** The counters of the loop of [api_pattern_simulate] over one rule. *)
Record SimState : Type := mkSim {
  triggers : Z;
  misses : Z;
  sim_trigger_streak : Z;
  sim_miss_streak : Z;
  max_trigger_streak : Z;
  max_miss_streak : Z
}.

Definition sim_start : SimState := mkSim 0 0 0 0 0 0.

(** The [if check['trigger'] ... elif check['miss'] ...] of the loop. *)
Definition sim_step (check : Check) (s : SimState) : SimState :=
  if c_trigger check then
    let ts := sim_trigger_streak s + 1 in
    mkSim (triggers s + 1) (misses s) ts 0
      (if ts >? max_trigger_streak s then ts else max_trigger_streak s)
      (max_miss_streak s)
  else if c_miss check then
    let ms := sim_miss_streak s + 1 in
    mkSim (triggers s) (misses s + 1) 0 ms
      (max_trigger_streak s)
      (if ms >? max_miss_streak s then ms else max_miss_streak s)
  else s.

(** [for i in range(1, len(colors) + 1)] with [window = colors[:i]]; the
    list [indices] holds the values of [i] still to come. *)
Fixpoint simulate_loop (colors : list string) (r : Rule) (indices : list nat)
    (s : SimState) : res SimState :=
  match indices with
  | [] => Ok s
  | i :: rest =>
      try! check <- check_pattern (take i colors) r;
      simulate_loop colors r rest (sim_step check s)
  end.

Definition simulate_rule (colors : list string) (r : Rule) : res SimState :=
  simulate_loop colors r (seq 1 (length colors)) sim_start.

(** An entry of [sub_patterns] in the answer, without the two rates,
    which are rounded floating-point percentages. *)
Record SimEntry : Type := mkSimEntry {
  se_name : string;
  se_total_triggers : Z;
  se_total_misses : Z;
  se_max_trigger_streak : Z;
  se_max_miss_streak : Z
}.

(** [api_pattern_simulate] for a stored rule and the colours of the rounds
    the query returned: the entries of [sub_patterns]. *)
Definition api_pattern_simulate (pattern_name : string) (rule : Rule)
    (colors : list string) : res (list SimEntry) :=
  try! rules_to_test <-
    (if bool_decide (r_type rule = Some "dynamic") then expand_dynamic_pattern rule
     else Ok [rule]);
  res_map_list
    (fun r =>
       try! s <- simulate_rule colors r;
       Ok (mkSimEntry (default pattern_name (r_name r)) (triggers s) (misses s)
             (max_trigger_streak s) (max_miss_streak s)))
    rules_to_test.

(** *** The preview of a rule on the dashboard *)

(** A stable sort, as [list.sort] and [sorted] are: [le x y] tells that
    [x] may stand before [y]. *)
Fixpoint insert_sorted {A : Type} (le : A -> A -> bool) (x : A) (l : list A) : list A :=
  match l with
  | [] => [x]
  | y :: rest => if le x y then x :: l else y :: insert_sorted le x rest
  end.

Definition sorted_by {A : Type} (le : A -> A -> bool) (l : list A) : list A :=
  foldr (insert_sorted le) [] l.

(** The rule whose trigger steps are drawn: for a dynamic rule the first
    sub-rule by [dynamic_x], the rule itself when the expansion raises or
    is empty. *)
Definition preview_rule (rule : Rule) : Rule :=
  if bool_decide (r_type rule = Some "dynamic") then
    match expand_dynamic_pattern rule with
    | Ok expanded =>
        match sorted_by (fun a b => default 0 (r_dynamic_x a) <=? default 0 (r_dynamic_x b))
                expanded with
        | first :: _ => first
        | [] => rule
        end
    | Raise _ => rule
    end
  else rule.

(** [int(count)] under [try], 1 on an exception. *)
Definition count_int_of (step : Step) : Z :=
  match get_default (s_count step) (CInt 1) with
  | Some (CInt z) => z
  | Some (CStr s) => default 1 (Py.int s)
  | None => 1
  end.

(** The colour a step is drawn in. *)
Definition preview_color (step : Step) : string :=
  let colors := default [] (s_colors step) in
  if mem_str "red" colors then "red"
  else if mem_str "yellow" colors && negb (mem_str "green_yellow" colors) then "yellow"
  else "green".

(** The number of times the colour of a step is repeated. *)
Definition preview_repeats (step : Step) : Z :=
  let op := default "minimum" (s_operator step) in
  let repeats := if mem_str op ["exact"; "minimum"] then Z.max (count_int_of step) 1 else 1 in
  Z.min repeats 25.

Definition build_visual_sequence_flat (rule : Rule) : res (list string) :=
  try! steps <- steps_of (r_trigger (preview_rule rule));
  Ok (flat_map (fun step => replicate (Z.to_nat (preview_repeats step)) (preview_color step))
        steps).

(** *** The streak table of the dashboard *)

Record StreakRow : Type := mkStreakRow {
  row_trigger_streak : option Z;
  row_trigger_count : Z;
  row_miss_streak : option Z;
  row_miss_count : Z
}.

(** [sorted(set(dist.keys()), reverse=True)[:12]] for a distribution from
    streak length to number of streaks. *)
Definition top_lengths (dist : gmap Z Z) : list Z :=
  take 12 (sorted_by (fun a b => b <=? a) (elements (dom dist))).

(** The rows of [streak_table] built in [api_patterns_dashboard] for one
    rule from its two distributions. *)
Definition streak_table (trigger_dist miss_dist : gmap Z Z) : list StreakRow :=
  let top_trigger_lengths := top_lengths trigger_dist in
  let top_miss_lengths := top_lengths miss_dist in
  let max_rows :=
    Nat.max (Nat.max (length top_trigger_lengths) (length top_miss_lengths)) 12 in
  let max_rows := Nat.min max_rows 12 in
  (fun i =>
     let t_len := top_trigger_lengths !! i in
     let m_len := top_miss_lengths !! i in
     mkStreakRow t_len
       (match t_len with Some l => default 0 (trigger_dist !! l) | None => 0 end)
       m_len
       (match m_len with Some l => default 0 (miss_dist !! l) | None => 0 end))
  <$> seq 0 max_rows.

(** *** Reading the fields of a payload *)

(** [int(v)]; [None] stands for any exception. *)
Definition int_of_json (v : json) : option Z :=
  match v with
  | JBool b => Some (if b then 1 else 0)
  | JInt z => Some z
  | JFloat f => Num.trunc f
  | JStr s => Py.int s
  | _ => None
  end.

Definition _to_int_or_none (v : json) : option Z :=
  if Json.is_blank v then None else int_of_json v.

(** The nested function [_walk] of [_flatten_dict_candidates]:
    [fuel] is [depth + 1], so no fuel is [depth < 0].  The objects of a
    decoded payload are all distinct, so the set [seen] never stops the
    walk; the list returned is what the walk appends to [out]. *)
Fixpoint _walk (fuel : nat) (obj : json) : list json :=
  match fuel with
  | O => []
  | S depth =>
      match obj with
      | JDict d =>
          obj ::
          flat_map (fun kv =>
                      match kv.2 with
                      | JDict _ => _walk depth kv.2
                      | JList (JDict d0 :: _) => _walk depth (JDict d0)
                      | _ => []
                      end) d
      | _ => []
      end
  end.

Definition _flatten_dict_candidates (payload : json) (max_depth : nat) : list json :=
  _walk (S max_depth) payload.

(** The inner loop of [_first_present] on one candidate. *)
Fixpoint first_key (c : json) (keys : list string) : option json :=
  match keys with
  | [] => None
  | k :: rest =>
      match c with
      | JDict d =>
          match Json.dict_get d k with
          | Some v => if Json.is_blank v then first_key c rest else Some v
          | None => first_key c rest
          end
      | _ => first_key c rest
      end
  end.

(** [_first_present]; [None] is Python's [None]. *)
Fixpoint _first_present (candidates : list json) (keys : list string) : option json :=
  match candidates with
  | [] => None
  | c :: rest =>
      match first_key c keys with
      | Some v => Some v
      | None => _first_present rest keys
      end
  end.

End Main.

(** ** [bc_game_listener.py]: crash values on their way to the callback *)

Module Listener.

(** [value == self.last_crash_value] *)
Definition same_value (value : spec_float) (last_crash_value : option spec_float) : bool :=
  match last_crash_value with
  | Some l => Num.eq (Num.of_float value) (Num.of_float l)
  | None => false
  end.

(** [handle_crash]: the attribute [last_crash_value] after the call and
    the call made to the callback, if any.  [has_callback] tells whether
    [on_crash_callback] is set. *)
Definition handle_crash {R : Type} (has_callback : bool) (value : spec_float) (raw_data : R)
    (last_crash_value : option spec_float)
    : option spec_float * option (spec_float * R) :=
  if same_value value last_crash_value then (last_crash_value, None)
  else (Some value, if has_callback then Some (value, raw_data) else None).

(** [_ensure_meta] for the metadata [meta] that [_generate_game_meta]
    drew.  [py_str] is the text [str] gives for a value that is no
    object. *)
Definition _ensure_meta (py_str : json -> string) (raw_data : json)
    (meta : list (string * json)) : list (string * json) :=
  let raw_data :=
    match raw_data with
    | JNull => []
    | JDict d => d
    | other => [("raw", JStr (substring 0 500 (py_str other)))]
    end in
  foldl (fun acc kv =>
           match Json.dict_get acc kv.1 with
           | Some v => if Json.is_blank v then Json.dict_set acc kv.1 kv.2 else acc
           | None => Json.dict_set acc kv.1 kv.2
           end)
        raw_data meta.

End Listener.

(** ** Rules and rounds used as examples *)

Module Examples.

Definition on_colors (group : list string) (operator : string) (count : CountVal) : Step :=
  mkStep (Some group) (Some operator) (Val count).

(** "Pattern 6" of [DEFAULT_PATTERNS], with the dynamic values 3, 4, 5. *)
Definition dynamic_345 : Rule :=
  mkRule (Some "dynamic") (Some "Pattern 6") (Val true)
    (Val (mkBlock (Some [on_colors ["green_yellow"] "exact" (CStr "$X")])))
    (Val (mkBlock (Some [on_colors ["green_yellow"] "minimum" (CStr "$X+1")])))
    (Some [3; 4; 5]) None (Some true) None.

(** Trigger on a trailing green or yellow, miss on a trailing red. *)
Definition green_or_red : Rule :=
  mkRule (Some "static") (Some "green or red") (Val true)
    (Val (mkBlock (Some [on_colors ["green_yellow"] "minimum" (CInt 1)])))
    (Val (mkBlock (Some [on_colors ["red"] "minimum" (CInt 1)])))
    None None (Some true) None.

(** Trigger and miss both on a trailing green. *)
Definition green_twice : Rule :=
  mkRule (Some "static") (Some "green twice") (Val true)
    (Val (mkBlock (Some [on_colors ["green"] "minimum" (CInt 1)])))
    (Val (mkBlock (Some [on_colors ["green_yellow"] "minimum" (CInt 1)])))
    None None (Some true) None.

(** The application right after start, with one rule loaded. *)
Definition fresh (key : string) (rule : Rule) : Main.AppState :=
  Main.mkApp [(key, rule)] [] [] ∅.

(** The one-character string holding the superscript two, U+00B2. *)
Definition superscript_two : string := String "178" EmptyString.

(** A static rule whose only step counts in superscript digits. *)
Definition superscript_count : Rule :=
  mkRule (Some "static") (Some "p") Absent
    (Val (mkBlock (Some [on_colors ["red"] "exact" (CStr superscript_two)])))
    Absent None None None None.

(** A rule posted without a trigger, which the request handler fills in
    as [null], and with an unknown operator in its miss list. *)
Definition null_trigger_weird_miss : Rule :=
  mkRule (Some "static") (Some "p") Null Null
    (Val (mkBlock (Some [on_colors ["red"] "weird" (CInt 1)])))
    None None None None.

(** A dynamic rule whose trigger step leaves its count out. *)
Definition dynamic_without_count : Rule :=
  mkRule (Some "dynamic") (Some "p") (Val true)
    (Val (mkBlock (Some [mkStep (Some ["red"]) (Some "minimum") Absent])))
    Absent (Some [3]) None (Some true) None.

(** A rule alerting from a trigger streak of 3 on, with a cooldown of 1. *)
Definition alert_3_1 : Rule :=
  mkRule (Some "static") (Some "alerting") (Val true) Absent Absent None None
    (Some true) (Some (mkAlerts (Some 3) None (Some 1))).

(** A rule alerting from a trigger streak of 3 on, with a cooldown of 2. *)
Definition alert_3_2 : Rule :=
  mkRule (Some "static") (Some "alerting") (Val true) Absent Absent None None
    (Some true) (Some (mkAlerts (Some 3) None (Some 2))).

(** A rule alerting from a trigger streak of 3 on, with no cooldown
    configured. *)
Definition alert_3_default : Rule :=
  mkRule (Some "static") (Some "alerting") (Val true) Absent Absent None None
    (Some true) (Some (mkAlerts (Some 3) None None)).

(** "Exactly X green or yellow", with the dynamic value 3 listed twice. *)
Definition dynamic_33 : Rule :=
  mkRule (Some "dynamic") (Some "p") (Val true)
    (Val (mkBlock (Some [on_colors ["green_yellow"] "exact" (CStr "$X")])))
    (Val (mkBlock (Some [on_colors ["green_yellow"] "minimum" (CStr "$X+1")])))
    (Some [3; 3]) None (Some true) None.

(** A dynamic rule whose trigger has a step with a count that stays
    symbolic, as the sum has a leading zero, and then a step that leaves
    its count out. *)
Definition unresolved_then_no_count : Rule :=
  mkRule (Some "dynamic") (Some "p") (Val true)
    (Val (mkBlock (Some [on_colors ["red"] "minimum" (CStr "$X+05");
                         mkStep (Some ["red"]) (Some "minimum") Absent])))
    (Val (mkBlock (Some [on_colors ["green"] "minimum" (CInt 1)])))
    (Some [3]) None (Some true) None.

Definition greens4 : list (string * string) :=
  [("green", "R1"); ("green", "R2"); ("green", "R3"); ("green", "R4")].

Definition greens5 : list (string * string) :=
  [("green", "R1"); ("green", "R2"); ("green", "R3"); ("green", "R4"); ("green", "R5")].


(** A dynamic rule posted without a trigger. *)
Definition dynamic_null_trigger : Rule :=
  mkRule (Some "dynamic") (Some "p") (Val true) Null
    (Val (mkBlock (Some [on_colors ["red"] "minimum" (CStr "$X")])))
    (Some [3]) None (Some true) None.

(** The table [patterns] with a static rule, a dynamic rule and a rule
    that is switched off. *)
Definition two_rows : list Main.PatternRow :=
  [ Main.mkPatternRow 1 "green or red" green_or_red true (Some PatternEngine.zero_stat);
    Main.mkPatternRow 2 "Pattern 6" dynamic_345 true None;
    Main.mkPatternRow 3 "green twice" green_twice false None ].

(** The table [patterns] as [init_default_patterns] fills it when it is
    empty: the default rules in order, numbered from 1, each active and
    with a fresh [PatternStats] row. *)
Definition default_rows : list Main.PatternRow :=
  imap (fun i rule =>
          Main.mkPatternRow (Z.of_nat (S i)) (default "" (r_name rule)) rule true
            (Some PatternEngine.zero_stat))
       PatternEngine.DEFAULT_PATTERNS.

End Examples.

(** ** Notions used to state the properties *)

Module Props.

Import PatternEngine.

(** What it takes for an outcome to match one member of a colour group. *)
Definition member_matches (color g : string) (tyag : bool) : Prop :=
  (g = "green_yellow" /\ (color = "green" \/ color = "yellow")) \/
  (g <> "green_yellow" /\ (g = normalize_color color tyag \/ g = color)).

(** Greedy consumption from [n] unconsumed outcomes down to [n']: the
    outcomes [colors[n'..n-1]] all belong to the group, and the run is
    maximal. *)
Definition greedy_run (colors group : list string) (tyag : bool) (n n' : nat) : Prop :=
  (n' <= n)%nat /\
  (forall j c, (n' <= j < n)%nat -> colors !! j = Some c ->
               color_matches_group c group tyag = true) /\
  (n' = O \/ exists c, colors !! (n' - 1)%nat = Some c /\
                       color_matches_group c group tyag = false).

(** The count of a step is of its schema type: an integer or a string,
    or left out. *)
Definition count_in_schema (step : Step) : Prop := s_count step <> Null.

(** The number of outcomes a step cannot match without: its count under
    [exact] and [minimum], nothing under [maximum]. *)
Definition step_needs (step : Step) : Z :=
  let operator := default "minimum" (s_operator step) in
  match count_of step with
  | Ok (Some c) =>
      if String.eqb operator "exact" || String.eqb operator "minimum"
      then Z.max 0 c else 0
  | _ => 0
  end.

Definition steps_need (sequence : list Step) : Z :=
  foldr (fun step acc => step_needs step + acc) 0 sequence.

(** The counts of the trigger steps of a rule, in order. *)
Definition trigger_counts (rule : Rule) : list (field CountVal) :=
  match r_trigger rule with
  | Val b => s_count <$> default [] (b_steps b)
  | _ => []
  end.

(** The counts of the miss steps of a rule, in order. *)
Definition miss_counts (rule : Rule) : list (field CountVal) :=
  match r_miss rule with
  | Val b => s_count <$> default [] (b_steps b)
  | _ => []
  end.

(** [sub] is [rule] bound to [x]: renamed after [x], stamped with it, and
    with every step of its two lists resolved at [x]. *)
Definition bound_sub_rule (rule : Rule) (name : string) (x : Z) (sub : Rule) : Prop :=
  r_dynamic_x sub = Some x /\
  r_name sub = Some (name +:+ " (X=" +:+ Py.str x +:+ ")") /\
  (forall l, steps_of (r_trigger rule) = Ok l ->
             steps_of (r_trigger sub) = Ok (resolve_step x <$> l)) /\
  (forall l, steps_of (r_miss rule) = Ok l ->
             steps_of (r_miss sub) = Ok (resolve_step x <$> l)).

(** The state of a rule key, zero until the key is first written. *)
Definition state_at (stats : gmap string PatternState) (key : string) : PatternState :=
  default zero_stat (stats !! key).

(** The rules a round applies to a key: the active entries of the engine
    under the key, in the order of the engine. *)
Definition entries_of (key : string) (patterns : list (string * Rule)) : list Rule :=
  (filter (fun kr => kr.1 = key /\ default true (r_active kr.2) = true) patterns).*2.

(** The transitions of a key for the checks of its entries, taken one
    after another: the state reached and the events added. *)
Fixpoint apply_checks (key : string) (checks : list Check) (s : PatternState)
    : PatternState * list MatchEvent :=
  match checks with
  | [] => (s, [])
  | check :: rest =>
      let step := apply_check key check s in
      let more := apply_checks key rest step.1 in
      (more.1, step.2 ++ more.2)
  end.

(** At most one of the two streaks is running. *)
Definition exclusive (s : PatternState) : Prop :=
  trigger_streak s = 0 \/ miss_streak s = 0.

(** From [s] to [s']: exclusiveness is kept and the longest streaks do
    not decrease. *)
Definition evolves (s s' : PatternState) : Prop :=
  (exclusive s -> exclusive s') /\
  longest_trigger_streak s <= longest_trigger_streak s' /\
  longest_miss_streak s <= longest_miss_streak s'.

(** The keys of the active rules, in the order of the engine. *)
Fixpoint active_keys (patterns : list (string * Rule)) : list string :=
  match patterns with
  | [] => []
  | (pattern_id, rule) :: rest =>
      if default true (r_active rule) then pattern_id :: active_keys rest
      else active_keys rest
  end.

(** The match events of one key. *)
Definition events_of (key : string) (results : list MatchEvent) : list MatchEvent :=
  filter (fun ev => ev_pattern_id ev = key) results.




(** Every key of the dictionary starts with the identifier of its rule,
    as the keys built when the rules are loaded do. *)
Definition keys_parse (stats : gmap string PatternState) : Prop :=
  forall k, is_Some (stats !! k) -> exists b, Main.base_pattern_id k = Ok b.

(** The calls of [check_and_fire_alert] for the successive events of one
    rule key, each event given as its streak and its round. *)
Fixpoint dispatch_all (pattern_id pattern_name event_type : string) (rule : Rule)
    (events : list (Z * string)) (cache : gmap string Z)
    : list (res (option Main.Alert)) :=
  match events with
  | [] => []
  | (streak, round_number) :: rest =>
      let call :=
        Main.check_and_fire_alert pattern_id pattern_name event_type streak
          round_number rule cache in
      call.2 :: dispatch_all pattern_id pattern_name event_type rule rest call.1
  end.

Definition emitted (r : res (option Main.Alert)) : bool :=
  match r with
  | Ok (Some _) => true
  | _ => false
  end.

(** With a cooldown of [n] rounds, the eligible events of one key and
    kind that emit, counted from 0 and from a start with no cooldown
    outstanding: every [(n + 1)]-th, beginning with the first. *)
Definition fires_at (n : Z) (i : nat) : bool := Z.of_nat i mod (n + 1) =? 0.

(** A positive cooldown is outstanding for the key. *)
Definition outstanding (cache : gmap string Z) (key : string) : Prop :=
  exists n, cache !! key = Some n /\ 0 < n.

(** A call of [check_and_fire_alert], by its arguments. *)
Record Call : Type := mkCall {
  call_pid : string;
  call_name : string;
  call_event : string;
  call_streak : Z;
  call_round : string;
  call_rule : Rule
}.

(** Calls made one after another on the same cache, each with what it
    returned. *)
Fixpoint run_calls (calls : list Call) (cache : gmap string Z)
    : list (Call * res (option Main.Alert)) :=
  match calls with
  | [] => []
  | c :: rest =>
      let call :=
        Main.check_and_fire_alert (call_pid c) (call_name c) (call_event c)
          (call_streak c) (call_round c) (call_rule c) cache in
      (c, call.2) :: run_calls rest call.1
  end.

(** The call is an eligible event of the rule key [pid] for the alert
    kind [kind]. *)
Definition concerns (pid kind : string) (c : Call) : Prop :=
  call_pid c = pid /\
  Main.alert_type_of (call_event c) (call_streak c) (call_rule c) = Some kind.

#[global] Instance concerns_dec pid kind c : Decision (concerns pid kind c).
Proof. unfold concerns. apply _. Defined.

(** A step the validator lets through. *)
Definition step_well_formed (s : Step) : Prop :=
  let colors := default [] (s_colors s) in
  colors <> [] /\
  Forall (fun c => c ∈ Main.allowed_colors) colors /\
  default "minimum" (s_operator s) ∈ Main.allowed_ops /\
  Main._is_valid_count_expr (get_default (s_count s) (CInt 1)) = Ok true.

(** A rule the validator lets through. *)
Definition rule_well_formed (rule : Rule) : Prop :=
  (r_type rule = Some "static" \/ r_type rule = Some "dynamic") /\
  Py.strip (default "" (r_name rule)) <> "" /\
  (exists steps, steps_of (r_trigger rule) = Ok steps /\ Forall step_well_formed steps) /\
  (exists steps, steps_of (r_miss rule) = Ok steps /\ Forall step_well_formed steps) /\
  (r_type rule = Some "dynamic" ->
   exists dvs, r_dynamic_values rule = Some dvs /\ dvs <> [] /\
               Forall (fun x => 3 <= x <= 8) dvs).

(** The value of a run of decimal digits read after [acc]. *)
Fixpoint digits_val (d : Decimal.uint) (acc : Z) : Z :=
  match d with
  | Decimal.Nil => acc
  | Decimal.D0 l => digits_val l (10 * acc + 0)
  | Decimal.D1 l => digits_val l (10 * acc + 1)
  | Decimal.D2 l => digits_val l (10 * acc + 2)
  | Decimal.D3 l => digits_val l (10 * acc + 3)
  | Decimal.D4 l => digits_val l (10 * acc + 4)
  | Decimal.D5 l => digits_val l (10 * acc + 5)
  | Decimal.D6 l => digits_val l (10 * acc + 6)
  | Decimal.D7 l => digits_val l (10 * acc + 7)
  | Decimal.D8 l => digits_val l (10 * acc + 8)
  | Decimal.D9 l => digits_val l (10 * acc + 9)
  end.

Definition head_is_zero (d : Decimal.uint) : bool :=
  match d with
  | Decimal.D0 _ => true
  | _ => false
  end.

(** The tokens of [str(x)]. *)
Definition int_tokens (x : Z) : list Py.token :=
  if x <? 0 then [Py.TMinus; Py.TNum (- x)] else [Py.TNum x].

Definition starts_with_digit (s : string) : bool :=
  match s with
  | String c _ => Py.isdecimal_char c
  | EmptyString => false
  end.

(** The characters of a sum of integers written without spaces. *)
Definition sum_char (c : ascii) : bool :=
  Py.isdecimal_char c || Ascii.eqb c "+" || Ascii.eqb c "-".


(** The counters of a state fit together: each streak is at most the
    longest streak of its kind, which is at most the number of matches
    of that kind. *)
Definition coherent (s : PatternState) : Prop :=
  0 <= trigger_streak s <= longest_trigger_streak s /\
  longest_trigger_streak s <= total_triggers s /\
  0 <= miss_streak s <= longest_miss_streak s /\
  longest_miss_streak s <= total_misses s.

(** The events of one kind among the events of a round. *)
Definition events_of_kind (key kind : string) (results : list MatchEvent)
    : list MatchEvent :=
  filter (fun ev => ev_pattern_id ev = key /\ ev_event ev = kind) results.

(** The steps of a trigger or miss entry, none when the entry is [null]. *)
Definition rule_steps (f : field Block) : list Step :=
  match steps_of f with
  | Ok l => l
  | Raise _ => []
  end.

(** The step carries a count of its own. *)
Definition has_count (s : Step) : Prop := exists v, s_count s = Val v.

(** The counters of a simulation, read as the state of a rule. *)
Definition stat_of_sim (s : Main.SimState) : PatternState :=
  mkStat (Main.sim_trigger_streak s) (Main.sim_miss_streak s)
    (Main.triggers s) (Main.misses s)
    (Main.max_trigger_streak s) (Main.max_miss_streak s).

(** The keys under which a row of [patterns] is known to the engine:
    its identifier for a static rule, its identifier and ["X=<x>"] for
    every dynamic value [x] for a dynamic one. *)
Definition row_keys (p : Main.PatternRow) : list string :=
  if bool_decide (r_type (Main.p_rule_json p) = Some "dynamic") then
    (fun x => Py.str (Main.p_id p) +:+ ":X=" +:+ Py.str x)
      <$> default [3; 4; 5; 6; 7; 8] (r_dynamic_values (Main.p_rule_json p))
  else [Py.str (Main.p_id p)].

(** The rows the loader selects. *)
Definition selected (rows : list Main.PatternRow) : list Main.PatternRow :=
  filter (fun p => Main.p_active p = true) rows.

(** A row whose rule the validator accepts and, if it is dynamic, whose
    steps all carry a count. *)
Definition row_accepted (p : Main.PatternRow) : Prop :=
  let rule := Main.p_rule_json p in
  Main._validate_rule_json rule = Ok (true, None) /\
  (r_type rule = Some "dynamic" ->
   Forall has_count (rule_steps (r_trigger rule)) /\
   Forall has_count (rule_steps (r_miss rule))).

(** What a cell of the streak table shows at row [i]: the streak length
    with exactly [i] longer lengths in the distribution, with its number
    of streaks, or nothing when the distribution has at most [i]
    lengths. *)
Definition ranked (dist : gmap Z Z) (i : nat) (streak : option Z) (count : Z) : Prop :=
  match streak with
  | Some l =>
      dist !! l = Some count /\
      length (filter (fun k => l < k) (elements (dom dist))) = i
  | None => count = 0 /\ (size dist <= i)%nat
  end.

(** The object the walk of a payload enters through a value: the value
    itself when it is an object, its first element when it is a list
    that starts with an object. *)
Definition entered (v : json) : option json :=
  match v with
  | JDict _ => Some v
  | JList (JDict d0 :: _) => Some (JDict d0)
  | _ => None
  end.

(** [nested n payload x]: the object [x] lies [n] levels below the
    object [payload]. *)
Inductive nested : nat -> json -> json -> Prop :=
| nested_here d : nested 0 (JDict d) (JDict d)
| nested_step n d k v c x :
    (k, v) ∈ d -> entered v = Some c -> nested n c x -> nested (S n) (JDict d) x.

(** The candidate has a value that counts under one of the keys. *)
Definition offers (c : json) (keys : list string) : Prop :=
  exists d k v, c = JDict d /\ k ∈ keys /\ Json.dict_get d k = Some v /\
                Json.is_blank v = false.

(** The three colours in the order of the crash values they stand for. *)
Definition color_rank (c : string) : nat :=
  if String.eqb c "red" then 0 else if String.eqb c "green" then 1 else 2.

(** The calls of [handle_crash] for the values arriving one after
    another, each with what it handed to the callback. *)
Fixpoint handle_crashes {R : Type} (has_callback : bool) (calls : list (spec_float * R))
    (last_crash_value : option spec_float) : list (option (spec_float * R)) :=
  match calls with
  | [] => []
  | (value, raw_data) :: rest =>
      let r := Listener.handle_crash has_callback value raw_data last_crash_value in
      r.2 :: handle_crashes has_callback rest r.1
  end.

(** No value handed to the callback equals the one handed to it just
    before, nor the first one the value the listener started with. *)
Fixpoint no_repeat {R : Type} (last_crash_value : option spec_float)
    (delivered : list (spec_float * R)) : Prop :=
  match delivered with
  | [] => True
  | x :: rest =>
      Listener.same_value x.1 last_crash_value = false /\ no_repeat (Some x.1) rest
  end.

(** What the loop over the metadata leaves under a key. *)
Definition filled (old : option json) (new : option json) : option json :=
  match old with
  | Some v => if Json.is_blank v then Some (default v new) else Some v
  | None => new
  end.


End Props.

(** * Properties *)

(** ** Colour groups *)

Section ColorGroup.

Import PatternEngine Props.

Lemma in_green_yellow_iff c : in_green_yellow c = true <-> c = "green" \/ c = "yellow".
Proof.
  unfold in_green_yellow. rewrite orb_true_iff, !String.eqb_eq. tauto.
Qed.

Lemma normalize_green_yellow c tyag :
  in_green_yellow (normalize_color c tyag) || in_green_yellow c = in_green_yellow c.
Proof.
  unfold normalize_color.
  destruct tyag; simpl; [|apply orb_diag].
  destruct (String.eqb_spec c "yellow") as [->|Hne]; [reflexivity|apply orb_diag].
Qed.

Lemma group_loop_iff color tyag group :
  group_loop color (normalize_color color tyag) group = true <->
  exists g, g ∈ group /\ member_matches color g tyag.
Proof.
  induction group as [|g rest IH]; simpl.
  - split; [discriminate|]. intros (g & Hin & _). by apply not_elem_of_nil in Hin.
  - destruct (String.eqb_spec g "green_yellow") as [Hg|Hg].
    + rewrite normalize_green_yellow.
      destruct (in_green_yellow color) eqn:Hc.
      * split; [|done]. intros _. exists g. split; [left|].
        left. split; [done|]. by apply in_green_yellow_iff.
      * rewrite IH. split.
        -- intros (g' & Hin & Hm). exists g'. split; [by right|done].
        -- intros (g' & Hin & Hm). apply elem_of_cons in Hin as [->|Hin]; [|eauto].
           destruct Hm as [[_ Hm]|[Hm _]]; [|done].
           apply in_green_yellow_iff in Hm. congruence.
    + destruct (String.eqb g (normalize_color color tyag) || String.eqb g color) eqn:Hc.
      * split; [|done]. intros _. exists g. split; [left|].
        right. split; [done|].
        by rewrite orb_true_iff, !String.eqb_eq in Hc.
      * rewrite IH. split.
        -- intros (g' & Hin & Hm). exists g'. split; [by right|done].
        -- intros (g' & Hin & Hm). apply elem_of_cons in Hin as [->|Hin]; [|eauto].
           destruct Hm as [[Hm _]|[_ Hm]]; [done|].
           rewrite <- !String.eqb_eq, <- orb_true_iff in Hm. congruence.
Qed.

(** C2, as the specification words it, fails: with [treat_yellow_as_green]
    set, a yellow outcome matches the literal group member [yellow],
    although [yellow] is not its normalized colour. *)
Lemma yellow_matches_literal_yellow :
  color_matches_group "yellow" ["yellow"] true = true /\
  normalize_color "yellow" true <> "yellow".
Proof. split; [reflexivity|discriminate]. Qed.

(** C2 (amended): an outcome matches a group iff it matches one of its
    members; it matches [green_yellow] iff it is green or yellow, and a
    literal colour name iff it equals that name before or after the
    yellow-to-green normalization.  With [treat_yellow_as_green] set, a
    yellow outcome matches both the literal [green] and the literal
    [yellow]. *)
Theorem color_matches_group_members :
  (forall color group tyag,
      color_matches_group color group tyag = true <->
      exists g, g ∈ group /\ member_matches color g tyag) /\
  (forall color tyag,
      color_matches_group color ["green_yellow"] tyag = true <->
      color = "green" \/ color = "yellow") /\
  (forall color g tyag, g <> "green_yellow" ->
      color_matches_group color [g] tyag = true <->
      g = normalize_color color tyag \/ g = color) /\
  color_matches_group "yellow" ["green"] true = true /\
  color_matches_group "yellow" ["yellow"] true = true.
Proof.
  split; [|split; [|split; [|split; reflexivity]]].
  - intros. apply group_loop_iff.
  - intros color tyag. unfold color_matches_group. rewrite group_loop_iff. split.
    + intros (g & Hin & Hm). apply list_elem_of_singleton in Hin as ->.
      destruct Hm as [[_ Hm]|[Hm _]]; done.
    + intros Hc. exists "green_yellow". split; [by left|]. by left.
  - intros color g tyag Hg. unfold color_matches_group. rewrite group_loop_iff. split.
    + intros (g' & Hin & Hm). apply list_elem_of_singleton in Hin as ->.
      destruct Hm as [[Hm _]|[_ Hm]]; done.
    + intros Hc. exists g. split; [by left|]. by right.
Qed.

(** The amended C2 at a literal member. *)
Lemma color_matches_group_members_witness :
  "red" <> "green_yellow" /\
  (color_matches_group "red" ["red"] false = true <->
   "red" = normalize_color "red" false \/ "red" = "red").
Proof.
  split; [discriminate|].
  apply (proj1 (proj2 (proj2 color_matches_group_members)) "red" "red" false).
  discriminate.
Defined.

End ColorGroup.

(** ** The sequence matcher *)

Section Matcher.

Import PatternEngine Props.

Lemma consume_greedy colors group tyag n m :
  (n <= length colors)%nat ->
  exists n', consume colors group tyag n m = Ok (n', m + Z.of_nat (n - n')) /\
             greedy_run colors group tyag n n'.
Proof.
  revert m. induction n as [|i IH]; intros m Hn; simpl.
  - exists O. split; [f_equal; f_equal; lia|].
    split; [lia|]. split; [intros; lia|by left].
  - destruct (lookup_lt_is_Some_2 colors i) as [c Hc]; [lia|].
    rewrite Hc. destruct (color_matches_group c group tyag) eqn:Hm.
    + destruct (IH (m + 1)) as (n' & Heq & Hle & Hall & Hend); [lia|].
      exists n'. split; [rewrite Heq; f_equal; f_equal; lia|].
      split; [lia|]. split; [|done].
      intros j c' Hj Hc'. destruct (decide (j = i)) as [->|Hne].
      * congruence.
      * apply (Hall j); [lia|done].
    + exists (S i). split; [f_equal; f_equal; lia|].
      split; [lia|]. split; [intros; lia|].
      right. exists c. by replace (S i - 1)%nat with i by lia.
Qed.

Lemma operator_fails_exact matched count :
  operator_fails "exact" matched count = negb (matched =? count).
Proof. reflexivity. Qed.

Lemma match_steps_cons colors tyag step rest n count :
  (0 < n <= length colors)%nat ->
  count_of step = Ok (Some count) ->
  exists n', greedy_run colors (default [] (s_colors step)) tyag n n' /\
    match_steps colors tyag (step :: rest) n =
      if operator_fails (default "minimum" (s_operator step)) (Z.of_nat (n - n')) count
      then Ok false else match_steps colors tyag rest n'.
Proof.
  intros [Hpos Hn] Hcount.
  destruct (consume_greedy colors (default [] (s_colors step)) tyag n 0 Hn)
    as (n' & Heq & Hrun).
  exists n'. split; [done|].
  destruct n as [|i]; [lia|].
  cbn [match_steps match_step]. rewrite Hcount. cbn [res_bind].
  rewrite Heq. cbn [res_bind fst snd]. rewrite Z.add_0_l.
  by destruct (operator_fails _ _ _).
Qed.

Lemma match_sequence_steps c colors step sequence tyag :
  match_sequence (c :: colors) (step :: sequence) tyag =
  match_steps (c :: colors) tyag (rev (step :: sequence)) (length (c :: colors)).
Proof. reflexivity. Qed.

(** A step checked against a buffer that ends with [tail], all of whose
    outcomes belong to the step's group: the step consumes the tail and
    [extra] more outcomes, none when the buffer before the tail is empty or
    ends outside the group. *)
Lemma single_step_on_tail front tail step count tyag :
  tail <> [] ->
  count_of step = Ok (Some count) ->
  Forall (fun c => color_matches_group c (default [] (s_colors step)) tyag = true) tail ->
  exists extra : nat,
    match_sequence (front ++ tail) [step] tyag =
      Ok (negb (operator_fails (default "minimum" (s_operator step))
                  (Z.of_nat (length tail + extra)) count)) /\
    ((forall c, last front = Some c ->
                color_matches_group c (default [] (s_colors step)) tyag = false) ->
     extra = O).
Proof.
  intros Htail Hcount Hall.
  assert (Hlen : (0 < length (front ++ tail) <= length (front ++ tail))%nat).
  { rewrite length_app. destruct tail; [done|]. cbn. lia. }
  destruct (match_steps_cons (front ++ tail) tyag step [] _ count Hlen Hcount)
    as (n' & (Hle & Hrun & Hend) & Heq).
  assert (Hn' : (n' <= length front)%nat).
  { destruct (decide (n' <= length front)%nat) as [|Hgt]; [done|]. exfalso.
    destruct Hend as [->|(c & Hc & Hm)]; [lia|].
    rewrite lookup_app_r in Hc by lia.
    rewrite Forall_forall in Hall. rewrite (Hall c) in Hm; [done|].
    by apply list_elem_of_lookup_2 in Hc. }
  exists (length front - n')%nat. split.
  - assert (Hseq : match_sequence (front ++ tail) [step] tyag =
                   match_steps (front ++ tail) tyag [step] (length (front ++ tail))).
    { destruct (front ++ tail) eqn:Hft; [|done].
      apply app_eq_nil in Hft as [_ ?]. done. }
    rewrite Hseq, Heq. rewrite length_app in *.
    replace (length front + length tail - n')%nat
      with (length tail + (length front - n'))%nat by lia.
    clear. by destruct (operator_fails _ _ _).
  - intros Hlast. destruct (decide (n' = length front)) as [->|Hne]; [lia|]. exfalso.
    destruct (last front) as [c|] eqn:Hc.
    + specialize (Hlast c eq_refl). rewrite last_lookup in Hc.
      rewrite (Hrun (Nat.pred (length front)) c) in Hlast.
      * done.
      * rewrite length_app. destruct front; cbn in *; lia.
      * by rewrite lookup_app_l by (destruct front; cbn in *; lia).
    + apply last_None in Hc as ->. cbn in *. lia.
Qed.
(** C1: the exact step [{colors: [green_yellow], count: 3}] matches three
    greens and not four, the minimum step matches both; a sequence is
    matched from its last step, and each step, once its outcomes are
    consumed greedily, passes iff the consumed number equals the count
    (exact), reaches it (minimum) or does not exceed it (maximum), a
    failing step failing the whole match.  The same holds of the greens as
    the tail of a longer buffer: four of them fail the exact step, three or
    four pass the minimum step, and three pass the exact step when the
    outcome before them is not green or yellow. *)
Theorem match_sequence_operators :
  (forall tyag,
      let step op := mkStep (Some ["green_yellow"]) (Some op) (Val (CInt 3)) in
      match_sequence ["green"; "green"; "green"] [step "exact"] tyag = Ok true /\
      match_sequence ["green"; "green"; "green"; "green"] [step "exact"] tyag = Ok false /\
      match_sequence ["green"; "green"; "green"] [step "minimum"] tyag = Ok true /\
      match_sequence ["green"; "green"; "green"; "green"] [step "minimum"] tyag = Ok true) /\
  (forall c colors step sequence tyag,
      match_sequence (c :: colors) (step :: sequence) tyag =
      match_steps (c :: colors) tyag (rev (step :: sequence)) (length (c :: colors))) /\
  (forall colors tyag step rest n count,
      (0 < n <= length colors)%nat ->
      count_of step = Ok (Some count) ->
      exists n',
        greedy_run colors (default [] (s_colors step)) tyag n n' /\
        let consumed := Z.of_nat (n - n') in
        let operator := default "minimum" (s_operator step) in
        (operator = "exact" ->
         match_steps colors tyag (step :: rest) n =
         if consumed =? count then match_steps colors tyag rest n' else Ok false) /\
        (operator = "minimum" ->
         match_steps colors tyag (step :: rest) n =
         if count <=? consumed then match_steps colors tyag rest n' else Ok false) /\
        (operator = "maximum" ->
         match_steps colors tyag (step :: rest) n =
         if consumed <=? count then match_steps colors tyag rest n' else Ok false)) /\
  (forall front tyag,
      let step op := mkStep (Some ["green_yellow"]) (Some op) (Val (CInt 3)) in
      match_sequence (front ++ ["green"; "green"; "green"; "green"]) [step "exact"] tyag
        = Ok false /\
      match_sequence (front ++ ["green"; "green"; "green"]) [step "minimum"] tyag
        = Ok true /\
      match_sequence (front ++ ["green"; "green"; "green"; "green"]) [step "minimum"] tyag
        = Ok true /\
      ((forall c, last front = Some c ->
                  color_matches_group c ["green_yellow"] tyag = false) ->
       match_sequence (front ++ ["green"; "green"; "green"]) [step "exact"] tyag
         = Ok true)).
Proof.
  split; [|split; [|split]].
  - intros tyag. by destruct tyag.
  - intros. apply match_sequence_steps.
  - intros colors tyag step rest n count Hn Hcount.
    destruct (match_steps_cons colors tyag step rest n count Hn Hcount)
      as (n' & Hrun & Heq).
    exists n'. split; [done|]. cbn zeta.
    split; [|split]; intros Hop; rewrite Heq, Hop; unfold operator_fails; simpl.
    + by destruct (_ =? _).
    + rewrite Z.ltb_antisym. by destruct (_ <=? _).
    + rewrite Z.gtb_ltb, Z.ltb_antisym. by destruct (_ <=? _).
  - intros front tyag step.
    assert (Hg : color_matches_group "green" ["green_yellow"] tyag = true)
      by by destruct tyag.
    repeat split.
    + destruct (single_step_on_tail front ["green"; "green"; "green"; "green"]
                  (step "exact") 3 tyag)
        as (extra & -> & _); [done|done|by repeat constructor|].
      rewrite operator_fails_exact. f_equal.
      apply negb_false_iff, negb_true_iff, Z.eqb_neq. cbn [length]. lia.
    + destruct (single_step_on_tail front ["green"; "green"; "green"]
                  (step "minimum") 3 tyag)
        as (extra & -> & _); [done|done|by repeat constructor|].
      f_equal. apply negb_true_iff, Z.ltb_ge. cbn [length]. lia.
    + destruct (single_step_on_tail front ["green"; "green"; "green"; "green"]
                  (step "minimum") 3 tyag)
        as (extra & -> & _); [done|done|by repeat constructor|].
      f_equal. apply negb_true_iff, Z.ltb_ge. cbn [length]. lia.
    + intros Hlast.
      destruct (single_step_on_tail front ["green"; "green"; "green"]
                  (step "exact") 3 tyag)
        as (extra & -> & Hextra); [done|done|by repeat constructor|].
      by rewrite (Hextra Hlast).
Qed.

(** C1 at the exact step on three greens: the three are consumed. *)
Lemma match_sequence_operators_witness :
  let colors := ["green"; "green"; "green"] in
  let step := mkStep (Some ["green_yellow"]) (Some "exact") (Val (CInt 3)) in
  exists n',
    greedy_run colors ["green_yellow"] true 3 n' /\
    let consumed := Z.of_nat (3 - n') in
    ("exact" = "exact" ->
     match_steps colors true [step] 3 =
     if consumed =? 3 then match_steps colors true [] n' else Ok false) /\
    ("exact" = "minimum" ->
     match_steps colors true [step] 3 =
     if 3 <=? consumed then match_steps colors true [] n' else Ok false) /\
    ("exact" = "maximum" ->
     match_steps colors true [step] 3 =
     if consumed <=? 3 then match_steps colors true [] n' else Ok false).
Proof.
  apply (proj1 (proj2 (proj2 match_sequence_operators))
           ["green"; "green"; "green"] true
           (mkStep (Some ["green_yellow"]) (Some "exact") (Val (CInt 3))) [] 3%nat 3).
  - simpl. lia.
  - reflexivity.
Defined.

Lemma count_of_schema step :
  count_in_schema step -> exists o, count_of step = Ok o.
Proof.
  unfold count_in_schema, count_of. destruct (s_count step) as [| |[z|s]]; simpl.
  - eauto.
  - done.
  - eauto.
  - destruct (Py.int s); eauto.
Qed.

(** What [match_step] does when no count is null. *)
Lemma match_step_cases colors tyag step n :
  (n <= length colors)%nat ->
  count_in_schema step ->
  match_step colors tyag step n = Ok None \/
  exists n' count,
    match_step colors tyag step n = Ok (Some n') /\
    count_of step = Ok (Some count) /\
    (0 < n)%nat /\ (n' <= n)%nat /\
    operator_fails (default "minimum" (s_operator step)) (Z.of_nat (n - n')) count = false.
Proof.
  intros Hn Hschema. destruct n as [|i]; [by left|].
  destruct (count_of_schema step Hschema) as [[count|] Hc];
    cbn [match_step]; rewrite Hc; cbn [res_bind]; [|by left].
  destruct (consume_greedy colors (default [] (s_colors step)) tyag (S i) 0 Hn)
    as (n' & Heq & Hle & _).
  rewrite Heq. cbn [res_bind fst snd]. rewrite Z.add_0_l.
  destruct (operator_fails _ _ _) eqn:Hop; [by left|].
  right. exists n', count. repeat split; try done; lia.
Qed.

Lemma match_steps_total colors tyag rsteps n :
  (n <= length colors)%nat ->
  Forall count_in_schema rsteps ->
  exists b, match_steps colors tyag rsteps n = Ok b.
Proof.
  intros Hn Hall. revert n Hn.
  induction Hall as [|step rest Hstep Hrest IH]; intros n Hn; [by exists true|].
  cbn [match_steps].
  destruct (match_step_cases colors tyag step n Hn Hstep)
    as [->|(n' & count & -> & _ & _ & Hle & _)]; cbn [res_bind].
  - by exists false.
  - apply IH. lia.
Qed.

Lemma operator_fails_needs step count consumed :
  count_of step = Ok (Some count) ->
  0 <= consumed ->
  operator_fails (default "minimum" (s_operator step)) consumed count = false ->
  step_needs step <= consumed.
Proof.
  intros Hc Hpos. unfold step_needs, operator_fails. rewrite Hc.
  destruct (String.eqb (default "minimum" (s_operator step)) "exact"); simpl.
  - intros H. apply negb_false_iff, Z.eqb_eq in H. lia.
  - destruct (String.eqb _ "minimum"); [|lia].
    intros H. apply Z.ltb_ge in H. lia.
Qed.

Lemma match_steps_needs colors tyag rsteps n :
  (n <= length colors)%nat ->
  Forall count_in_schema rsteps ->
  match_steps colors tyag rsteps n = Ok true ->
  steps_need rsteps <= Z.of_nat n.
Proof.
  intros Hn Hall. revert n Hn.
  induction Hall as [|step rest Hstep Hrest IH]; intros n Hn; [simpl; lia|].
  cbn [match_steps steps_need foldr].
  destruct (match_step_cases colors tyag step n Hn Hstep)
    as [->|(n' & count & -> & Hc & _ & Hle & Hop)]; cbn [res_bind]; [done|].
  intros Hrest'. apply IH in Hrest'; [|lia].
  apply (operator_fails_needs step count) in Hop; [|done|lia].
  fold (steps_need rest). lia.
Qed.

Lemma steps_need_app l1 l2 : steps_need (l1 ++ l2) = steps_need l1 + steps_need l2.
Proof.
  unfold steps_need. induction l1 as [|s l1 IH]; simpl; [done|]. rewrite IH. lia.
Qed.

Lemma steps_need_rev l : steps_need (rev l) = steps_need l.
Proof.
  induction l as [|s l IH]; [done|]. simpl rev. rewrite steps_need_app, IH.
  unfold steps_need. simpl. lia.
Qed.

Lemma match_steps_malformed colors tyag rsteps n step s :
  (n <= length colors)%nat ->
  Forall count_in_schema rsteps ->
  step ∈ rsteps ->
  s_count step = Val (CStr s) ->
  Py.int s = None ->
  match_steps colors tyag rsteps n = Ok false.
Proof.
  intros Hn Hall Hin Hs Hint. revert n Hn.
  induction Hall as [|st rest Hst Hrest IH]; intros n Hn.
  - by apply not_elem_of_nil in Hin.
  - cbn [match_steps].
    destruct (match_step_cases colors tyag st n Hn Hst)
      as [->|(n' & count & -> & Hc & _ & Hle & _)]; cbn [res_bind]; [done|].
    apply elem_of_cons in Hin as [->|Hin].
    + unfold count_of in Hc. rewrite Hs in Hc. simpl in Hc. by rewrite Hint in Hc.
    + apply IH; [done|lia].
Qed.

Lemma match_sequence_as_steps colors sequence tyag :
  match_sequence colors sequence tyag = Ok false \/
  match_sequence colors sequence tyag =
    match_steps colors tyag (rev sequence) (length colors).
Proof.
  destruct colors; [by left|]. destruct sequence; [by left|]. by right.
Qed.

(** On steps whose counts are integers or strings, [match_sequence]
    never raises; it returns false when the buffer holds fewer outcomes
    than the steps need, whenever the cursor is past the start with a step
    left to check, and whenever some step has a string count that does not
    parse as an integer.  Whatever the other steps are, the check of a step
    with such a count returns false. *)
Theorem match_sequence_false_not_raise :
  (forall colors sequence tyag,
      Forall count_in_schema sequence ->
      exists b, match_sequence colors sequence tyag = Ok b) /\
  (forall colors sequence tyag,
      Forall count_in_schema sequence ->
      Z.of_nat (length colors) < steps_need sequence ->
      match_sequence colors sequence tyag = Ok false) /\
  (forall colors tyag step rest,
      match_steps colors tyag (step :: rest) 0 = Ok false) /\
  (forall colors sequence tyag step s,
      Forall count_in_schema sequence ->
      step ∈ sequence ->
      s_count step = Val (CStr s) ->
      Py.int s = None ->
      match_sequence colors sequence tyag = Ok false) /\
  (forall colors tyag step rest n s,
      s_count step = Val (CStr s) ->
      Py.int s = None ->
      match_steps colors tyag (step :: rest) n = Ok false).
Proof.
  split; [|split; [|split; [|split]]].
  5:{ intros colors tyag step rest n s Hs Hint.
      assert (Hc : count_of step = Ok None).
      { unfold count_of. rewrite Hs. cbn. by rewrite Hint. }
      destruct n; [done|]. cbn [match_steps match_step]. by rewrite Hc. }
  - intros colors sequence tyag Hall.
    destruct (match_sequence_as_steps colors sequence tyag) as [->| ->]; [by exists false|].
    apply match_steps_total; [done|]. by apply Forall_rev.
  - intros colors sequence tyag Hall Hshort.
    destruct (match_sequence_as_steps colors sequence tyag) as [->|Heq]; [done|].
    rewrite Heq.
    destruct (match_steps_total colors tyag (rev sequence) (length colors))
      as [[|] Hb]; [done|by apply Forall_rev| |done].
    apply match_steps_needs in Hb; [|done|by apply Forall_rev].
    rewrite steps_need_rev in Hb. lia.
  - reflexivity.
  - intros colors sequence tyag step s Hall Hin Hs Hint.
    destruct (match_sequence_as_steps colors sequence tyag) as [->| ->]; [done|].
    apply (match_steps_malformed colors tyag (rev sequence) _ step s); try done.
    + by apply Forall_rev.
    + apply list_elem_of_In. apply -> in_rev. by apply list_elem_of_In.
Qed.

(** A buffer of two greens against a step asking for three, and against
    an unresolved count. *)
Lemma match_sequence_false_not_raise_witness :
  match_sequence ["green"; "green"]
    [mkStep (Some ["green_yellow"]) (Some "minimum") (Val (CInt 3))] true = Ok false /\
  match_sequence ["green"; "green"]
    [mkStep (Some ["green_yellow"]) (Some "minimum") (Val (CStr "$X+1+"))] true = Ok false.
Proof.
  split.
  - apply (proj1 (proj2 match_sequence_false_not_raise)).
    + repeat constructor. discriminate.
    + reflexivity.
  - apply (proj1 (proj2 (proj2 (proj2 match_sequence_false_not_raise)))
             _ _ _ (mkStep (Some ["green_yellow"]) (Some "minimum") (Val (CStr "$X+1+")))
             "$X+1+").
    + repeat constructor. discriminate.
    + by left.
    + reflexivity.
    + reflexivity.
Defined.

End Matcher.

(** ** Decimal text: [str], [eval] and the count expressions *)

Section CountExpr.

Import PatternEngine Props.

Lemma append_String c s r : String c s +:+ r = String c (s +:+ r).
Proof. reflexivity. Qed.

Lemma append_empty r : EmptyString +:+ r = r.
Proof. reflexivity. Qed.

Lemma all_chars_app p s1 s2 :
  Py.all_chars p (s1 +:+ s2) = Py.all_chars p s1 && Py.all_chars p s2.
Proof.
  induction s1 as [|c s1 IH]; simpl; [done|]. by rewrite IH, andb_assoc.
Qed.

Lemma all_chars_impl (p q : ascii -> bool) s :
  (forall c, p c = true -> q c = true) ->
  Py.all_chars p s = true -> Py.all_chars q s = true.
Proof.
  intros Hpq. induction s as [|c s IH]; simpl; [done|].
  rewrite !andb_true_iff. intros [Hc Hs]. auto.
Qed.

Lemma sum_char_allowed c : sum_char c = true -> allowed_expr_char c = true.
Proof. destruct c as [[] [] [] [] [] [] [] []]; by vm_compute. Qed.

Lemma sum_char_not_space c : sum_char c = true -> negb (Py.isspace_char c) = true.
Proof. destruct c as [[] [] [] [] [] [] [] []]; by vm_compute. Qed.

Lemma sum_char_not_dollar c : sum_char c = true -> c <> "$"%char.
Proof. destruct c as [[] [] [] [] [] [] [] []]; by vm_compute. Qed.

Lemma decimal_sum_char c : Py.isdecimal_char c = true -> sum_char c = true.
Proof. unfold sum_char. by intros ->. Qed.

Lemma uint_chars d : Py.all_chars Py.isdecimal_char (NilEmpty.string_of_uint d) = true.
Proof. induction d; simpl; done. Qed.

Lemma to_uint_head p :
  Pos.to_uint p <> Decimal.Nil /\ head_is_zero (Pos.to_uint p) = false.
Proof.
  split; [apply DecimalPos.Unsigned.to_uint_nonnil|].
  assert (Hfix : Decimal.unorm (Pos.to_uint p) = Pos.to_uint p).
  { rewrite <- DecimalPos.Unsigned.to_of, DecimalPos.Unsigned.of_to. done. }
  destruct (Pos.to_uint p) as [|l| | | | | | | | |] eqn:Hu; try done.
  exfalso. unfold Decimal.unorm in Hfix.
  destruct (Decimal.nzhead (Decimal.D0 l)) as [|u| | | | | | | | |] eqn:Hnz; try done.
  - injection Hfix as <-. by apply (DecimalPos.Unsigned.to_uint_nonzero p).
  - by apply (DecimalFacts.nzhead_nonzero (Decimal.D0 l) u).
Qed.

Lemma str_pos p : Py.str (Z.pos p) = NilEmpty.string_of_uint (Pos.to_uint p).
Proof.
  unfold Py.str. simpl. destruct (to_uint_head p) as [Hnil _].
  by destruct (Pos.to_uint p).
Qed.

Lemma str_neg p :
  Py.str (Z.neg p) = String "-" (NilEmpty.string_of_uint (Pos.to_uint p)).
Proof.
  unfold Py.str. simpl. destruct (to_uint_head p) as [Hnil _].
  by destruct (Pos.to_uint p).
Qed.

Lemma str_chars x : Py.all_chars sum_char (Py.str x) = true.
Proof.
  destruct x as [|p|p]; [done| |].
  - rewrite str_pos. apply (all_chars_impl Py.isdecimal_char); [|apply uint_chars].
    apply decimal_sum_char.
  - rewrite str_neg. simpl.
    apply (all_chars_impl Py.isdecimal_char); [|apply uint_chars].
    apply decimal_sum_char.
Qed.

Lemma digits_val_pos d acc : digits_val d (Z.pos acc) = Z.pos (Pos.of_uint_acc d acc).
Proof.
  revert acc. induction d; intros acc; simpl; try done;
    rewrite <- IHd; f_equal; lia.
Qed.

Lemma digits_val_0 d : digits_val d 0 = Z.of_N (Pos.of_uint d).
Proof.
  induction d; simpl; try done; apply (digits_val_pos d).
Qed.

Lemma to_uint_val p : digits_val (Pos.to_uint p) 0 = Z.pos p.
Proof. by rewrite digits_val_0, DecimalPos.Unsigned.of_to. Qed.

Lemma tokenize_digit c s cur d :
  Py.digit_val c = Some d ->
  Py.tokenize (String c s) cur = Py.tokenize s (Py.extend cur d).
Proof. intros Hd. cbn [Py.tokenize]. by rewrite Hd. Qed.

Lemma tokenize_digits d rest l v :
  Py.tokenize (NilEmpty.string_of_uint d +:+ rest) (Some (l, v)) =
  Py.tokenize rest (Some (l, digits_val d v)).
Proof.
  revert v. induction d; intros v;
    cbn [NilEmpty.string_of_uint digits_val]; [done|..];
    rewrite append_String; (erewrite tokenize_digit by reflexivity); apply IHd.
Qed.

Lemma tokenize_digits_start d rest :
  d <> Decimal.Nil ->
  Py.tokenize (NilEmpty.string_of_uint d +:+ rest) None =
  Py.tokenize rest (Some (head_is_zero d, digits_val d 0)).
Proof.
  intros Hd. destruct d; [done|..];
    cbn [NilEmpty.string_of_uint digits_val head_is_zero];
    rewrite append_String; (erewrite tokenize_digit by reflexivity);
    apply tokenize_digits.
Qed.

Lemma tokenize_resume rest cur :
  starts_with_digit rest = false ->
  Py.tokenize rest cur = ts ← Py.tokenize rest None; Py.flush cur ts.
Proof.
  destruct rest as [|c r]; simpl; [done|]. intros Hc.
  unfold Py.digit_val. rewrite Hc.
  destruct (Ascii.eqb c "+"); [by destruct (Py.tokenize r None)|].
  destruct (Ascii.eqb c "-"); [by destruct (Py.tokenize r None)|].
  destruct (Ascii.eqb c " "); [by destruct (Py.tokenize r None)|done].
Qed.

Lemma tokenize_str x rest :
  starts_with_digit rest = false ->
  Py.tokenize (Py.str x +:+ rest) None =
  ts ← Py.tokenize rest None; Some (int_tokens x ++ ts).
Proof.
  intros Hrest. destruct x as [|p|p].
  - change (Py.str 0 +:+ rest) with (String "0" rest).
    erewrite tokenize_digit by reflexivity. cbn [Py.extend].
    rewrite (tokenize_resume rest _ Hrest). by destruct (Py.tokenize rest None).
  - rewrite str_pos. destruct (to_uint_head p) as [Hnil Hhd].
    rewrite tokenize_digits_start, Hhd, to_uint_val by done.
    rewrite (tokenize_resume rest _ Hrest). by destruct (Py.tokenize rest None).
  - rewrite str_neg. destruct (to_uint_head p) as [Hnil Hhd].
    rewrite append_String. cbn [Py.tokenize].
    change (Py.digit_val "-") with (@None Z). cbn [Ascii.eqb Bool.eqb].
    rewrite tokenize_digits_start, Hhd, to_uint_val by done.
    rewrite (tokenize_resume rest _ Hrest). by destruct (Py.tokenize rest None).
Qed.

Lemma eval_int_tokens x ts acc sign :
  sign = 1 \/ sign = -1 ->
  Py.eval_tokens (int_tokens x ++ ts) acc sign true =
  Py.eval_tokens ts (acc + sign * x) 1 false.
Proof.
  intros Hs. unfold int_tokens. destruct (x <? 0); simpl.
  - destruct Hs as [-> | ->]; simpl; f_equal; lia.
  - done.
Qed.

End CountExpr.

Section Expansion.

Import PatternEngine Props.

Lemma append_empty_r s : s +:+ EmptyString = s.
Proof. induction s as [|c s IH]; [done|]. by rewrite append_String, IH. Qed.

Lemma lstrip_no_space s :
  Py.all_chars (fun c => negb (Py.isspace_char c)) s = true ->
  Py.lstrip_by Py.isspace_char s = s.
Proof.
  destruct s as [|c s]; simpl; [done|].
  rewrite andb_true_iff, negb_true_iff. by intros [-> _].
Qed.

Lemma rstrip_no_space s :
  Py.all_chars (fun c => negb (Py.isspace_char c)) s = true ->
  Py.rstrip_by Py.isspace_char s = s.
Proof.
  induction s as [|c s IH]; simpl; [done|].
  rewrite andb_true_iff, negb_true_iff. intros [-> Hs]. simpl. by rewrite IH.
Qed.

Lemma strip_sum s : Py.all_chars sum_char s = true -> Py.strip s = s.
Proof.
  intros Hs. apply (all_chars_impl _ _ _ sum_char_not_space) in Hs.
  unfold Py.strip, Py.strip_by. by rewrite lstrip_no_space, rstrip_no_space.
Qed.

Lemma replace_other new c r :
  c <> "$"%char ->
  Py.replace_dollar_x new (String c r) = String c (Py.replace_dollar_x new r).
Proof.
  intros Hc. destruct c as [[] [] [] [] [] [] [] []]; try reflexivity. done.
Qed.

Lemma replace_sum new s :
  Py.all_chars sum_char s = true -> Py.replace_dollar_x new s = s.
Proof.
  induction s as [|c s IH]; [done|]. cbn [Py.all_chars].
  rewrite andb_true_iff. intros [Hc Hs].
  rewrite replace_other by by apply sum_char_not_dollar. by rewrite IH.
Qed.

Lemma contains_dollar_x tail : Py.contains "$X" (String "$" (String "X" tail)) = true.
Proof. by destruct tail. Qed.

(** A count ["$X" + tail], with [tail] made of digits and signs, is the
    value of the text [str(x) + tail] when that text is a sum. *)
Lemma replace_x_sum tail x :
  Py.all_chars sum_char tail = true ->
  _replace_x_expr (Some (CStr ("$X" +:+ tail))) x =
  match Py.eval (Py.str x +:+ tail) with
  | Some z => Some (CInt z)
  | None => Some (CStr ("$X" +:+ tail))
  end.
Proof.
  intros Htail.
  assert (Hall : Py.all_chars sum_char (Py.str x +:+ tail) = true).
  { by rewrite all_chars_app, str_chars, Htail. }
  unfold _replace_x_expr.
  change ("$X" +:+ tail) with (String "$" (String "X" tail)).
  rewrite contains_dollar_x. cbn [negb Py.replace_dollar_x].
  rewrite (replace_sum _ tail Htail), (strip_sum _ Hall).
  by rewrite (all_chars_impl _ _ _ sum_char_allowed Hall).
Qed.

Lemma eval_str x : Py.eval (Py.str x) = Some x.
Proof.
  unfold Py.eval. rewrite <- (append_empty_r (Py.str x)), tokenize_str by done.
  simpl. rewrite eval_int_tokens by auto. simpl. f_equal. lia.
Qed.

Lemma tokenize_str_end x : Py.tokenize (Py.str x) None = Some (int_tokens x).
Proof.
  rewrite <- (append_empty_r (Py.str x)), tokenize_str by done.
  simpl. by rewrite app_nil_r.
Qed.

Lemma eval_str_plus x n : Py.eval (Py.str x +:+ "+" +:+ Py.str n) = Some (x + n).
Proof.
  unfold Py.eval. rewrite tokenize_str by done.
  change ("+" +:+ Py.str n) with (String "+" (Py.str n)). cbn [Py.tokenize].
  change (Py.digit_val "+") with (@None Z). cbn [Ascii.eqb Bool.eqb].
  rewrite tokenize_str_end. simpl.
  rewrite eval_int_tokens by auto. cbn [Py.eval_tokens].
  rewrite <- (app_nil_r (int_tokens n)), eval_int_tokens by auto.
  simpl. f_equal. lia.
Qed.

Lemma eval_str_minus x n : Py.eval (Py.str x +:+ "-" +:+ Py.str n) = Some (x - n).
Proof.
  unfold Py.eval. rewrite tokenize_str by done.
  change ("-" +:+ Py.str n) with (String "-" (Py.str n)). cbn [Py.tokenize].
  change (Py.digit_val "-") with (@None Z). cbn [Ascii.eqb Bool.eqb].
  rewrite tokenize_str_end. simpl.
  rewrite eval_int_tokens by auto. cbn [Py.eval_tokens].
  rewrite <- (app_nil_r (int_tokens n)), eval_int_tokens by auto.
  simpl. f_equal. lia.
Qed.

Lemma eval_str_plus_1_1 x : Py.eval (Py.str x +:+ "+1+1") = Some (x + 2).
Proof.
  unfold Py.eval. rewrite tokenize_str by done.
  change (Py.tokenize "+1+1" None)
    with (Some [Py.TPlus; Py.TNum 1; Py.TPlus; Py.TNum 1]).
  simpl. rewrite eval_int_tokens by auto. simpl. f_equal. lia.
Qed.

Lemma int_tokens_inj x y : int_tokens x = int_tokens y -> x = y.
Proof.
  unfold int_tokens.
  destruct (x <? 0) eqn:Hx, (y <? 0) eqn:Hy; intros [=]; lia.
Qed.

Lemma str_inj x y : Py.str x = Py.str y -> x = y.
Proof.
  intros Heq. apply int_tokens_inj.
  assert (H : Py.tokenize (Py.str x) None = Py.tokenize (Py.str y) None)
    by by rewrite Heq.
  rewrite !tokenize_str_end in H. by injection H.
Qed.

Lemma append_inj_l s a b : s +:+ a = s +:+ b -> a = b.
Proof.
  induction s as [|c s IH]; [done|]. rewrite !append_String. intros [=]. auto.
Qed.

Lemma append_char_inj c s1 s2 :
  s1 +:+ String c EmptyString = s2 +:+ String c EmptyString -> s1 = s2.
Proof.
  revert s2. induction s1 as [|a s1 IH]; intros [|b s2]; try done.
  - rewrite append_String, append_empty. intros [= _ H]. by destruct s2.
  - rewrite append_String, append_empty. intros [= _ H]. by destruct s1.
  - rewrite !append_String. intros [= -> H]. f_equal. by apply IH.
Qed.

Lemma sub_name_inj name x y :
  name +:+ " (X=" +:+ Py.str x +:+ ")" = name +:+ " (X=" +:+ Py.str y +:+ ")" -> x = y.
Proof.
  intros H. apply append_inj_l, append_inj_l in H.
  by apply str_inj, (append_char_inj ")").
Qed.

End Expansion.

Section ExpansionSpec.

Import PatternEngine Props.

Lemma resolve_block_steps x f l :
  f <> Null ->
  steps_of f = Ok l ->
  exists f', resolve_block x f = Ok f' /\ steps_of f' = Ok (resolve_step x <$> l).
Proof.
  intros Hf. destruct f as [| |[[steps|]]]; [|done| |]; cbn; intros [= <-]; eauto.
Qed.

Lemma steps_of_not_null f : f <> Null -> exists l, steps_of f = Ok l.
Proof. destruct f as [| |b]; [|done|]; cbn; eauto. Qed.

Lemma expand_one_bound rule name x :
  r_name rule = Some name ->
  r_trigger rule <> Null ->
  r_miss rule <> Null ->
  exists sub, expand_one rule x = Ok sub /\ bound_sub_rule rule name x sub.
Proof.
  intros Hname Ht Hm. unfold expand_one. rewrite Hname.
  destruct (steps_of_not_null _ Ht) as [lt Hlt].
  destruct (steps_of_not_null _ Hm) as [lm Hlm].
  destruct (resolve_block_steps x _ _ Ht Hlt) as (t' & -> & Ht').
  destruct (resolve_block_steps x _ _ Hm Hlm) as (m' & -> & Hm').
  cbn [res_bind]. eexists. split; [done|].
  repeat split; cbn; intros l Hl; congruence.
Qed.

Lemma expand_values_bound rule name values :
  r_name rule = Some name ->
  r_trigger rule <> Null ->
  r_miss rule <> Null ->
  exists subs,
    res_map_list (expand_one rule) values = Ok subs /\
    Forall2 (bound_sub_rule rule name) values subs.
Proof.
  intros Hname Ht Hm. induction values as [|x values (subs & Hsubs & Hall)].
  - exists []. by split.
  - destruct (expand_one_bound rule name x Hname Ht Hm) as (sub & Hsub & Hb).
    exists (sub :: subs). cbn [res_map_list]. rewrite Hsub, Hsubs.
    split; [done|]. by constructor.
Qed.

Lemma bound_names_nodup rule name values subs :
  Forall2 (bound_sub_rule rule name) values subs ->
  NoDup values -> NoDup (r_name <$> subs).
Proof.
  intros Hall.
  assert (Hnames : r_name <$> subs =
                   (fun x => Some (name +:+ " (X=" +:+ Py.str x +:+ ")")) <$> values).
  { induction Hall as [|x sub values subs (_ & Hn & _) _ IH]; [done|].
    rewrite !fmap_cons. by rewrite Hn, IH. }
  rewrite Hnames. intros Hnd. apply NoDup_fmap_2; [|done].
  intros x y [= H]. by apply (sub_name_inj name).
Qed.

(** C3, as the specification words it, fails: a count such as ["$X+1+1"]
    is not left as it is, it is evaluated. *)
Lemma longer_sum_is_evaluated :
  _replace_x_expr (Some (CStr "$X+1+1")) 3 = Some (CInt 5) /\
  _replace_x_expr (Some (CStr "$X+1+1")) 3 <> Some (CStr "$X+1+1").
Proof. split; [reflexivity|discriminate]. Qed.

(** C3 (amended): a dynamic rule expands to one sub-rule per dynamic
    value, in order, each bound to its value and named after it, distinct
    values giving distinct names; the values 3, 4, 5 with trigger count
    ["$X"] give three sub-rules with counts 3, 4, 5.  An integer count is
    left as it is; ["$X"] resolves to X, ["$X+n"] and ["$X-n"] with [n] in
    decimal text to X + n and X - n.  Any other string is left as it is
    when it does not contain ["$X"] (so ["$Y"]), when the text obtained
    by substituting X has a character other than digits, signs and
    spaces, or when that text is not a sum of integer literals (so
    ["$X+05"], for the leading zero); otherwise the sum is evaluated, so
    ["$X+1+1"] resolves to X + 2. *)
Theorem expand_dynamic_pattern_counts :
  (forall rule name,
      r_type rule = Some "dynamic" ->
      r_name rule = Some name ->
      r_trigger rule <> Null ->
      r_miss rule <> Null ->
      let values := default [3; 4; 5; 6; 7; 8] (r_dynamic_values rule) in
      exists subs,
        expand_dynamic_pattern rule = Ok subs /\
        Forall2 (bound_sub_rule rule name) values subs /\
        (NoDup values -> NoDup (r_name <$> subs))) /\
  (exists subs,
      expand_dynamic_pattern Examples.dynamic_345 = Ok subs /\
      trigger_counts <$> subs = [[Val (CInt 3)]; [Val (CInt 4)]; [Val (CInt 5)]] /\
      r_name <$> subs =
        [Some "Pattern 6 (X=3)"; Some "Pattern 6 (X=4)"; Some "Pattern 6 (X=5)"]) /\
  (forall n x, _replace_x_expr (Some (CInt n)) x = Some (CInt n)) /\
  (forall x, _replace_x_expr (Some (CStr "$X")) x = Some (CInt x)) /\
  (forall x n, _replace_x_expr (Some (CStr ("$X+" +:+ Py.str n))) x = Some (CInt (x + n))) /\
  (forall x n, _replace_x_expr (Some (CStr ("$X-" +:+ Py.str n))) x = Some (CInt (x - n))) /\
  (forall s x, Py.contains "$X" s = false ->
               _replace_x_expr (Some (CStr s)) x = Some (CStr s)) /\
  (forall x, _replace_x_expr (Some (CStr "$Y")) x = Some (CStr "$Y")) /\
  (forall s x,
      Py.all_chars allowed_expr_char
        (Py.strip (Py.replace_dollar_x (Py.str x) s)) = false ->
      _replace_x_expr (Some (CStr s)) x = Some (CStr s)) /\
  (forall s x,
      Py.eval (Py.strip (Py.replace_dollar_x (Py.str x) s)) = None ->
      _replace_x_expr (Some (CStr s)) x = Some (CStr s)) /\
  (forall x, _replace_x_expr (Some (CStr "$X+05")) x = Some (CStr "$X+05")) /\
  (forall x, _replace_x_expr (Some (CStr "$X+1+1")) x = Some (CInt (x + 2))).
Proof.
  repeat apply conj.
  - intros rule name Htype Hname Ht Hm values.
    destruct (expand_values_bound rule name values Hname Ht Hm) as (subs & Hsubs & Hall).
    exists subs. unfold expand_dynamic_pattern. rewrite Htype.
    rewrite bool_decide_eq_true_2 by done. cbn [negb].
    split; [done|]. split; [done|]. by apply (bound_names_nodup rule name).
  - eexists. split; [reflexivity|]. split; reflexivity.
  - done.
  - intros x. change "$X" with ("$X" +:+ ""). rewrite replace_x_sum by done.
    by rewrite append_empty_r, eval_str.
  - intros x n. change ("$X+" +:+ Py.str n) with ("$X" +:+ "+" +:+ Py.str n).
    rewrite replace_x_sum; [by rewrite eval_str_plus|].
    apply (str_chars n).
  - intros x n. change ("$X-" +:+ Py.str n) with ("$X" +:+ "-" +:+ Py.str n).
    rewrite replace_x_sum; [by rewrite eval_str_minus|].
    apply (str_chars n).
  - intros s x Hs. unfold _replace_x_expr. by rewrite Hs.
  - done.
  - intros s x Hs. unfold _replace_x_expr. rewrite Hs.
    by destruct (negb (Py.contains "$X" s)).
  - intros s x Hs. unfold _replace_x_expr. rewrite Hs.
    destruct (negb (Py.contains "$X" s)); [done|].
    by destruct (Py.all_chars _ _).
  - intros x. change "$X+05" with ("$X" +:+ "+05"). rewrite replace_x_sum by done.
    unfold Py.eval. by rewrite tokenize_str.
  - intros x. change "$X+1+1" with ("$X" +:+ "+1+1"). rewrite replace_x_sum by done.
    by rewrite eval_str_plus_1_1.
Qed.

(** The amended C3 on "Pattern 6" with the values 3, 4, 5. *)
Lemma expand_dynamic_pattern_counts_witness :
  exists subs,
    expand_dynamic_pattern Examples.dynamic_345 = Ok subs /\
    Forall2 (bound_sub_rule Examples.dynamic_345 "Pattern 6") [3; 4; 5] subs /\
    (NoDup [3; 4; 5] -> NoDup (r_name <$> subs)).
Proof.
  apply (proj1 expand_dynamic_pattern_counts Examples.dynamic_345 "Pattern 6");
    [reflexivity|reflexivity|discriminate|discriminate].
Defined.

End ExpansionSpec.

(** ** The streak tracker *)

Section Streaks.

Import PatternEngine Props.

Lemma apply_check_ids pid check s ev :
  ev ∈ (apply_check pid check s).2 -> ev_pattern_id ev = pid.
Proof.
  unfold apply_check. destruct (c_trigger check); [|destruct (c_miss check)]; cbn.
  - by intros ->%list_elem_of_singleton.
  - by intros ->%list_elem_of_singleton.
  - by intros ?%not_elem_of_nil.
Qed.

Lemma events_of_app key l1 l2 :
  events_of key (l1 ++ l2) = events_of key l1 ++ events_of key l2.
Proof. apply filter_app. Qed.

Lemma events_of_own pid check s :
  events_of pid (apply_check pid check s).2 = (apply_check pid check s).2.
Proof.
  unfold apply_check, events_of.
  destruct (c_trigger check); [|destruct (c_miss check)]; cbn; try done;
    by rewrite decide_True.
Qed.

Lemma events_of_other key pid check s :
  key <> pid -> events_of key (apply_check pid check s).2 = [].
Proof.
  intros Hne. unfold apply_check, events_of.
  destruct (c_trigger check); [|destruct (c_miss check)]; cbn; try done;
    by rewrite decide_False.
Qed.

Lemma active_keys_elem pid rule patterns :
  (pid, rule) ∈ patterns -> default true (r_active rule) = true ->
  pid ∈ active_keys patterns.
Proof.
  intros Hin Hact. induction patterns as [|[p r] rest IH]; [by apply not_elem_of_nil in Hin|].
  apply elem_of_cons in Hin as [[= <- <-]|Hin]; cbn.
  - rewrite Hact. by left.
  - destruct (default true (r_active r)); [right|]; auto.
Qed.

(** A key that no active rule carries is left alone by a round, even by
    one that raises. *)
Lemma process_patterns_other colors patterns stats results stats' r key :
  key ∉ active_keys patterns ->
  process_patterns colors patterns stats results = (stats', r) ->
  stats' !! key = stats !! key /\
  forall results', r = Ok results' -> events_of key results' = events_of key results.
Proof.
  revert stats results.
  induction patterns as [|[p rule] rest IH]; intros stats results Hkey; cbn.
  - intros [= <- <-]. split; [done|]. by intros ? [= <-].
  - cbn in Hkey. destruct (default true (r_active rule)); cbn; [|by apply IH].
    apply not_elem_of_cons in Hkey as [Hne Hkey].
    destruct (check_pattern colors rule) as [check|e].
    + destruct (apply_check p check (default zero_stat (stats !! p))) as [s' evs] eqn:Ha.
      intros Hrest. destruct (IH _ _ Hkey Hrest) as [Hs Hev].
      rewrite Hs, lookup_insert_ne by done. split; [done|].
      intros results' ->. rewrite (Hev _ eq_refl), events_of_app.
      replace evs with (apply_check p check (default zero_stat (stats !! p))).2
        by by rewrite Ha.
      by rewrite events_of_other, app_nil_r.
    + intros [= <- <-]. split; [done|]. by intros ? [=].
Qed.

(** What a round that returns does to the key of an active rule, when no
    other active rule carries that key. *)
Lemma process_patterns_key colors patterns stats results stats' results' pid rule :
  NoDup (active_keys patterns) ->
  (pid, rule) ∈ patterns ->
  default true (r_active rule) = true ->
  process_patterns colors patterns stats results = (stats', Ok results') ->
  exists check,
    check_pattern colors rule = Ok check /\
    stats' !! pid = Some (apply_check pid check (state_at stats pid)).1 /\
    events_of pid results' =
      events_of pid results ++ (apply_check pid check (state_at stats pid)).2.
Proof.
  revert stats results.
  induction patterns as [|[p r] rest IH]; intros stats results Hnd Hin Hact;
    [by apply not_elem_of_nil in Hin|].
  cbn in Hnd |- *.
  destruct (default true (r_active r)) eqn:Hr; cbn.
  - apply NoDup_cons in Hnd as [Hp Hnd].
    destruct (check_pattern colors r) as [check|e] eqn:Hcheck; [|done].
    destruct (apply_check p check (default zero_stat (stats !! p))) as [s' evs] eqn:Ha.
    intros Hrest. apply elem_of_cons in Hin as [[= -> ->]|Hin].
    + destruct (process_patterns_other _ _ _ _ _ _ p Hp Hrest) as [Hs Hev].
      exists check. split; [done|]. unfold state_at. rewrite Ha. cbn.
      rewrite Hs, lookup_insert_eq. split; [done|].
      rewrite (Hev _ eq_refl), events_of_app. f_equal.
      replace evs with (apply_check p check (default zero_stat (stats !! p))).2
        by by rewrite Ha.
      apply events_of_own.
    + assert (Hne : pid <> p).
      { intros ->. apply Hp. by apply (active_keys_elem _ rule). }
      destruct (IH _ _ Hnd Hin Hact Hrest) as (check' & Hc & Hs & Hev).
      exists check'. split; [done|]. unfold state_at in *.
      rewrite lookup_insert_ne in Hs, Hev by done. split; [done|].
      rewrite Hev, events_of_app.
      replace evs with (apply_check p check (default zero_stat (stats !! p))).2
        by by rewrite Ha.
      by rewrite events_of_other, app_nil_r.
  - apply elem_of_cons in Hin as [[= -> ->]|Hin]; [congruence|].
    by apply IH.
Qed.

Lemma check_pattern_flags colors rule check :
  check_pattern colors rule = Ok check ->
  exists trigger_seq miss_seq,
    steps_of (r_trigger rule) = Ok trigger_seq /\
    steps_of (r_miss rule) = Ok miss_seq /\
    let tyag := truthy (get_default (r_treat_yellow_as_green rule) true) in
    match_sequence colors trigger_seq tyag = Ok (c_trigger check) /\
    match_sequence colors miss_seq tyag = Ok (c_miss check).
Proof.
  unfold check_pattern.
  destruct (steps_of (r_trigger rule)) as [ts|]; [|done].
  destruct (steps_of (r_miss rule)) as [ms|]; [|done]. cbn [res_bind].
  destruct (match_sequence colors ts _) as [t|] eqn:Ht; [|done].
  destruct (match_sequence colors ms _) as [m|] eqn:Hm; [|done]. cbn [res_bind].
  intros [= <-]. exists ts, ms. by repeat split.
Qed.

End Streaks.

Section StreakTheorems.

Import PatternEngine Main Props.

Ltac case_gtb :=
  match goal with
  | |- context [Z.gtb ?a ?b] => rewrite (Z.gtb_ltb a b); destruct (Z.ltb_spec b a)
  end.

Lemma on_trigger_iter n :
  let s := Nat.iter n on_trigger zero_stat in
  trigger_streak s = Z.of_nat n /\ longest_trigger_streak s = Z.of_nat n /\
  miss_streak s = 0.
Proof.
  induction n as [|n IH]; [done|]. cbn zeta in *.
  rewrite Nat.iter_succ. destruct IH as (Ht & Hl & Hm).
  unfold on_trigger at 1 3 5. cbn [trigger_streak longest_trigger_streak miss_streak].
  rewrite Ht, Hl.
  replace (Z.of_nat n + 1 >? Z.of_nat n) with true by lia.
  repeat split; lia.
Qed.

Lemma entries_of_cons_own key rule rest :
  default true (r_active rule) = true ->
  entries_of key ((key, rule) :: rest) = rule :: entries_of key rest.
Proof. intros Hact. unfold entries_of. by rewrite filter_cons_True. Qed.

Lemma entries_of_cons_other key p rule rest :
  p <> key \/ default true (r_active rule) = false ->
  entries_of key ((p, rule) :: rest) = entries_of key rest.
Proof.
  intros H. unfold entries_of. rewrite filter_cons_False; [done|].
  cbn. intros [-> Hact]. destruct H as [?|H]; [done|]. by rewrite H in Hact.
Qed.

(** What a round that returns does to a key: the transitions of the
    entries of the key, in order. *)
Lemma process_patterns_entries colors patterns stats results stats' results' key :
  process_patterns colors patterns stats results = (stats', Ok results') ->
  exists checks,
    Forall2 (fun rule check => check_pattern colors rule = Ok check)
      (entries_of key patterns) checks /\
    state_at stats' key = (apply_checks key checks (state_at stats key)).1 /\
    events_of key results' =
      events_of key results ++ (apply_checks key checks (state_at stats key)).2.
Proof.
  revert stats results.
  induction patterns as [|[p rule] rest IH]; intros stats results; cbn [process_patterns].
  - intros [= <- <-]. exists []. split; [constructor|]. cbn. by rewrite app_nil_r.
  - destruct (default true (r_active rule)) eqn:Hact; cbn [negb].
    2:{ rewrite entries_of_cons_other by by right. apply IH. }
    destruct (check_pattern colors rule) as [check|e] eqn:Hcheck; [|done].
    destruct (apply_check p check (default zero_stat (stats !! p))) as [s' evs] eqn:Ha.
    intros Hrest. destruct (IH _ _ Hrest) as (checks & Hall & Hs & Hev).
    destruct (decide (p = key)) as [->|Hne].
    + rewrite entries_of_cons_own by done.
      exists (check :: checks). split; [by constructor|].
      unfold state_at in *. rewrite lookup_insert_eq in Hs, Hev.
      cbn [from_option id] in Hs, Hev.
      cbn [apply_checks fst snd]. rewrite Ha. cbn [fst snd].
      split; [done|]. rewrite Hev, events_of_app, <- app_assoc. do 2 f_equal.
      replace evs with (apply_check key check (default zero_stat (stats !! key))).2
        by by rewrite Ha.
      apply events_of_own.
    + rewrite entries_of_cons_other by by left.
      exists checks. split; [done|].
      unfold state_at in Hs, Hev |- *. rewrite lookup_insert_ne in Hs, Hev by done.
      split; [done|]. rewrite Hev, events_of_app.
      replace evs with (apply_check p check (default zero_stat (stats !! p))).2
        by by rewrite Ha.
      by rewrite events_of_other, app_nil_r.
Qed.

Lemma apply_checks_all_trigger key checks s :
  Forall (fun check => c_trigger check = true) checks ->
  (apply_checks key checks s).1 = Nat.iter (length checks) on_trigger s /\
  length (apply_checks key checks s).2 = length checks.
Proof.
  intros Hall. revert s. induction Hall as [|check rest Hc Hall IH]; intros s; [done|].
  cbn [apply_checks fst snd length]. unfold apply_check at 1 2 3. rewrite Hc.
  cbn [fst snd]. destruct (IH (on_trigger s)) as [-> Hlen].
  rewrite length_app, Hlen. split; [|done].
  symmetry. apply Nat.iter_succ_r.
Qed.

(** C4: in a round that returns, the state of a key and its events are
    those of the transitions of the active entries that carry the key,
    taken in order; each transition is, when the trigger list matches, the
    trigger streak plus one, miss streak zero, one more trigger in total
    and the longest trigger streak raised to the new streak if smaller,
    with one trigger event; when only the miss list matches, the same on
    the miss side; when neither matches, the state is unchanged and there
    is no event.  So a key that one active entry carries takes the
    transition once, and a key whose entries all trigger takes the trigger
    transition once per entry.  From the zero state, [n] trigger matches in
    a row give the streak [n], longest [n], miss streak zero; five of them
    followed by a miss match leave the trigger streak at zero and the miss
    streak at one. *)
Theorem process_round_transitions :
  (forall patterns colors stats stats' results pid,
      process_round patterns colors stats = (stats', Ok results) ->
      exists checks,
        Forall2 (fun rule check => check_pattern colors rule = Ok check)
          (entries_of pid patterns) checks /\
        state_at stats' pid = (apply_checks pid checks (state_at stats pid)).1 /\
        events_of pid results = (apply_checks pid checks (state_at stats pid)).2) /\
  (forall patterns colors stats stats' results pid rule,
      entries_of pid patterns = [rule] ->
      process_round patterns colors stats = (stats', Ok results) ->
      exists check,
        check_pattern colors rule = Ok check /\
        let s := state_at stats pid in
        let s' := state_at stats' pid in
        (c_trigger check = true ->
         trigger_streak s' = trigger_streak s + 1 /\
         miss_streak s' = 0 /\
         total_triggers s' = total_triggers s + 1 /\
         longest_trigger_streak s' =
           Z.max (longest_trigger_streak s) (trigger_streak s') /\
         events_of pid results = [mkEvent pid "trigger" (trigger_streak s') s']) /\
        (c_trigger check = false -> c_miss check = true ->
         miss_streak s' = miss_streak s + 1 /\
         trigger_streak s' = 0 /\
         total_misses s' = total_misses s + 1 /\
         longest_miss_streak s' =
           Z.max (longest_miss_streak s) (miss_streak s') /\
         events_of pid results = [mkEvent pid "miss" (miss_streak s') s']) /\
        (c_trigger check = false -> c_miss check = false ->
         s' = s /\ events_of pid results = [])) /\
  (forall pid checks s,
      Forall (fun check => c_trigger check = true) checks ->
      (apply_checks pid checks s).1 = Nat.iter (length checks) on_trigger s /\
      length (apply_checks pid checks s).2 = length checks) /\
  (forall n,
      let s := Nat.iter n on_trigger zero_stat in
      trigger_streak s = Z.of_nat n /\ longest_trigger_streak s = Z.of_nat n /\
      miss_streak s = 0) /\
  (let st5 := feed_all (Examples.fresh "1" Examples.green_or_red) Examples.greens5 in
   let st6 := feed st5 ("red", "R6") in
   state_at (pattern_stats_cache st5) "1" = mkStat 5 0 5 0 5 0 /\
   state_at (pattern_stats_cache st6) "1" = mkStat 0 1 5 1 5 1) /\
  (forall pid check s,
      (c_trigger check = true ->
       apply_check pid check s =
         (on_trigger s, [mkEvent pid "trigger" (trigger_streak s + 1) (on_trigger s)])) /\
      (c_trigger check = false -> c_miss check = true ->
       apply_check pid check s =
         (on_miss s, [mkEvent pid "miss" (miss_streak s + 1) (on_miss s)])) /\
      (c_trigger check = false -> c_miss check = false ->
       apply_check pid check s = (s, [])) /\
      on_trigger s =
        mkStat (trigger_streak s + 1) 0 (total_triggers s + 1) (total_misses s)
          (Z.max (longest_trigger_streak s) (trigger_streak s + 1))
          (longest_miss_streak s) /\
      on_miss s =
        mkStat 0 (miss_streak s + 1) (total_triggers s) (total_misses s + 1)
          (longest_trigger_streak s)
          (Z.max (longest_miss_streak s) (miss_streak s + 1))).
Proof.
  split; [|split; [|split; [apply apply_checks_all_trigger|
    split; [apply on_trigger_iter|split; [by vm_compute|]]]]].
  3:{ intros pid check s. unfold apply_check. repeat split.
      - by intros ->.
      - by intros -> ->.
      - by intros -> ->.
      - unfold on_trigger. f_equal. case_gtb; lia.
      - unfold on_miss. f_equal. case_gtb; lia. }
  - intros patterns colors stats stats' results pid Hround.
    destruct (process_patterns_entries _ _ _ _ _ _ pid Hround) as (checks & Hall & Hs & Hev).
    exists checks. by repeat split.
  - intros patterns colors stats stats' results pid rule Hone Hround.
    destruct (process_patterns_entries _ _ _ _ _ _ pid Hround) as (checks & Hall & Hs & Hev).
    rewrite Hone in Hall.
    apply Forall2_cons_inv_l in Hall as (check & rest & Hcheck & Hrest & ->).
    apply Forall2_nil_inv_l in Hrest as ->.
    exists check. split; [done|]. cbn zeta.
    cbn [apply_checks fst snd] in Hs, Hev. rewrite app_nil_r in Hev. cbn in Hev.
    rewrite Hs, Hev. clear Hs Hev. unfold apply_check.
    split; [|split].
    + intros ->. cbn. repeat split; try done. case_gtb; lia.
    + intros -> ->. cbn. repeat split; try done. case_gtb; lia.
    + by intros -> ->.
Qed.

(** C4 on the rule "green or red" after one green. *)
Lemma process_round_transitions_witness :
  exists check,
    check_pattern ["green"] Examples.green_or_red = Ok check /\
    let s := state_at ∅ "1" in
    let s' := state_at (process_round [("1", Examples.green_or_red)] ["green"] ∅).1 "1" in
    (c_trigger check = true ->
     trigger_streak s' = trigger_streak s + 1 /\
     miss_streak s' = 0 /\
     total_triggers s' = total_triggers s + 1 /\
     longest_trigger_streak s' =
       Z.max (longest_trigger_streak s) (trigger_streak s') /\
     events_of "1" [mkEvent "1" "trigger" 1 (mkStat 1 0 1 0 1 0)] =
       [mkEvent "1" "trigger" (trigger_streak s') s']) /\
    (c_trigger check = false -> c_miss check = true ->
     miss_streak s' = miss_streak s + 1 /\
     trigger_streak s' = 0 /\
     total_misses s' = total_misses s + 1 /\
     longest_miss_streak s' =
       Z.max (longest_miss_streak s) (miss_streak s') /\
     events_of "1" [mkEvent "1" "trigger" 1 (mkStat 1 0 1 0 1 0)] =
       [mkEvent "1" "miss" (miss_streak s') s']) /\
    (c_trigger check = false -> c_miss check = false ->
     s' = s /\ events_of "1" [mkEvent "1" "trigger" 1 (mkStat 1 0 1 0 1 0)] = []).
Proof.
  apply (proj1 (proj2 process_round_transitions)
           [("1", Examples.green_or_red)] ["green"] ∅
           (process_round [("1", Examples.green_or_red)] ["green"] ∅).1
           [mkEvent "1" "trigger" 1 (mkStat 1 0 1 0 1 0)] "1" Examples.green_or_red).
  - reflexivity.
  - by vm_compute.
Defined.

(** A key that two entries carry advances twice in a round.  The rule
    passes the validator with the dynamic value 3 listed twice, the loader
    gives both sub-rules the key ["1:X=3"], and one round in which the
    trigger list matches takes the trigger streak and the total of
    triggers from 0 to 2, with two trigger events. *)
Lemma duplicated_key_counts_twice :
  let rows := [mkPatternRow 1 "p" Examples.dynamic_33 true None] in
  let colors := ["green"; "green"; "green"] in
  _validate_rule_json Examples.dynamic_33 = Ok (true, None) /\
  exists loaded results,
    load_patterns_to_engine rows ∅ = Ok loaded /\
    (l_patterns loaded).*1 = ["1:X=3"; "1:X=3"] /\
    Forall (fun kr => check_pattern colors kr.2 = Ok (mkCheck true false))
      (l_patterns loaded) /\
    let stats := stats_cache (l_store loaded) in
    let round := process_round (l_patterns loaded) colors stats in
    state_at stats "1:X=3" = zero_stat /\
    round.2 = Ok results /\
    state_at round.1 "1:X=3" = mkStat 2 0 2 0 2 0 /\
    trigger_streak (state_at round.1 "1:X=3") <>
      trigger_streak (state_at stats "1:X=3") + 1 /\
    ev_streak <$> events_of "1:X=3" results = [1; 2].
Proof.
  cbv zeta. split; [by vm_compute|].
  eexists _, _. split; [by vm_compute|].
  split; [by vm_compute|]. split; [by repeat constructor|].
  split; [by vm_compute|]. split; [by vm_compute|].
  split; [by vm_compute|]. split; [by vm_compute|]. by vm_compute.
Qed.

(** C10: when the trigger list and the miss list of a rule both match
    in a round, only the trigger is recorded: the rule takes the trigger
    transition and adds a trigger event alone; over the round, for a key
    that no other active rule carries, the trigger streak and the total of
    triggers advance, the miss streak is zero, the total of misses is
    unchanged, and the only event of the key is a trigger event. *)
Theorem trigger_precedes_miss :
  (forall pid check s,
      c_trigger check = true ->
      c_miss check = true ->
      apply_check pid check s =
        (on_trigger s, [mkEvent pid "trigger" (trigger_streak s + 1) (on_trigger s)]) /\
      miss_streak (on_trigger s) = 0 /\
      total_misses (on_trigger s) = total_misses s) /\
  (forall patterns colors stats stats' results pid rule check,
      NoDup (active_keys patterns) ->
      (pid, rule) ∈ patterns ->
      default true (r_active rule) = true ->
      process_round patterns colors stats = (stats', Ok results) ->
      check_pattern colors rule = Ok check ->
      c_trigger check = true ->
      c_miss check = true ->
      let s := state_at stats pid in
      let s' := state_at stats' pid in
      trigger_streak s' = trigger_streak s + 1 /\
      total_triggers s' = total_triggers s + 1 /\
      miss_streak s' = 0 /\
      total_misses s' = total_misses s /\
      longest_miss_streak s' = longest_miss_streak s /\
      events_of pid results = [mkEvent pid "trigger" (trigger_streak s') s']).
Proof.
  split.
  { intros pid check s Ht Hm. unfold apply_check. by rewrite Ht. }
  intros patterns colors stats stats' results pid rule check Hnd Hin Hact Hround
    Hcheck Ht Hm.
  destruct (process_patterns_key _ _ _ _ _ _ _ _ Hnd Hin Hact Hround)
    as (check' & Hcheck' & Hs & Hev).
  assert (check' = check) as -> by congruence. cbn zeta.
  assert (Hs' : state_at stats' pid = (apply_check pid check (state_at stats pid)).1)
    by (unfold state_at at 1; by rewrite Hs).
  cbn in Hev. rewrite Hs', Hev. clear Hs Hs' Hev.
  unfold apply_check. rewrite Ht. by cbn.
Qed.

(** C10 on the rule "green twice" after one green. *)
Lemma trigger_precedes_miss_witness :
  let stats' := (process_round [("1", Examples.green_twice)] ["green"] ∅).1 in
  let s := state_at ∅ "1" in
  let s' := state_at stats' "1" in
  trigger_streak s' = trigger_streak s + 1 /\
  total_triggers s' = total_triggers s + 1 /\
  miss_streak s' = 0 /\
  total_misses s' = total_misses s /\
  longest_miss_streak s' = longest_miss_streak s /\
  events_of "1" [mkEvent "1" "trigger" 1 (mkStat 1 0 1 0 1 0)] =
    [mkEvent "1" "trigger" (trigger_streak s') s'].
Proof.
  apply (proj2 trigger_precedes_miss [("1", Examples.green_twice)] ["green"] ∅
           (process_round [("1", Examples.green_twice)] ["green"] ∅).1
           [mkEvent "1" "trigger" 1 (mkStat 1 0 1 0 1 0)] "1" Examples.green_twice
           (mkCheck true true)).
  - apply NoDup_singleton.
  - by left.
  - reflexivity.
  - by vm_compute.
  - reflexivity.
  - reflexivity.
  - reflexivity.
Defined.

End StreakTheorems.

Section Invariants.

Import PatternEngine Main Props.

Lemma evolves_refl s : evolves s s.
Proof. unfold evolves. repeat split; [done|lia|lia]. Qed.

Lemma evolves_trans s1 s2 s3 : evolves s1 s2 -> evolves s2 s3 -> evolves s1 s3.
Proof.
  unfold evolves. intros (He1 & Ht1 & Hm1) (He2 & Ht2 & Hm2).
  repeat split; [auto|lia|lia].
Qed.

Lemma apply_check_evolves pid check s : evolves s (apply_check pid check s).1.
Proof.
  unfold apply_check.
  destruct (c_trigger check); [|destruct (c_miss check)]; cbn;
    [..|apply evolves_refl]; unfold evolves, exclusive; cbn.
  - split; [by right|]. split; [|lia].
    rewrite Z.gtb_ltb. destruct (Z.ltb_spec (longest_trigger_streak s)
                                   (trigger_streak s + 1)); lia.
  - split; [by left|]. split; [lia|].
    rewrite Z.gtb_ltb. destruct (Z.ltb_spec (longest_miss_streak s)
                                   (miss_streak s + 1)); lia.
Qed.

(** Every key evolves through the loop over the rules, whether the loop
    returns or raises. *)
Lemma process_patterns_evolves colors patterns stats results stats' r key :
  process_patterns colors patterns stats results = (stats', r) ->
  evolves (state_at stats key) (state_at stats' key).
Proof.
  revert stats results.
  induction patterns as [|[p rule] rest IH]; intros stats results; cbn.
  - intros [= <- <-]. apply evolves_refl.
  - destruct (negb (default true (r_active rule))); [apply IH|].
    destruct (check_pattern colors rule) as [check|e];
      [|intros [= <- <-]; apply evolves_refl].
    destruct (apply_check p check (default zero_stat (stats !! p))) as [s' evs] eqn:Ha.
    intros Hrest. apply IH in Hrest.
    eapply evolves_trans; [|exact Hrest].
    unfold state_at at 2. destruct (decide (p = key)) as [->|Hne].
    + rewrite lookup_insert_eq. cbn.
      replace s' with (apply_check key check (state_at stats key)).1
        by (unfold state_at; by rewrite Ha).
      apply apply_check_evolves.
    + rewrite lookup_insert_ne by done. apply evolves_refl.
Qed.

Lemma feed_evolves st round key :
  evolves (state_at (pattern_stats_cache st) key)
          (state_at (pattern_stats_cache (feed st round)) key).
Proof.
  unfold feed, process_round_patterns, process_round.
  destruct (push_round _ _ _ _) as [colors rounds].
  destruct (process_patterns _ _ _ _) as [stats r] eqn:Hp. cbn.
  exact (process_patterns_evolves _ _ _ _ _ _ key Hp).
Qed.

Lemma feed_all_evolves st rounds key :
  evolves (state_at (pattern_stats_cache st) key)
          (state_at (pattern_stats_cache (feed_all st rounds)) key).
Proof.
  revert st. induction rounds as [|round rounds IH]; intros st; [apply evolves_refl|].
  cbn. eapply evolves_trans; [apply feed_evolves|apply IH].
Qed.

(** C5: whatever rounds are processed from whatever state, for every rule
    key, a state with at most one of its two streaks non-zero stays so,
    and neither longest streak decreases; a trigger match sets the miss
    streak to zero and a miss match the trigger streak.  From a start
    where every state is all zero, at most one of the two streaks of a key
    is non-zero at any later time. *)
Theorem streak_invariants :
  (forall st rounds key,
      let s := state_at (pattern_stats_cache st) key in
      let s' := state_at (pattern_stats_cache (feed_all st rounds)) key in
      (exclusive s -> exclusive s') /\
      longest_trigger_streak s <= longest_trigger_streak s' /\
      longest_miss_streak s <= longest_miss_streak s') /\
  (forall s, miss_streak (on_trigger s) = 0 /\ trigger_streak (on_miss s) = 0) /\
  (forall st rounds key,
      (forall k s, pattern_stats_cache st !! k = Some s -> s = zero_stat) ->
      exclusive (state_at (pattern_stats_cache (feed_all st rounds)) key)).
Proof.
  split; [|split].
  - intros st rounds key. apply feed_all_evolves.
  - done.
  - intros st rounds key Hzero.
    apply (feed_all_evolves st rounds key). unfold state_at.
    destruct (pattern_stats_cache st !! key) as [s|] eqn:Hs; [|by left].
    rewrite (Hzero _ _ Hs). by left.
Qed.

(** C5 on the rule "green or red" through five greens and a red. *)
Lemma streak_invariants_witness :
  let st := Examples.fresh "1" Examples.green_or_red in
  let rounds := Examples.greens5 ++ [("red", "R6")] in
  exclusive (state_at (pattern_stats_cache (feed_all st rounds)) "1").
Proof.
  apply (proj2 (proj2 streak_invariants)).
  intros k s. cbn. by rewrite lookup_empty.
Defined.

End Invariants.

(** ** Streak history *)

Section History.

Import PatternEngine Main Props.

Lemma py_index_back {A : Type} (l : list A) (k : Z) :
  0 < k <= Z.of_nat (length l) -> exists a, py_index l (- k) = Ok a.
Proof.
  intros Hk. unfold py_index.
  replace (- k <? 0) with true by lia.
  replace (Z.of_nat (length l) + - k <? 0) with false by lia.
  destruct (lookup_lt_is_Some_2 l (Z.to_nat (Z.of_nat (length l) + - k))) as [a ->];
    [lia|eauto].
Qed.

Lemma start_marker_ok recent_rounds prev :
  1 < prev -> exists s, start_marker recent_rounds prev = Ok s.
Proof.
  intros Hprev. unfold start_marker.
  destruct (Z.gtb_spec (Z.of_nat (length recent_rounds)) prev); [|eauto].
  replace (- prev - 1) with (- (prev + 1)) by lia. apply py_index_back. lia.
Qed.

Lemma end_marker_ok recent_rounds : exists s, end_marker recent_rounds = Ok s.
Proof.
  unfold end_marker.
  destruct (Z.gtb_spec (Z.of_nat (length recent_rounds)) 1); [|eauto].
  apply (py_index_back recent_rounds 2). lia.
Qed.


Lemma ended_streak_ok key kind prev current recent_rounds recent_colors sub_key b :
  base_pattern_id key = Ok b ->
  exists rows,
    ended_streak key kind prev current recent_rounds recent_colors sub_key = Ok rows.
Proof.
  intros Hb. unfold ended_streak.
  destruct (Z.gtb_spec prev 1) as [Hgt|Hle]; cbn [andb]; [|eauto].
  destruct (current <? prev); [|eauto].
  destruct (start_marker_ok recent_rounds prev Hgt) as [s ->].
  destruct (end_marker_ok recent_rounds) as [e ->]. cbn [res_bind].
  unfold save_streak_history. rewrite Hb. destruct (prev <? 2); cbn; eauto.
Qed.






End History.

Section HistoryTheorem.

Import PatternEngine Main Props.


Lemma history_for_ok key prev current recent_rounds recent_colors b :
  base_pattern_id key = Ok b ->
  exists rows, history_for key prev current recent_rounds recent_colors = Ok rows.
Proof.
  intros Hb. unfold history_for.
  destruct (ended_streak_ok key "trigger" (trigger_streak prev) (trigger_streak current)
              recent_rounds recent_colors
              (if Py.mem_char ":" key then Some (Py.split_tail ":" key) else None)
              b Hb) as [t ->].
  destruct (ended_streak_ok key "miss" (miss_streak prev) (miss_streak current)
              recent_rounds recent_colors
              (if Py.mem_char ":" key then Some (Py.split_tail ":" key) else None)
              b Hb) as [m ->].
  cbn. eauto.
Qed.

Lemma history_loop_ok items prev_stats recent_rounds recent_colors :
  (forall k s, (k, s) ∈ items -> exists b, base_pattern_id k = Ok b) ->
  exists history, history_loop items prev_stats recent_rounds recent_colors = Ok history.
Proof.
  induction items as [|[k cur] rest IH]; intros Hkeys; cbn; [eauto|].
  destruct (Hkeys k cur) as [b Hb]; [by left|].
  destruct (history_for_ok k (default zero_stat (prev_stats !! k)) cur
              recent_rounds recent_colors b Hb) as [rows ->].
  destruct IH as [more ->]; [intros k' s' Hin; apply (Hkeys k' s'); by right|].
  cbn. eauto.
Qed.




End HistoryTheorem.

(** ** Alert cooldown *)

Section Alerts.

Import PatternEngine Main Props.

Lemma alert_step_suppressed pid name event streak round rule cache alert_type n :
  alert_type_of event streak rule = Some alert_type ->
  cache !! cooldown_key_of pid alert_type = Some n ->
  0 < n ->
  check_and_fire_alert pid name event streak round rule cache =
  (<[cooldown_key_of pid alert_type := n - 1]> cache, Ok None).
Proof.
  intros Ht Hn Hpos. unfold check_and_fire_alert. rewrite Ht, Hn.
  replace (n >? 0) with true by lia. f_equal.
  apply map_eq. intros k. destruct (decide (cooldown_key_of pid alert_type = k)) as [<-|Hne].
  - by rewrite lookup_alter_eq, lookup_insert_eq, Hn.
  - by rewrite lookup_alter_ne, lookup_insert_ne.
Qed.

Lemma alert_step_fired pid name event streak round rule cache alert_type :
  alert_type_of event streak rule = Some alert_type ->
  ~ outstanding cache (cooldown_key_of pid alert_type) ->
  check_and_fire_alert pid name event streak round rule cache =
  (<[cooldown_key_of pid alert_type := cooldown_of rule]> cache,
   try! base <- base_pattern_id pid;
   Ok (Some (mkAlert base alert_type (mkAlertData pid name alert_type streak round)))).
Proof.
  intros Ht Hout. unfold check_and_fire_alert. rewrite Ht.
  destruct (cache !! cooldown_key_of pid alert_type) as [n|] eqn:Hn; [|done].
  destruct (Z.gtb_spec n 0); [|done]. destruct Hout. by exists n.
Qed.

(** While the outstanding cooldown covers them, no event emits. *)
Lemma dispatch_all_covered pid name event rule events cache alert_type n :
  Forall (fun e => alert_type_of event e.1 rule = Some alert_type) events ->
  cache !! cooldown_key_of pid alert_type = Some n ->
  Z.of_nat (length events) <= n ->
  filter (fun r => emitted r = true) (dispatch_all pid name event rule events cache) = [].
Proof.
  intros Hall. revert cache n.
  induction Hall as [|[streak round] events He Hall IH]; intros cache n Hn Hlen; [done|].
  cbn [dispatch_all]. cbn in He, Hlen.
  rewrite (alert_step_suppressed _ _ _ _ _ _ _ _ n He Hn) by lia. cbn [fst snd].
  rewrite filter_cons_False by done.
  apply (IH _ (n - 1)); [by rewrite lookup_insert_eq|lia].
Qed.

Lemma dispatch_all_window pid name event rule events cache alert_type :
  Forall (fun e => alert_type_of event e.1 rule = Some alert_type) events ->
  Z.of_nat (length events) <= cooldown_of rule + 1 ->
  (length (filter (fun r => emitted r = true)
             (dispatch_all pid name event rule events cache)) <= 1)%nat.
Proof.
  intros Hall. revert cache.
  induction Hall as [|[streak round] events He Hall IH]; intros cache Hlen; [cbn; lia|].
  cbn [dispatch_all]. cbn in He, Hlen.
  destruct (cache !! cooldown_key_of pid alert_type) as [n|] eqn:Hn.
  - destruct (Z.ltb_spec 0 n) as [Hpos|Hle].
    + rewrite (alert_step_suppressed _ _ _ _ _ _ _ _ n He Hn Hpos). cbn [fst snd].
      rewrite filter_cons_False by done. apply IH. lia.
    + rewrite (alert_step_fired _ _ _ _ _ _ _ _ He).
      2:{ intros (n' & Hn' & Hpos). rewrite Hn in Hn'. injection Hn' as <-. lia. }
      cbn [fst snd].
      rewrite (filter_cons (fun r => emitted r = true)).
      rewrite (dispatch_all_covered _ _ _ _ _ _ alert_type (cooldown_of rule) Hall);
        [|by rewrite lookup_insert_eq|lia].
      destruct (decide _); cbn; lia.
  - rewrite (alert_step_fired _ _ _ _ _ _ _ _ He).
    2:{ intros (n' & Hn' & Hpos). congruence. }
    cbn [fst snd].
    rewrite (filter_cons (fun r => emitted r = true)).
    rewrite (dispatch_all_covered _ _ _ _ _ _ alert_type (cooldown_of rule) Hall);
      [|by rewrite lookup_insert_eq|lia].
    destruct (decide _); cbn; lia.
Qed.

Lemma alert_other_key pid name event streak round rule cache key :
  (forall alert_type, alert_type_of event streak rule = Some alert_type ->
                      cooldown_key_of pid alert_type <> key) ->
  (check_and_fire_alert pid name event streak round rule cache).1 !! key = cache !! key.
Proof.
  intros Hne. unfold check_and_fire_alert.
  destruct (alert_type_of event streak rule) as [alert_type|]; [|done].
  specialize (Hne alert_type eq_refl).
  destruct (match cache !! _ with Some n => n >? 0 | None => false end); cbn.
  - by rewrite lookup_alter_ne.
  - by rewrite lookup_insert_ne.
Qed.

End Alerts.

Section AlertTheorem.

Import PatternEngine Main Props.

Lemma length_append s1 s2 :
  String.length (s1 +:+ s2) = (String.length s1 + String.length s2)%nat.
Proof.
  induction s1 as [|c s1 IH]; [done|]. rewrite append_String. cbn. by rewrite IH.
Qed.

Lemma append_inj_len a b u v :
  String.length u = String.length v -> a +:+ u = b +:+ v -> a = b /\ u = v.
Proof.
  intros Hlen. revert b. induction a as [|c a IH]; intros [|d b].
  - by rewrite !append_empty.
  - rewrite append_empty. intros ->. rewrite length_append in Hlen. cbn in Hlen. lia.
  - rewrite append_empty. intros <-. rewrite length_append in Hlen. cbn in Hlen. lia.
  - rewrite !append_String. intros [= -> H]. destruct (IH _ H) as [-> ->]. done.
Qed.

Lemma alert_type_kinds event streak rule alert_type :
  alert_type_of event streak rule = Some alert_type ->
  alert_type = "trigger_streak" \/ alert_type = "miss_streak".
Proof.
  unfold alert_type_of.
  destruct (_ && _); [intros [= <-]; by left|].
  destruct (_ && _); [intros [= <-]; by right|done].
Qed.

Lemma append_assoc a b c : (a +:+ b) +:+ c = a +:+ b +:+ c.
Proof.
  induction a as [|x a IH]; [done|]. by rewrite !append_String, IH.
Qed.

Lemma cooldown_key_inj pid1 t1 pid2 t2 :
  t1 = "trigger_streak" \/ t1 = "miss_streak" ->
  t2 = "trigger_streak" \/ t2 = "miss_streak" ->
  cooldown_key_of pid1 t1 = cooldown_key_of pid2 t2 ->
  pid1 = pid2 /\ t1 = t2.
Proof.
  unfold cooldown_key_of. intros [-> | ->] [-> | ->] H.
  - by apply append_inj_len in H as [-> _].
  - change ("_" +:+ "trigger_streak") with ("_trigge" +:+ "r_streak") in H.
    change ("_" +:+ "miss_streak") with ("_mis" +:+ "s_streak") in H.
    rewrite <- !append_assoc in H. by apply append_inj_len in H as [_ ?].
  - change ("_" +:+ "trigger_streak") with ("_trigge" +:+ "r_streak") in H.
    change ("_" +:+ "miss_streak") with ("_mis" +:+ "s_streak") in H.
    rewrite <- !append_assoc in H. by apply append_inj_len in H as [_ ?].
  - by apply append_inj_len in H as [-> _].
Qed.

Lemma call_other_key pid kind c cache :
  kind = "trigger_streak" \/ kind = "miss_streak" ->
  ~ concerns pid kind c ->
  (check_and_fire_alert (call_pid c) (call_name c) (call_event c) (call_streak c)
     (call_round c) (call_rule c) cache).1 !! cooldown_key_of pid kind
  = cache !! cooldown_key_of pid kind.
Proof.
  intros Hkind Hnot. apply alert_other_key. intros t Ht Heq.
  apply cooldown_key_inj in Heq as [Hp ->]; [|by apply (alert_type_kinds _ _ _ _ Ht)|done].
  by apply Hnot.
Qed.

(** While the outstanding cooldown covers the events of a key and kind,
    none of them emits, whatever calls come in between. *)
Lemma run_calls_covered pid kind calls cache n :
  kind = "trigger_streak" \/ kind = "miss_streak" ->
  cache !! cooldown_key_of pid kind = Some n ->
  Z.of_nat (length (filter (concerns pid kind) calls)) <= n ->
  filter (fun cr => concerns pid kind cr.1 /\ emitted cr.2 = true) (run_calls calls cache) = [].
Proof.
  intros Hkind. revert cache n.
  induction calls as [|c rest IH]; intros cache n Hn Hlen; [done|].
  cbn [run_calls]. destruct (decide (concerns pid kind c)) as [Hc|Hc].
  - rewrite filter_cons_True in Hlen by done. cbn [length] in Hlen.
    destruct Hc as [Hpid Ht].
    rewrite (alert_step_suppressed _ _ _ _ _ _ _ _ n Ht) by (rewrite ?Hpid; done || lia).
    cbn [fst snd]. rewrite filter_cons_False by (cbn; intros [_ ?]; done).
    apply (IH _ (n - 1)); [rewrite Hpid; by rewrite lookup_insert_eq|lia].
  - rewrite filter_cons_False in Hlen by done.
    rewrite filter_cons_False by (cbn; intros [? _]; done).
    apply (IH _ n); [|done]. by rewrite call_other_key.
Qed.

Lemma run_calls_window pid kind cooldown calls cache :
  kind = "trigger_streak" \/ kind = "miss_streak" ->
  Forall (fun c => concerns pid kind c -> cooldown_of (call_rule c) = cooldown) calls ->
  Z.of_nat (length (filter (concerns pid kind) calls)) <= cooldown + 1 ->
  (length (filter (fun cr => concerns pid kind cr.1 /\ emitted cr.2 = true)
             (run_calls calls cache)) <= 1)%nat.
Proof.
  intros Hkind Hall. revert cache.
  induction Hall as [|c rest Hcd Hall IH]; intros cache Hlen; [cbn; lia|].
  cbn [run_calls]. destruct (decide (concerns pid kind c)) as [Hc|Hc].
  - rewrite filter_cons_True in Hlen by done. cbn [length] in Hlen.
    specialize (Hcd Hc). destruct Hc as [Hpid Ht].
    destruct (cache !! cooldown_key_of pid kind) as [n|] eqn:Hn.
    + destruct (Z.ltb_spec 0 n) as [Hpos|Hle].
      * rewrite (alert_step_suppressed _ _ _ _ _ _ _ _ n Ht) by (rewrite ?Hpid; done).
        cbn [fst snd]. rewrite filter_cons_False by (cbn; intros [_ ?]; done).
        apply IH. lia.
      * rewrite (alert_step_fired _ _ _ _ _ _ _ _ Ht).
        2:{ rewrite Hpid. intros (n' & Hn' & Hpos). rewrite Hn in Hn'.
            injection Hn' as <-. lia. }
        cbn [fst snd]. rewrite filter_cons.
        rewrite (run_calls_covered pid kind rest _ cooldown Hkind);
          [|rewrite Hpid, Hcd; by rewrite lookup_insert_eq|lia].
        destruct (decide _); cbn; lia.
    + rewrite (alert_step_fired _ _ _ _ _ _ _ _ Ht).
      2:{ rewrite Hpid. intros (n' & Hn' & Hpos). congruence. }
      cbn [fst snd]. rewrite filter_cons.
      rewrite (run_calls_covered pid kind rest _ cooldown Hkind);
        [|rewrite Hpid, Hcd; by rewrite lookup_insert_eq|lia].
      destruct (decide _); cbn; lia.
  - rewrite filter_cons_False in Hlen by done.
    rewrite filter_cons_False by (cbn; intros [? _]; done).
    by apply IH.
Qed.
(** The events that emit when the counter stands at [c] at the start. *)
Lemma dispatch_all_periodic pid name event rule events alert_type base n :
  cooldown_of rule = n ->
  0 <= n ->
  Forall (fun e => alert_type_of event e.1 rule = Some alert_type) events ->
  base_pattern_id pid = Ok base ->
  forall cache c,
    0 <= c <= n ->
    (0 < c -> cache !! cooldown_key_of pid alert_type = Some c) ->
    (c = 0 -> ~ outstanding cache (cooldown_key_of pid alert_type)) ->
    emitted <$> dispatch_all pid name event rule events cache =
    (fun i => (c <=? Z.of_nat i) && ((Z.of_nat i - c) mod (n + 1) =? 0))
      <$> seq 0 (length events).
Proof.
  intros Hcd Hn Hall Hbase.
  induction Hall as [|[streak round] events He Hall IH]; intros cache c Hc Hpos Hzero;
    [done|].
  cbn [dispatch_all length seq]. rewrite !fmap_cons.
  rewrite <- fmap_S_seq, <- list_fmap_compose. cbn in He.
  destruct (decide (0 < c)) as [Hp|Hp].
  - rewrite (alert_step_suppressed _ _ _ _ _ _ _ _ c He (Hpos Hp) Hp). cbn [fst snd emitted].
    f_equal.
    + destruct (Z.leb_spec c (Z.of_nat 0)); [lia|done].
    + rewrite (IH _ (c - 1)).
      * apply list_fmap_ext. intros _ i _. cbn [compose].
        rewrite Nat2Z.inj_succ.
        replace (Z.succ (Z.of_nat i) - c) with (Z.of_nat i - (c - 1)) by lia.
        f_equal. destruct (Z.leb_spec (c - 1) (Z.of_nat i)), (Z.leb_spec c (Z.succ (Z.of_nat i)));
          done || lia.
      * lia.
      * intros _. by rewrite lookup_insert_eq.
      * intros Hc1 (m & Hm & Hmpos). rewrite lookup_insert_eq in Hm. injection Hm as <-. lia.
  - assert (c = 0) as -> by lia.
    rewrite (alert_step_fired _ _ _ _ _ _ _ _ He (Hzero eq_refl)), Hbase, Hcd.
    cbn [fst snd res_bind emitted]. f_equal.
    rewrite (IH _ n).
    + apply list_fmap_ext. intros _ i _. cbn [compose].
      rewrite Nat2Z.inj_succ, Z.sub_0_r.
      destruct (Z.leb_spec 0 (Z.succ (Z.of_nat i))); [|lia]. cbn [andb].
      destruct (Z.leb_spec n (Z.of_nat i)) as [Hle|Hlt]; cbn [andb].
      * replace (Z.succ (Z.of_nat i)) with (Z.of_nat i - n + 1 * (n + 1)) by lia.
        by rewrite Z_mod_plus_full.
      * rewrite Z.mod_small by lia. destruct (Z.eqb_spec (Z.succ (Z.of_nat i)) 0); [lia|done].
    + lia.
    + intros _. by rewrite lookup_insert_eq.
    + intros -> (m & Hm & Hmpos). rewrite lookup_insert_eq in Hm. injection Hm as <-. lia.
Qed.

(** C7: an eligible event finds either a positive cooldown outstanding
    for its rule key and alert kind, and then is suppressed, the counter
    going down by one, or none, and then emits the alert, the counter
    being set to the configured cooldown: the [cooldown_rounds] of the
    [alerts] entry of the rule, and 1 when the rule configures none.  With
    threshold 3 and cooldown 1 the streaks 1 to 5 alert at 3 and at 5
    only; with cooldown 2 the streaks 1 to 8 alert at 3 and at 6 only.
    From a start with no cooldown outstanding, of the successive eligible
    events of a key and kind under a cooldown of [n] rounds exactly every
    [(n + 1)]-th emits, beginning with the first.  Among any
    [cooldown_rounds + 1] successive eligible events of one key and kind
    at most one emits; the counters of different keys or kinds are
    distinct entries, and a call leaves the other entries alone, so the
    same holds with calls for other keys and kinds in between. *)
Theorem alert_cooldown_gate :
  (forall pid name event streak round rule cache alert_type,
      alert_type_of event streak rule = Some alert_type ->
      let key := cooldown_key_of pid alert_type in
      let call := check_and_fire_alert pid name event streak round rule cache in
      (forall n, cache !! key = Some n -> 0 < n ->
                 call = (<[key := n - 1]> cache, Ok None)) /\
      (~ outstanding cache key ->
       forall base, base_pattern_id pid = Ok base ->
         call = (<[key := cooldown_of rule]> cache,
                 Ok (Some (mkAlert base alert_type
                             (mkAlertData pid name alert_type streak round)))))) /\
  (forall pid name event streak round rule cache alert_type alerts_config n base,
      alert_type_of event streak rule = Some alert_type ->
      r_alerts rule = Some alerts_config ->
      a_cooldown_rounds alerts_config = Some n ->
      ~ outstanding cache (cooldown_key_of pid alert_type) ->
      base_pattern_id pid = Ok base ->
      check_and_fire_alert pid name event streak round rule cache =
        (<[cooldown_key_of pid alert_type := n]> cache,
         Ok (Some (mkAlert base alert_type
                     (mkAlertData pid name alert_type streak round))))) /\
  (forall rule,
      cooldown_of rule =
      match r_alerts rule with
      | Some alerts_config =>
          match a_cooldown_rounds alerts_config with
          | Some n => n
          | None => 1
          end
      | None => 1
      end) /\
  (emitted <$> dispatch_all "7" "alerting" "trigger" Examples.alert_3_1
                 [(1, "R1"); (2, "R2"); (3, "R3"); (4, "R4"); (5, "R5")] ∅
   = [false; false; true; false; true]) /\
  (emitted <$> dispatch_all "7" "alerting" "trigger" Examples.alert_3_2
                 [(1, "R1"); (2, "R2"); (3, "R3"); (4, "R4"); (5, "R5"); (6, "R6");
                  (7, "R7"); (8, "R8")] ∅
   = [false; false; true; false; false; true; false; false]) /\
  (emitted <$> dispatch_all "7" "alerting" "trigger" Examples.alert_3_default
                 [(3, "R3"); (4, "R4"); (5, "R5"); (6, "R6")] ∅
   = [true; false; true; false]) /\
  (forall pid name event rule alerts_config n events cache alert_type base,
      r_alerts rule = Some alerts_config ->
      a_cooldown_rounds alerts_config = Some n ->
      0 <= n ->
      Forall (fun e => alert_type_of event e.1 rule = Some alert_type) events ->
      base_pattern_id pid = Ok base ->
      ~ outstanding cache (cooldown_key_of pid alert_type) ->
      emitted <$> dispatch_all pid name event rule events cache =
      fires_at n <$> seq 0 (length events)) /\
  (forall pid name event rule events cache alert_type,
      Forall (fun e => alert_type_of event e.1 rule = Some alert_type) events ->
      Z.of_nat (length events) <= cooldown_of rule + 1 ->
      (length (filter (fun r => emitted r = true)
                 (dispatch_all pid name event rule events cache)) <= 1)%nat) /\
  (forall pid name event streak round rule cache alert_type pid' alert_type',
      alert_type_of event streak rule = Some alert_type ->
      alert_type' = "trigger_streak" \/ alert_type' = "miss_streak" ->
      (pid', alert_type') <> (pid, alert_type) ->
      (check_and_fire_alert pid name event streak round rule cache).1
        !! cooldown_key_of pid' alert_type'
      = cache !! cooldown_key_of pid' alert_type') /\
  (forall pid kind cooldown calls cache,
      kind = "trigger_streak" \/ kind = "miss_streak" ->
      Forall (fun c => concerns pid kind c -> cooldown_of (call_rule c) = cooldown) calls ->
      Z.of_nat (length (filter (concerns pid kind) calls)) <= cooldown + 1 ->
      (length (filter (fun cr => concerns pid kind cr.1 /\ emitted cr.2 = true)
                 (run_calls calls cache)) <= 1)%nat).
Proof.
  split; [|split; [|split; [|split; [by vm_compute|split; [by vm_compute|
    split; [by vm_compute|split; [|split; [|split]]]]]]]].
  7:{ apply run_calls_window. }
  - intros pid name event streak round rule cache alert_type Ht. cbn zeta. split.
    + intros n Hn Hpos. by apply alert_step_suppressed.
    + intros Hout base Hbase. rewrite (alert_step_fired _ _ _ _ _ _ _ _ Ht Hout).
      by rewrite Hbase.
  - intros pid name event streak round rule cache alert_type alerts_config n base
      Ht Hcfg Hn Hout Hbase.
    rewrite (alert_step_fired _ _ _ _ _ _ _ _ Ht Hout), Hbase.
    unfold cooldown_of. rewrite Hcfg. cbn [from_option id]. by rewrite Hn.
  - intros rule. unfold cooldown_of.
    destruct (r_alerts rule) as [cfg|]; cbn; [|reflexivity].
    by destruct (a_cooldown_rounds cfg).
  - intros pid name event rule alerts_config n events cache alert_type base
      Hcfg Hcd Hn Hall Hbase Hout.
    assert (Hcool : cooldown_of rule = n).
    { unfold cooldown_of. rewrite Hcfg. cbn [from_option id]. by rewrite Hcd. }
    rewrite (dispatch_all_periodic pid name event rule events alert_type base n
               Hcool Hn Hall Hbase cache 0); [|lia|lia|by intros _].
    apply list_fmap_ext. intros _ i _. unfold fires_at. rewrite Z.sub_0_r.
    by destruct (Z.leb_spec 0 (Z.of_nat i)); [|lia].
  - apply dispatch_all_window.
  - intros pid name event streak round rule cache alert_type pid' alert_type' Ht Hk Hne.
    apply alert_other_key. intros t Ht' Heq.
    assert (t = alert_type) as -> by congruence.
    apply cooldown_key_inj in Heq as [-> ->]; [done| |done].
    by apply (alert_type_kinds event streak rule).
Qed.

(** C7 on the example rules: the streak 3 alerts on an empty cache and
    sets the counter to the configured 2; of six eligible events under the
    cooldown 2 the first and the fourth emit; and of the streaks 3 and 4
    under the cooldown 1 at most one alerts. *)
Lemma alert_cooldown_gate_witness :
  check_and_fire_alert "7" "alerting" "trigger" 3 "R3" Examples.alert_3_2 ∅ =
    (<[cooldown_key_of "7" "trigger_streak" := 2]> ∅,
     Ok (Some (mkAlert 7 "trigger_streak"
                 (mkAlertData "7" "alerting" "trigger_streak" 3 "R3")))) /\
  emitted <$> dispatch_all "7" "alerting" "trigger" Examples.alert_3_2
                [(3, "R3"); (4, "R4"); (5, "R5"); (6, "R6"); (7, "R7"); (8, "R8")] ∅ =
    fires_at 2 <$> seq 0 6 /\
  (length (filter (fun r => emitted r = true)
             (dispatch_all "7" "alerting" "trigger" Examples.alert_3_1
                [(3%Z, "R3"); (4%Z, "R4")] ∅)) <= 1)%nat.
Proof.
  split; [|split].
  - apply (proj1 (proj2 alert_cooldown_gate) "7" "alerting" "trigger" 3 "R3"
             Examples.alert_3_2 ∅ "trigger_streak" (mkAlerts (Some 3) None (Some 2)) 2 7).
    + reflexivity.
    + reflexivity.
    + reflexivity.
    + intros (n & Hn & _). by rewrite lookup_empty in Hn.
    + reflexivity.
  - apply (proj1 (proj2 (proj2 (proj2 (proj2 (proj2 (proj2 alert_cooldown_gate))))))
             "7" "alerting" "trigger" Examples.alert_3_2 (mkAlerts (Some 3) None (Some 2)) 2
             [(3, "R3"); (4, "R4"); (5, "R5"); (6, "R6"); (7, "R7"); (8, "R8")] ∅
             "trigger_streak" 7).
    + reflexivity.
    + reflexivity.
    + lia.
    + by repeat constructor.
    + reflexivity.
    + intros (n & Hn & _). by rewrite lookup_empty in Hn.
  - apply (proj1 (proj2 (proj2 (proj2 (proj2 (proj2 (proj2 (proj2 alert_cooldown_gate)))))))
             "7" "alerting" "trigger"
             Examples.alert_3_1 [(3, "R3"); (4, "R4")] ∅ "trigger_streak").
    + by repeat constructor.
    + by vm_compute.
Defined.

End AlertTheorem.

(** ** Rule validation *)

Section Validation.

Import PatternEngine Main Props.

Lemma mem_str_elem s l : mem_str s l = true <-> s ∈ l.
Proof.
  unfold mem_str. rewrite existsb_exists. split.
  - intros (x & Hin & Heq). apply String.eqb_eq in Heq. subst x.
    by apply list_elem_of_In.
  - intros Hin. exists s. split; [by apply list_elem_of_In|apply String.eqb_refl].
Qed.

Lemma append_nonempty s c t : s +:+ String c t <> EmptyString.
Proof. by destruct s. Qed.

Lemma is_empty_false s : Py.is_empty s = false -> s <> EmptyString.
Proof. by destruct s. Qed.

Lemma validate_step_list_returns path steps ok err :
  validate_step_list path steps = Ok (ok, err) ->
  (ok = true -> Forall step_well_formed steps) /\
  (ok = false -> exists reason, err = Some reason /\ reason <> EmptyString).
Proof.
  induction steps as [|s rest IH]; cbn [validate_step_list].
  - intros [= <- <-]. by split.
  - destruct (is_nil (default [] (s_colors s))) eqn:Hnil.
    { intros [= <- <-]. split; [done|]. intros _. eexists. split; [done|].
      apply append_nonempty. }
    destruct (existsb _ (default [] (s_colors s))) eqn:Hcolors.
    { intros [= <- <-]. split; [done|]. intros _. eexists. split; [done|].
      apply append_nonempty. }
    destruct (mem_str (default "minimum" (s_operator s)) allowed_ops) eqn:Hop; cbn [negb].
    2:{ intros [= <- <-]. split; [done|]. intros _. eexists. split; [done|].
        apply append_nonempty. }
    destruct (_is_valid_count_expr _) as [[|]|] eqn:Hcount; cbn [res_bind negb]; [| |done].
    + intros Hrest. destruct (IH Hrest) as [Hok Herr]. split; [|done].
      intros ->. constructor; [|by apply Hok]. repeat split.
      * by destruct (default [] (s_colors s)).
      * apply Forall_forall. intros c Hc. apply mem_str_elem.
        destruct (mem_str c allowed_colors) eqn:Hm; [done|].
        assert (existsb (fun c => negb (mem_str c allowed_colors))
                  (default [] (s_colors s)) = true); [|congruence].
        apply existsb_exists. exists c. split; [by apply list_elem_of_In|by rewrite Hm].
      * by apply mem_str_elem.
      * done.
    + intros [= <- <-]. split; [done|]. intros _. eexists. split; [done|].
      apply append_nonempty.
Qed.

(** Whenever the validator returns, it either lets a well-formed rule
    through or gives a reason that is not empty. *)
Lemma validate_rule_json_returns rule ok err :
  _validate_rule_json rule = Ok (ok, err) ->
  (ok = true -> rule_well_formed rule) /\
  (ok = false -> exists reason, err = Some reason /\ reason <> EmptyString).
Proof.
  unfold _validate_rule_json.
  destruct (type_in (r_type rule) ["static"; "dynamic"]) eqn:Htype; cbn [negb].
  2:{ intros [= <- <-]. split; [done|]. intros _. by eexists. }
  destruct (Py.is_empty _) eqn:Hname.
  { intros [= <- <-]. split; [done|]. intros _. by eexists. }
  unfold _validate_steps, block_at. cbn [String.eqb Ascii.eqb Bool.eqb].
  destruct (steps_of (r_trigger rule)) as [ts|] eqn:Hts; [|done]. cbn [res_bind].
  destruct (validate_step_list "trigger" ts) as [[okt errt]|] eqn:Ht; [|done].
  cbn [res_bind fst snd].
  destruct (validate_step_list_returns _ _ _ _ Ht) as [Htok Hterr].
  destruct okt; cbn [negb].
  2:{ intros [= <- <-]. split; [done|]. auto. }
  destruct (steps_of (r_miss rule)) as [ms|] eqn:Hms; [|done]. cbn [res_bind].
  destruct (validate_step_list "miss" ms) as [[okm errm]|] eqn:Hm; [|done].
  cbn [res_bind fst snd].
  destruct (validate_step_list_returns _ _ _ _ Hm) as [Hmok Hmerr].
  destruct okm; cbn [negb].
  2:{ intros [= <- <-]. split; [done|]. auto. }
  assert (Hty : r_type rule = Some "static" \/ r_type rule = Some "dynamic").
  { destruct (r_type rule) as [t|]; [|done]. cbn [type_in] in Htype.
    apply mem_str_elem in Htype.
    apply elem_of_cons in Htype as [->|Htype]; [by left|].
    apply list_elem_of_singleton in Htype as ->. by right. }
  case_bool_decide as Hdyn.
  - destruct (r_dynamic_values rule) as [dvs|] eqn:Hdvs; cbn [from_option id is_nil].
    2:{ intros [= <- <-]. split; [done|]. intros _. by eexists. }
    destruct (is_nil dvs) eqn:Hnil.
    { intros [= <- <-]. split; [done|]. intros _. by eexists. }
    destruct (existsb _ dvs) eqn:Hrange.
    { intros [= <- <-]. split; [done|]. intros _. by eexists. }
    intros [= <- <-]. split; [|done]. intros _.
    split; [done|]. split; [by apply is_empty_false|].
    split; [eauto|]. split; [eauto|]. intros _. exists dvs.
    split; [done|]. split; [by destruct dvs|].
    apply Forall_forall. intros x Hx.
    destruct ((x <? 3) || (x >? 8)) eqn:Hb; [|lia].
    assert (existsb (fun x => (x <? 3) || (x >? 8)) dvs = true); [|congruence].
    apply existsb_exists. exists x. split; [by apply list_elem_of_In|done].
  - intros [= <- <-]. split; [|done]. intros _.
    split; [done|]. split; [by apply is_empty_false|].
    split; [eauto|]. split; [eauto|]. done.
Qed.

Lemma prefix_dollar_x v :
  String.prefix "$X" v = true -> v = "$X" +:+ Py.drop 2 v.
Proof.
  destruct v as [|c1 [|c2 r]]; [done|..]; cbn [String.prefix].
  - by destruct (ascii_dec "$" c1).
  - destruct (ascii_dec "$" c1) as [<-|]; [|done].
    by destruct (ascii_dec "X" c2) as [<-|].
Qed.

(** The counts the validator lets through: a positive integer, a string of
    digits of positive value, ["$X"], or ["$X"] followed by a sign and
    digits, white space around the whole and around the digits put aside. *)
Lemma valid_count_forms v :
  _is_valid_count_expr (Some v) = Ok true ->
  match v with
  | CInt z => 0 < z
  | CStr s =>
      let t := Py.strip s in
      (Py.isdigit t = true /\ exists n, Py.int t = Some n /\ 0 < n) \/
      t = "$X" \/
      exists sign digits,
        t = "$X" +:+ String sign digits /\
        (sign = "+"%char \/ sign = "-"%char) /\
        Py.isdigit (Py.strip digits) = true
  end.
Proof.
  destruct v as [z|s]; cbn [_is_valid_count_expr].
  - intros [= H]. lia.
  - cbn zeta. destruct (Py.isdigit (Py.strip s)) eqn:Hd.
    + destruct (Py.int (Py.strip s)) as [n|]; [|done]. intros [= H].
      left. split; [done|]. exists n. split; [done|lia].
    + destruct (String.prefix "$X" (Py.strip s)) eqn:Hp; [|done].
      apply prefix_dollar_x in Hp.
      destruct (Py.drop 2 (Py.strip s)) as [|sign digits] eqn:Hrest; cbn.
      * intros _. right. left. by rewrite Hp.
      * destruct (Ascii.eqb_spec sign "+") as [->|Hplus]; cbn.
        { intros [= H]. right. right. exists "+"%char, digits. rewrite Hp at 1. auto. }
        destruct (Ascii.eqb_spec sign "-") as [->|Hminus]; cbn; [|done].
        intros [= H]. right. right. exists "-"%char, digits. rewrite Hp at 1. auto.
Qed.
(** C9 fails on the code: the validator does not return an error for a
    step whose count is written in superscript digits, which [isdigit]
    accepts and [int] refuses; it raises [ValueError].  The same digits
    after ["$X+"] are let through.  It raises as well, before it looks at an
    unknown operator in the miss list, on a rule whose trigger is [null]. *)
Theorem validate_rule_json_raises :
  _is_valid_count_expr (Some (CStr Examples.superscript_two)) = Raise ValueError /\
  _validate_rule_json Examples.superscript_count = Raise ValueError /\
  _is_valid_count_expr (Some (CStr ("$X+" +:+ Examples.superscript_two))) = Ok true /\
  _validate_rule_json Examples.null_trigger_weird_miss = Raise AttributeError.
Proof. repeat split. Qed.

End Validation.

(** ** The default patterns *)

Section Defaults.

Import PatternEngine Main Props.

(** Every default pattern passes the validator. *)
Lemma default_patterns_valid :
  Forall (fun rule => _validate_rule_json rule = Ok (true, None)) DEFAULT_PATTERNS.
Proof. by repeat constructor. Qed.

(** "Pattern 6" expands to the six sub-rules X = 3..8, whose trigger counts
    are X and whose miss counts are X + 1. *)
Lemma default_pattern_6_expands :
  exists subs,
    DEFAULT_PATTERNS !! 5%nat ≫= (fun rule => Some (expand_dynamic_pattern rule))
      = Some (Ok subs) /\
    r_dynamic_x <$> subs = Some <$> [3; 4; 5; 6; 7; 8] /\
    trigger_counts <$> subs = (fun x => [Val (CInt x)]) <$> [3; 4; 5; 6; 7; 8] /\
    miss_counts <$> subs = (fun x => [Val (CInt (x + 1))]) <$> [3; 4; 5; 6; 7; 8].
Proof. eexists. by repeat split. Qed.

(** "Pattern 1" triggers on three greens, a red and a yellow, and misses
    on three greens and two reds. *)
Lemma default_pattern_1_checks :
  DEFAULT_PATTERNS !! 0%nat ≫=
    (fun rule => Some (check_pattern ["green"; "green"; "green"; "red"; "yellow"] rule))
    = Some (Ok (mkCheck true false)) /\
  DEFAULT_PATTERNS !! 0%nat ≫=
    (fun rule => Some (check_pattern ["green"; "green"; "green"; "red"; "red"] rule))
    = Some (Ok (mkCheck false true)).
Proof. by split. Qed.

(** A count left out of a step of a dynamic rule passes the validator,
    as the default 1; expansion then writes it as [null], and the matcher
    raises on it. *)
Lemma missing_count_raises_after_expansion :
  _validate_rule_json Examples.dynamic_without_count = Ok (true, None) /\
  exists sub,
    expand_dynamic_pattern Examples.dynamic_without_count = Ok [sub] /\
    trigger_counts sub = [Null] /\
    check_pattern ["red"] sub = Raise TypeError.
Proof. split; [done|]. eexists. by repeat split. Qed.

End Defaults.

(** ** The matcher on a count that expansion left as [null] *)

Section NullCount.

Import PatternEngine Main Props.

(** C8: [match_sequence] raises on a step whose count is [null], and
    such a step reaches it from a rule the validator accepts.  The rule has
    a trigger step with the count ["$X+05"] and then a step without a
    count; the validator reads the missing count as 1 and accepts the rule;
    the expansion leaves ["$X+05"], which is no integer, in place and
    writes [null] for the missing count.  On every buffer that is not
    empty the matcher then raises [TypeError] at the step it checks first,
    though the buffer may be shorter than the steps need and though a step
    has a count that does not parse; the check of the rule raises, and a
    round of the engine raises at this rule without processing the rules
    after it. *)
Theorem match_sequence_raises_on_null_count :
  _validate_rule_json Examples.unresolved_then_no_count = Ok (true, None) /\
  exists sub,
    expand_dynamic_pattern Examples.unresolved_then_no_count = Ok [sub] /\
    trigger_counts sub = [Val (CStr "$X+05"); Null] /\
    Py.int "$X+05" = None /\
    (forall c colors tyag,
        match_sequence (c :: colors) (rule_steps (r_trigger sub)) tyag = Raise TypeError) /\
    match_sequence ["red"] (rule_steps (r_trigger sub)) true = Raise TypeError /\
    check_pattern ["red"] sub = Raise TypeError /\
    process_round [("1:X=3", sub); ("2", Examples.green_or_red)] ["red"] ∅ =
      (∅, Raise TypeError) /\
    process_round [("2", Examples.green_or_red)] ["red"] ∅ =
      (<["2" := mkStat 0 1 0 1 0 1]> ∅,
       Ok [mkEvent "2" "miss" 1 (mkStat 0 1 0 1 0 1)]).
Proof.
  split; [by vm_compute|]. eexists. split; [by vm_compute|].
  split; [by vm_compute|]. split; [by vm_compute|]. split.
  { intros c colors tyag. reflexivity. }
  split; [by vm_compute|]. split; [by vm_compute|]. split; by vm_compute.
Qed.

End NullCount.


(** ** The flag and the window of the matcher *)

Section MatcherWindow.

Import PatternEngine Props.

Lemma group_loop_flag color group :
  group_loop color (normalize_color color true) group =
  group_loop color (normalize_color color false) group ||
  (String.eqb color "yellow" && bool_decide ("green" ∈ group)).
Proof.
  unfold normalize_color. cbn [andb].
  destruct (String.eqb_spec color "yellow") as [->|Hne].
  - cbn [andb]. induction group as [|g rest IH]; [done|].
    cbn [group_loop].
    destruct (String.eqb_spec g "green_yellow") as [->|Hgy]; [done|].
    destruct (String.eqb_spec g "yellow") as [->|Hy].
    + by rewrite orb_true_r.
    + cbn [orb]. destruct (String.eqb_spec g "green") as [->|Hg].
      * cbn. rewrite bool_decide_eq_true_2 by left. by rewrite orb_true_r.
      * cbn. rewrite IH. f_equal.
        apply bool_decide_ext. rewrite elem_of_cons.
        split; [by right|]. intros [?|?]; [congruence|done].
  - by rewrite orb_false_r.
Qed.

(** X1: [treat_yellow_as_green] changes the answer of
    [color_matches_group] in one case only: a yellow outcome against a group
    that lists the literal green.  Setting the flag never loses a match. *)
Theorem flag_only_adds_yellow_to_green :
  (forall color group,
      color_matches_group color group true =
      color_matches_group color group false ||
      (String.eqb color "yellow" && bool_decide ("green" ∈ group))) /\
  (forall color group,
      color_matches_group color group false = true ->
      color_matches_group color group true = true) /\
  (forall color group tyag,
      color <> "yellow" ->
      color_matches_group color group tyag = color_matches_group color group false).
Proof.
  split; [|split].
  - intros. apply group_loop_flag.
  - intros color group H. unfold color_matches_group in *.
    by rewrite group_loop_flag, H.
  - intros color group [] Hne; [|done]. unfold color_matches_group.
    rewrite group_loop_flag.
    destruct (String.eqb_spec color "yellow"); [done|]. by rewrite orb_false_r.
Qed.

(** X1 on a yellow outcome against the group of the literal green, which
    matches with the flag only, and on a red outcome, which the flag leaves
    alone. *)
Lemma flag_only_adds_yellow_to_green_witness :
  color_matches_group "yellow" ["green"] false = false /\
  color_matches_group "yellow" ["green"] true = true /\
  color_matches_group "yellow" ["green_yellow"] true = true /\
  color_matches_group "red" ["green"; "red"] true =
  color_matches_group "red" ["green"; "red"] false.
Proof.
  split; [reflexivity|]. split; [reflexivity|]. split.
  - apply (proj1 (proj2 flag_only_adds_yellow_to_green) "yellow" ["green_yellow"]).
    reflexivity.
  - apply (proj2 (proj2 flag_only_adds_yellow_to_green) "red" ["green"; "red"] true).
    discriminate.
Defined.

Lemma consume_stops_shift older colors group tyag n m i m' :
  (n <= length colors)%nat ->
  consume colors group tyag n m = Ok (S i, m') ->
  consume (older ++ colors) group tyag (length older + n) m
    = Ok (length older + S i, m')%nat.
Proof.
  revert m. induction n as [|j IH]; intros m Hn; [done|].
  cbn [consume].
  destruct (lookup_lt_is_Some_2 colors j) as [c Hc]; [lia|].
  rewrite Hc. replace (length older + S j)%nat with (S (length older + j)) by lia.
  cbn [consume]. rewrite lookup_app_r by lia.
  replace (length older + j - length older)%nat with j by lia. rewrite Hc.
  destruct (color_matches_group c group tyag).
  - intros H. apply IH; [lia|done].
  - intros [= <- <-]. do 2 f_equal. lia.
Qed.

Lemma consume_grows colors group tyag n m :
  (n <= length colors)%nat ->
  exists n' m', consume colors group tyag n m = Ok (n', m') /\ m <= m'.
Proof.
  intros Hn. destruct (consume_greedy colors group tyag n m Hn) as (n' & Heq & _).
  eexists _, _. split; [exact Heq|lia].
Qed.

Lemma consume_all_shift older colors group tyag n m m' :
  (n <= length colors)%nat ->
  consume colors group tyag n m = Ok (O, m') ->
  exists n'' m'',
    consume (older ++ colors) group tyag (length older + n) m = Ok (n'', m'') /\
    m' <= m''.
Proof.
  revert m. induction n as [|j IH]; intros m Hn.
  - cbn [consume]. intros [= <-]. rewrite Nat.add_0_r.
    apply consume_grows. rewrite length_app. lia.
  - cbn [consume].
    destruct (lookup_lt_is_Some_2 colors j) as [c Hc]; [lia|].
    rewrite Hc. replace (length older + S j)%nat with (S (length older + j)) by lia.
    cbn [consume]. rewrite lookup_app_r by lia.
    replace (length older + j - length older)%nat with j by lia. rewrite Hc.
    destruct (color_matches_group c group tyag); [|done].
    intros H. apply IH; [lia|done].
Qed.

Lemma match_steps_at_start colors tyag step rest :
  match_steps colors tyag (step :: rest) 0 = Ok false.
Proof. reflexivity. Qed.

Lemma match_steps_older older colors tyag rsteps n :
  (n <= length colors)%nat ->
  (forall first, last rsteps = Some first ->
                 default "minimum" (s_operator first) = "minimum") ->
  match_steps colors tyag rsteps n = Ok true ->
  match_steps (older ++ colors) tyag rsteps (length older + n) = Ok true.
Proof.
  revert n. induction rsteps as [|step rest IH]; intros n Hn Hlast; [done|].
  destruct n as [|j]; [done|].
  replace (length older + S j)%nat with (S (length older + j)) by lia.
  cbn [match_steps match_step].
  destruct (count_of step) as [[count|]|e]; cbn [res_bind]; [|done|done].
  destruct (consume_greedy colors (default [] (s_colors step)) tyag (S j) 0 Hn)
    as (n' & Heq & _).
  rewrite Heq. cbn [res_bind fst snd].
  destruct (operator_fails _ _ _) eqn:Hop; [done|].
  destruct n' as [|i].
  - destruct rest as [|step' rest']; [|done]. intros _.
    destruct (consume_all_shift older colors _ tyag (S j) 0 _ Hn Heq)
      as (n'' & m'' & Heq' & Hle).
    replace (length older + S j)%nat with (S (length older + j)) in Heq' by lia.
    rewrite Heq'. cbn [res_bind fst snd].
    rewrite (Hlast step eq_refl) in *.
    unfold operator_fails in *. cbn in *.
    apply Z.ltb_ge in Hop.
    destruct (Z.ltb_spec m'' count); [lia|done].
  - intros Hrest.
    pose proof (consume_stops_shift older colors _ tyag (S j) 0 i _ Hn Heq) as Heq'.
    replace (length older + S j)%nat with (S (length older + j)) in Heq' by lia.
    rewrite Heq'. cbn [res_bind fst snd]. rewrite Hop.
    apply IH; [| |done].
    + destruct (consume_greedy colors (default [] (s_colors step)) tyag (S j) 0 Hn)
        as (n2 & Heq2 & Hle & _).
      rewrite Heq in Heq2. injection Heq2 as <- _. lia.
    + intros first Hf. apply Hlast. destruct rest; [done|]. exact Hf.
Qed.

(** X2: a sequence whose first step has the operator [minimum] (given or
    by default) and that matches a buffer also matches the buffer with any
    older outcomes before it: the match depends on the recent outcomes
    only. *)
Theorem minimum_match_survives_older_history :
  forall older colors first rest tyag,
    default "minimum" (s_operator first) = "minimum" ->
    match_sequence colors (first :: rest) tyag = Ok true ->
    match_sequence (older ++ colors) (first :: rest) tyag = Ok true.
Proof.
  intros older colors first rest tyag Hop Hm.
  destruct colors as [|c colors]; [done|].
  rewrite match_sequence_steps in Hm.
  assert (Heq : match_sequence (older ++ c :: colors) (first :: rest) tyag =
                match_steps (older ++ c :: colors) tyag (rev (first :: rest))
                  (length older + length (c :: colors))).
  { rewrite <- length_app. by destruct older. }
  rewrite Heq. apply match_steps_older; [done| |done].
  intros f Hf. cbn [rev] in Hf.
  rewrite last_snoc in Hf. by injection Hf as <-.
Qed.

(** X2 on four greens and "at least three green or yellow", with two
    older outcomes put before. *)
Lemma minimum_match_survives_older_history_witness :
  match_sequence (["red"; "green"] ++ ["green"; "green"; "green"; "green"])
    [mkStep (Some ["green_yellow"]) None (Val (CInt 3))] true = Ok true.
Proof.
  apply minimum_match_survives_older_history; reflexivity.
Defined.

End MatcherWindow.

(** ** Expansion, accounting and the counters of a state *)

Section EngineEdges.

Import PatternEngine Main Props.

(** X3: the edges of [expand_dynamic_pattern].  A rule that is not
    dynamic is returned alone and unchanged; a dynamic rule with an empty
    list of values expands to nothing; with a value to bind, a rule without
    a name raises [KeyError], and a named rule whose trigger or miss entry
    is [null] raises [TypeError]. *)
Theorem expand_dynamic_pattern_edges :
  (forall rule, r_type rule <> Some "dynamic" ->
                expand_dynamic_pattern rule = Ok [rule]) /\
  (forall rule, r_type rule = Some "dynamic" ->
                r_dynamic_values rule = Some [] ->
                expand_dynamic_pattern rule = Ok []) /\
  (forall rule, r_type rule = Some "dynamic" ->
                default [3; 4; 5; 6; 7; 8] (r_dynamic_values rule) <> [] ->
                r_name rule = None ->
                expand_dynamic_pattern rule = Raise KeyError) /\
  (forall rule name, r_type rule = Some "dynamic" ->
                default [3; 4; 5; 6; 7; 8] (r_dynamic_values rule) <> [] ->
                r_name rule = Some name ->
                r_trigger rule = Null \/ r_miss rule = Null ->
                expand_dynamic_pattern rule = Raise TypeError).
Proof.
  unfold expand_dynamic_pattern. repeat split.
  - intros rule Hne. by rewrite bool_decide_eq_false_2.
  - intros rule Ht Hv. rewrite bool_decide_eq_true_2 by done. by rewrite Hv.
  - intros rule Ht Hv Hn. rewrite bool_decide_eq_true_2 by done. cbn [negb].
    destruct (default _ _) as [|x xs]; [done|].
    cbn [res_map_list]. unfold expand_one. by rewrite Hn.
  - intros rule name Ht Hv Hn Hnull. rewrite bool_decide_eq_true_2 by done. cbn [negb].
    destruct (default _ _) as [|x xs]; [done|].
    cbn [res_map_list]. unfold expand_one. rewrite Hn.
    destruct Hnull as [H|H]; rewrite H; [done|].
    by destruct (r_trigger rule) as [| |[[l|]]].
Qed.

(** X3 on a dynamic rule posted without a trigger. *)
Lemma expand_dynamic_pattern_edges_witness :
  expand_dynamic_pattern Examples.green_or_red = Ok [Examples.green_or_red] /\
  expand_dynamic_pattern Examples.dynamic_null_trigger = Raise TypeError.
Proof.
  split.
  - by apply (proj1 expand_dynamic_pattern_edges).
  - apply (proj2 (proj2 (proj2 expand_dynamic_pattern_edges))
             Examples.dynamic_null_trigger "p"); [done|done|done|by left].
Defined.

Lemma events_of_kind_app key kind l1 l2 :
  events_of_kind key kind (l1 ++ l2) =
  events_of_kind key kind l1 ++ events_of_kind key kind l2.
Proof. apply filter_app. Qed.

Lemma apply_check_counts pid check s key :
  let r := apply_check pid check s in
  total_triggers r.1 =
    total_triggers s + Z.of_nat (length (events_of_kind pid "trigger" r.2)) /\
  total_misses r.1 =
    total_misses s + Z.of_nat (length (events_of_kind pid "miss" r.2)) /\
  (key <> pid -> forall kind, events_of_kind key kind r.2 = []) /\
  (length r.2 <= 1)%nat /\
  Forall (fun ev => ev_pattern_id ev = pid /\ ev_stats ev = r.1 /\
                    (ev_event ev = "trigger" /\ ev_streak ev = trigger_streak r.1 \/
                     ev_event ev = "miss" /\ ev_streak ev = miss_streak r.1)) r.2.
Proof.
  cbv zeta. unfold apply_check, events_of_kind.
  destruct (c_trigger check); [|destruct (c_miss check)]; cbn [fst snd].
  - split; [|split; [|split; [|split]]].
    + rewrite filter_cons_True by done. cbn. lia.
    + rewrite filter_cons_False by (cbn; intros [_ [=]]). cbn. lia.
    + intros Hne kind. by rewrite filter_cons_False by (cbn; intros [? _]; done).
    + cbn. lia.
    + constructor; [|constructor]. cbn. split; [done|]. split; [done|]. by left.
  - split; [|split; [|split; [|split]]].
    + rewrite filter_cons_False by (cbn; intros [_ [=]]). cbn. lia.
    + rewrite filter_cons_True by done. cbn. lia.
    + intros Hne kind. by rewrite filter_cons_False by (cbn; intros [? _]; done).
    + cbn. lia.
    + constructor; [|constructor]. cbn. split; [done|]. split; [done|]. by right.
  - cbn. repeat split; try lia. constructor.
Qed.

Lemma process_patterns_counts colors patterns stats results stats' results' key :
  process_patterns colors patterns stats results = (stats', Ok results') ->
  exists new,
    results' = results ++ new /\
    total_triggers (state_at stats' key) =
      total_triggers (state_at stats key) +
      Z.of_nat (length (events_of_kind key "trigger" new)) /\
    total_misses (state_at stats' key) =
      total_misses (state_at stats key) +
      Z.of_nat (length (events_of_kind key "miss" new)) /\
    (length new <= length (active_keys patterns))%nat /\
    Forall (fun ev => ev_pattern_id ev ∈ active_keys patterns) new.
Proof.
  revert stats results.
  induction patterns as [|[p rule] rest IH]; intros stats results; cbn.
  - intros [= <- <-]. exists []. rewrite app_nil_r. cbn. repeat split; try lia. constructor.
  - destruct (default true (r_active rule)); cbn [negb]; [|apply IH].
    destruct (check_pattern colors rule) as [check|e]; [|done].
    destruct (apply_check p check (default zero_stat (stats !! p))) as [s' evs] eqn:Ha.
    intros Hrest. apply IH in Hrest as (new & -> & Ht & Hm & Hlen & Hids).
    pose proof (apply_check_counts p check (default zero_stat (stats !! p)) key) as Hc.
    rewrite Ha in Hc. cbn [fst snd] in Hc.
    destruct Hc as (Hct & Hcm & Hother & Hone & Hev).
    exists (evs ++ new). split; [by rewrite app_assoc|].
    rewrite !events_of_kind_app, !length_app.
    assert (Hmid : state_at (<[p:=s']> stats) key =
                   if decide (p = key) then s' else state_at stats key).
    { unfold state_at. destruct (decide (p = key)) as [->|Hne].
      - by rewrite lookup_insert_eq.
      - by rewrite lookup_insert_ne. }
    rewrite Hmid in Ht, Hm. cbn [length].
    split; [|split; [|split]].
    + destruct (decide (p = key)) as [->|Hne].
      * unfold state_at at 2. lia.
      * rewrite (Hother (not_eq_sym Hne)). cbn. lia.
    + destruct (decide (p = key)) as [->|Hne].
      * unfold state_at at 2. lia.
      * rewrite (Hother (not_eq_sym Hne)). cbn. lia.
    + lia.
    + apply Forall_app. split.
      * eapply Forall_impl; [exact Hev|]. intros ev (-> & _). left.
      * eapply Forall_impl; [exact Hids|]. intros ev ?. by right.
Qed.

(** X4: the accounting of a round of [process_round] that returns.  For
    every key, the number of trigger matches recorded in its state grows by
    the number of its trigger events in the results, and the number of miss
    matches by the number of its miss events; the results hold at most one
    event per active rule, each for the key of an active rule.  A key that
    no active rule carries keeps its entry, whether the round returns or
    raises. *)
Theorem process_round_accounting :
  (forall patterns colors stats stats' results key,
      process_round patterns colors stats = (stats', Ok results) ->
      let s := state_at stats key in
      let s' := state_at stats' key in
      total_triggers s' =
        total_triggers s + Z.of_nat (length (events_of_kind key "trigger" results)) /\
      total_misses s' =
        total_misses s + Z.of_nat (length (events_of_kind key "miss" results)) /\
      (length results <= length (active_keys patterns))%nat /\
      Forall (fun ev => ev_pattern_id ev ∈ active_keys patterns) results) /\
  (forall patterns colors stats stats' r key,
      process_round patterns colors stats = (stats', r) ->
      key ∉ active_keys patterns ->
      stats' !! key = stats !! key).
Proof.
  split.
  - intros patterns colors stats stats' results key Hp.
    apply (process_patterns_counts _ _ _ _ _ _ key) in Hp as (new & Hr & H).
    cbn in Hr. by subst new.
  - intros patterns colors stats stats' r key Hp Hk.
    by destruct (process_patterns_other _ _ _ _ _ _ key Hk Hp).
Qed.

(** X4 on one green for the rule "green or red" and on a key of no rule. *)
Lemma process_round_accounting_witness :
  let round := process_round [("1", Examples.green_or_red)] ["green"] ∅ in
  total_triggers (state_at round.1 "1") =
    total_triggers (state_at ∅ "1") +
    Z.of_nat (length (events_of_kind "1" "trigger"
                        [mkEvent "1" "trigger" 1 (mkStat 1 0 1 0 1 0)])) /\
  round.1 !! "2" = (∅ : gmap string PatternState) !! "2".
Proof.
  split.
  - by apply (proj1 process_round_accounting [("1", Examples.green_or_red)] ["green"] ∅).
  - apply (proj2 process_round_accounting [("1", Examples.green_or_red)] ["green"] ∅
             _ (process_round [("1", Examples.green_or_red)] ["green"] ∅).2).
    + by destruct (process_round _ _ _).
    + cbn. by intros [=]%list_elem_of_singleton.
Defined.

Lemma coherent_zero : coherent zero_stat.
Proof. unfold coherent. cbn. lia. Qed.

Lemma apply_check_coherent pid check s :
  coherent s -> coherent (apply_check pid check s).1.
Proof.
  unfold apply_check, coherent.
  destruct (c_trigger check); [|destruct (c_miss check)]; cbn; [| |done].
  - rewrite Z.gtb_ltb.
    destruct (Z.ltb_spec (longest_trigger_streak s) (trigger_streak s + 1)); lia.
  - rewrite Z.gtb_ltb.
    destruct (Z.ltb_spec (longest_miss_streak s) (miss_streak s + 1)); lia.
Qed.

Lemma process_patterns_coherent colors patterns stats results stats' r key :
  process_patterns colors patterns stats results = (stats', r) ->
  coherent (state_at stats key) -> coherent (state_at stats' key).
Proof.
  revert stats results.
  induction patterns as [|[p rule] rest IH]; intros stats results; cbn.
  - by intros [= <- <-].
  - destruct (negb (default true (r_active rule))); [apply IH|].
    destruct (check_pattern colors rule) as [check|e]; [|by intros [= <- <-]].
    destruct (apply_check p check (default zero_stat (stats !! p))) as [s' evs] eqn:Ha.
    intros Hrest Hc. apply IH in Hrest; [done|].
    unfold state_at. destruct (decide (p = key)) as [->|Hne].
    + rewrite lookup_insert_eq. cbn.
      replace s' with (apply_check key check (state_at stats key)).1
        by (unfold state_at; by rewrite Ha).
      by apply apply_check_coherent.
    + by rewrite lookup_insert_ne.
Qed.

Lemma feed_all_coherent st rounds key :
  coherent (state_at (pattern_stats_cache st) key) ->
  coherent (state_at (pattern_stats_cache (feed_all st rounds)) key).
Proof.
  revert st. induction rounds as [|round rounds IH]; intros st Hc; [done|].
  cbn. apply IH. unfold feed, process_round_patterns, process_round.
  destruct (push_round _ _ _ _) as [colors rnds].
  destruct (process_patterns _ _ _ _) as [stats r] eqn:Hp. cbn.
  exact (process_patterns_coherent _ _ _ _ _ _ key Hp Hc).
Qed.

(** X5: the counters of a key stay coherent through any rounds, returning
    or raising: each streak is between zero and the longest streak of its
    kind, and the longest streak is at most the number of matches of that
    kind.  A key that was never written is coherent, so from an empty
    dictionary every key is coherent at all times. *)
Theorem counters_stay_coherent :
  (forall st rounds key,
      coherent (state_at (pattern_stats_cache st) key) ->
      coherent (state_at (pattern_stats_cache (feed_all st rounds)) key)) /\
  (forall st rounds key,
      pattern_stats_cache st = ∅ ->
      let s := state_at (pattern_stats_cache (feed_all st rounds)) key in
      0 <= trigger_streak s <= longest_trigger_streak s /\
      longest_trigger_streak s <= total_triggers s /\
      0 <= miss_streak s <= longest_miss_streak s /\
      longest_miss_streak s <= total_misses s).
Proof.
  split.
  - apply feed_all_coherent.
  - intros st rounds key Hempty. apply (feed_all_coherent st rounds key).
    unfold state_at. rewrite Hempty, lookup_empty. apply coherent_zero.
Qed.

(** X5 on the rule "green or red" through five greens and a red. *)
Lemma counters_stay_coherent_witness :
  coherent (state_at (pattern_stats_cache
                        (feed_all (Examples.fresh "1" Examples.green_or_red)
                           (Examples.greens5 ++ [("red", "R6")]))) "1").
Proof.
  apply (proj2 counters_stay_coherent). reflexivity.
Defined.

End EngineEdges.

(** ** What validation guarantees to the engine *)

Section ValidatedRules.

Import PatternEngine Main Props.

Lemma match_sequence_total colors sequence tyag :
  Forall count_in_schema sequence ->
  exists b, match_sequence colors sequence tyag = Ok b.
Proof.
  intros Hall.
  destruct (match_sequence_as_steps colors sequence tyag) as [->| ->]; [by exists false|].
  apply match_steps_total; [done|]. by apply Forall_rev.
Qed.

Lemma well_formed_in_schema s : step_well_formed s -> count_in_schema s.
Proof.
  intros (_ & _ & _ & Hc) Hnull. by rewrite Hnull in Hc.
Qed.

Lemma check_pattern_total colors rule t m :
  steps_of (r_trigger rule) = Ok t ->
  steps_of (r_miss rule) = Ok m ->
  Forall count_in_schema t ->
  Forall count_in_schema m ->
  exists check, check_pattern colors rule = Ok check.
Proof.
  intros Ht Hm Hft Hfm. unfold check_pattern. rewrite Ht, Hm. cbn [res_bind].
  destruct (match_sequence_total colors t
              (truthy (get_default (r_treat_yellow_as_green rule) true)) Hft) as [bt ->].
  destruct (match_sequence_total colors m
              (truthy (get_default (r_treat_yellow_as_green rule) true)) Hfm) as [bm ->].
  by eexists.
Qed.

Lemma resolve_step_in_schema x s : has_count s -> count_in_schema (resolve_step x s).
Proof.
  intros [v Hv]. unfold count_in_schema, resolve_step. cbn. rewrite Hv. cbn.
  destruct v as [z|str]; cbn; [done|].
  destruct (negb _); [done|]. destruct (Py.all_chars _ _); [|done].
  by destruct (Py.eval _).
Qed.

Lemma rule_steps_ok f l : steps_of f = Ok l -> rule_steps f = l.
Proof. unfold rule_steps. by intros ->. Qed.

Lemma res_map_list_length {A B : Type} (f : A -> res B) l bs :
  res_map_list f l = Ok bs -> length bs = length l.
Proof.
  revert bs. induction l as [|a l IH]; intros bs; cbn.
  - by intros [= <-].
  - destruct (f a); [|done]. cbn.
    destruct (res_map_list f l) as [bs'|]; [|done]. cbn.
    intros [= <-]. cbn. f_equal. by apply IH.
Qed.

Lemma validated_check_total rule colors :
  _validate_rule_json rule = Ok (true, None) ->
  exists check, check_pattern colors rule = Ok check.
Proof.
  intros Hv.
  destruct (validate_rule_json_returns _ _ _ Hv) as [Hwf _].
  destruct (Hwf eq_refl) as (_ & _ & (t & Ht & Hft) & (m & Hm & Hfm) & _).
  apply (check_pattern_total colors rule t m); try done.
  - eapply Forall_impl; [exact Hft|]. apply well_formed_in_schema.
  - eapply Forall_impl; [exact Hfm|]. apply well_formed_in_schema.
Qed.

Lemma validated_subs_check rule :
  _validate_rule_json rule = Ok (true, None) ->
  r_type rule = Some "dynamic" ->
  Forall has_count (rule_steps (r_trigger rule)) ->
  Forall has_count (rule_steps (r_miss rule)) ->
  exists subs,
    expand_dynamic_pattern rule = Ok subs /\
    length subs = length (default [] (r_dynamic_values rule)) /\
    forall sub colors, sub ∈ subs ->
                       exists check, check_pattern colors sub = Ok check.
Proof.
  intros Hv Hdyn Hct Hcm.
  destruct (validate_rule_json_returns _ _ _ Hv) as [Hwf _].
  destruct (Hwf eq_refl) as (_ & Hname & (t & Ht & _) & (m & Hm & _) & Hdvs).
  destruct (Hdvs Hdyn) as (dvs & Hd & _).
  destruct (r_name rule) as [name|] eqn:Hn; [|done].
  assert (Htn : r_trigger rule <> Null) by (intros H; by rewrite H in Ht).
  assert (Hmn : r_miss rule <> Null) by (intros H; by rewrite H in Hm).
  destruct (expand_values_bound rule name dvs Hn Htn Hmn) as (subs & Hsubs & Hbound).
  exists subs. unfold expand_dynamic_pattern.
  rewrite bool_decide_eq_true_2 by done. rewrite Hd. cbn [negb from_option id].
  split; [done|]. split; [by apply res_map_list_length in Hsubs|].
  intros sub colors Hin.
  apply list_elem_of_lookup in Hin as [i Hi].
  destruct (Forall2_lookup_r _ _ _ _ _ Hbound Hi) as (x & _ & _ & _ & Hst & Hsm).
  rewrite (rule_steps_ok _ _ Ht) in Hct. rewrite (rule_steps_ok _ _ Hm) in Hcm.
  apply (check_pattern_total colors sub _ _ (Hst _ Ht) (Hsm _ Hm)).
  - apply Forall_fmap. eapply Forall_impl; [exact Hct|]. apply resolve_step_in_schema.
  - apply Forall_fmap. eapply Forall_impl; [exact Hcm|]. apply resolve_step_in_schema.
Qed.

(** X6: a rule that [_validate_rule_json] accepts can be checked against
    any buffer without an exception.  A dynamic rule that it accepts and
    whose steps all carry a count expands into one sub-rule per dynamic
    value, and each sub-rule can be checked against any buffer without an
    exception. *)
Theorem validated_rule_never_raises :
  (forall rule colors,
      _validate_rule_json rule = Ok (true, None) ->
      exists check, check_pattern colors rule = Ok check) /\
  (forall rule,
      _validate_rule_json rule = Ok (true, None) ->
      r_type rule = Some "dynamic" ->
      Forall has_count (rule_steps (r_trigger rule)) ->
      Forall has_count (rule_steps (r_miss rule)) ->
      exists subs,
        expand_dynamic_pattern rule = Ok subs /\
        length subs = length (default [] (r_dynamic_values rule)) /\
        forall sub colors, sub ∈ subs ->
                           exists check, check_pattern colors sub = Ok check).
Proof.
  split.
  - intros rule colors. apply validated_check_total.
  - apply validated_subs_check.
Qed.

(** X6 on "Pattern 6" with the dynamic values 3, 4, 5. *)
Lemma validated_rule_never_raises_witness :
  exists subs,
    expand_dynamic_pattern Examples.dynamic_345 = Ok subs /\
    length subs = 3%nat /\
    forall sub colors, sub ∈ subs -> exists check, check_pattern colors sub = Ok check.
Proof.
  apply (proj2 validated_rule_never_raises Examples.dynamic_345).
  - reflexivity.
  - reflexivity.
  - repeat constructor; by eexists.
  - repeat constructor; by eexists.
Defined.

Lemma expand_one_trigger rule x sub l :
  expand_one rule x = Ok sub ->
  r_trigger rule = Val (mkBlock (Some l)) ->
  r_trigger sub = Val (mkBlock (Some (resolve_step x <$> l))) /\
  r_miss sub <> Null.
Proof.
  unfold expand_one. destruct (r_name rule); [|done].
  intros H Ht. rewrite Ht in H. cbn in H.
  destruct (r_miss rule) as [| |[[ms|]]]; cbn in H; try done;
    injection H as <-; by cbn.
Qed.

Lemma res_map_list_elem {A B : Type} (f : A -> res B) l bs b :
  res_map_list f l = Ok bs -> b ∈ bs -> exists a, a ∈ l /\ f a = Ok b.
Proof.
  revert bs. induction l as [|a l IH]; intros bs; cbn.
  - intros [= <-] Hin. by apply elem_of_nil in Hin.
  - destruct (f a) as [b'|] eqn:Hfa; [|done]. cbn.
    destruct (res_map_list f l) as [bs'|]; [|done]. cbn.
    intros [= <-] [->|Hin]%elem_of_cons.
    + exists a. split; [left|done].
    + destruct (IH _ eq_refl Hin) as (a' & Ha' & Hf). exists a'. split; [by right|done].
Qed.

(** X7: the validator reads a step without a count as counting 1, the
    expansion writes [null] there.  So for a dynamic rule that the validator
    accepts and whose last trigger step has no count, the expansion
    succeeds with at least one sub-rule, and checking any of its sub-rules
    against any buffer that is not empty raises [TypeError]. *)
Theorem validated_rule_without_count_raises :
  forall rule front step,
    _validate_rule_json rule = Ok (true, None) ->
    r_type rule = Some "dynamic" ->
    r_trigger rule = Val (mkBlock (Some (front ++ [step]))) ->
    s_count step = Absent ->
    exists subs,
      expand_dynamic_pattern rule = Ok subs /\
      subs <> [] /\
      forall sub c colors, sub ∈ subs ->
                           check_pattern (c :: colors) sub = Raise TypeError.
Proof.
  intros rule front step Hv Hdyn Htr Hcount.
  destruct (validate_rule_json_returns _ _ _ Hv) as [Hwf _].
  destruct (Hwf eq_refl) as (_ & Hname & _ & (m & Hm & _) & Hdvs).
  destruct (Hdvs Hdyn) as (dvs & Hd & Hne & _).
  destruct (r_name rule) as [name|] eqn:Hn; [|done].
  assert (Htn : r_trigger rule <> Null) by (by rewrite Htr).
  assert (Hmn : r_miss rule <> Null) by (intros H; by rewrite H in Hm).
  destruct (expand_values_bound rule name dvs Hn Htn Hmn) as (subs & Hsubs & Hbound).
  exists subs. unfold expand_dynamic_pattern.
  rewrite bool_decide_eq_true_2 by done. rewrite Hd. cbn [negb from_option id].
  split; [done|]. split.
  { apply Forall2_length in Hbound. destruct dvs; [done|]. by destruct subs. }
  intros sub c colors Hin.
  destruct (res_map_list_elem _ _ _ _ Hsubs Hin) as (x & _ & Hx).
  destruct (expand_one_trigger _ _ _ _ Hx Htr) as [Hts Hms].
  unfold check_pattern. rewrite Hts.
  destruct (steps_of_not_null _ Hms) as [ms ->].
  cbn [steps_of get_default b_steps from_option id res_bind].
  rewrite fmap_app. cbn [fmap list_fmap].
  set (tyag := truthy _).
  destruct (resolve_step x <$> front) as [|s0 rest] eqn:Hfront.
  - cbn. unfold count_of, resolve_step. cbn. by rewrite Hcount.
  - rewrite <- Hfront. clear Hfront.
    assert (Heq : match_sequence (c :: colors)
                    ((resolve_step x <$> front) ++ [resolve_step x step]) tyag =
                  match_steps (c :: colors) tyag
                    (rev ((resolve_step x <$> front) ++ [resolve_step x step]))
                    (length (c :: colors))).
    { by destruct (resolve_step x <$> front). }
    rewrite Heq. rewrite rev_app_distr. cbn [rev app length match_steps match_step].
    unfold count_of at 1. unfold resolve_step at 1. cbn. by rewrite Hcount.
Qed.

(** X7 on a dynamic rule whose only trigger step leaves its count out. *)
Lemma validated_rule_without_count_raises_witness :
  exists subs,
    expand_dynamic_pattern Examples.dynamic_without_count = Ok subs /\
    subs <> [] /\
    forall sub c colors, sub ∈ subs -> check_pattern (c :: colors) sub = Raise TypeError.
Proof.
  apply (validated_rule_without_count_raises Examples.dynamic_without_count []
           (mkStep (Some ["red"]) (Some "minimum") Absent)); reflexivity.
Defined.

End ValidatedRules.

(** ** Rule keys *)

Section Keys.

Import PatternEngine Main Props.

Lemma lstrip_by_none p s :
  Py.all_chars (fun c => negb (p c)) s = true -> Py.lstrip_by p s = s.
Proof.
  destruct s as [|c r]; [done|]. cbn. intros [Hc _]%andb_prop.
  by destruct (p c).
Qed.

Lemma rstrip_by_none p s :
  Py.all_chars (fun c => negb (p c)) s = true -> Py.rstrip_by p s = s.
Proof.
  induction s as [|c r IH]; [done|]. cbn. intros [Hc Hr]%andb_prop.
  rewrite (IH Hr). by destruct (p c).
Qed.

Lemma strip_by_none p s :
  Py.all_chars (fun c => negb (p c)) s = true -> Py.strip_by p s = s.
Proof.
  intros H. unfold Py.strip_by. rewrite (lstrip_by_none p s H). by apply rstrip_by_none.
Qed.

Lemma sum_char_not_int_space c : sum_char c = true -> negb (Py.int_space_char c) = true.
Proof. destruct c as [[] [] [] [] [] [] [] []]; by vm_compute. Qed.

Lemma int_digits_uint d acc :
  Py.int_digits (NilEmpty.string_of_uint d) acc true = Some (digits_val d acc).
Proof.
  revert acc. induction d; intros acc; cbn; try done; apply IHd.
Qed.

Lemma int_uint d :
  d <> Decimal.Nil ->
  Py.int (NilEmpty.string_of_uint d) = Some (digits_val d 0).
Proof.
  intros Hd. unfold Py.int.
  rewrite strip_by_none.
  2:{ apply (all_chars_impl Py.isdecimal_char); [|apply uint_chars].
      intros c Hc. apply sum_char_not_int_space. by apply decimal_sum_char. }
  destruct d; try done; cbn; apply int_digits_uint.
Qed.

Lemma int_str z : Py.int (Py.str z) = Some z.
Proof.
  destruct z as [|p|p]; [done| |].
  - rewrite str_pos, int_uint by apply to_uint_head. by rewrite to_uint_val.
  - rewrite str_neg. unfold Py.int.
    rewrite strip_by_none.
    2:{ rewrite <- str_neg. apply (all_chars_impl sum_char); [|apply str_chars].
        apply sum_char_not_int_space. }
    cbn [fmap option_fmap option_map].
    destruct (to_uint_head p) as [Hnil _].
    assert (H : Py.int_digits (NilEmpty.string_of_uint (Pos.to_uint p)) 0 false =
                Some (Z.pos p)).
    { rewrite <- (to_uint_val p). destruct (Pos.to_uint p); try done; cbn;
        apply int_digits_uint. }
    by rewrite H.
Qed.

Lemma mem_char_app c s1 s2 :
  Py.mem_char c (s1 +:+ s2) = Py.mem_char c s1 || Py.mem_char c s2.
Proof.
  induction s1 as [|d r IH]; [done|].
  rewrite append_String. cbn. rewrite IH. by rewrite orb_assoc.
Qed.

Lemma mem_char_none p c s :
  Py.all_chars p s = true -> p c = false -> Py.mem_char c s = false.
Proof.
  intros Hs Hc. induction s as [|d r IH]; [done|].
  cbn in *. apply andb_prop in Hs as [Hd Hr]. rewrite (IH Hr), orb_false_r.
  destruct (Ascii.eqb_spec c d) as [->|]; [congruence|done].
Qed.

Lemma mem_char_str c z : sum_char c = false -> Py.mem_char c (Py.str z) = false.
Proof. intros Hc. by apply (mem_char_none sum_char); [apply str_chars|]. Qed.

Lemma split_head_app sep s rest :
  Py.mem_char sep s = false ->
  Py.split_head sep (s +:+ String sep rest) = s.
Proof.
  induction s as [|d r IH].
  - intros _. rewrite append_empty. cbn. by rewrite Ascii.eqb_refl.
  - cbn. intros [Hd Hr]%orb_false_elim. rewrite append_String. cbn.
    rewrite Ascii.eqb_sym, Hd. by rewrite (IH Hr).
Qed.

Lemma split_tail_app sep s rest :
  Py.mem_char sep s = false ->
  Py.split_tail sep (s +:+ String sep rest) = rest.
Proof.
  induction s as [|d r IH].
  - intros _. rewrite append_empty. cbn. by rewrite Ascii.eqb_refl.
  - cbn. intros [Hd Hr]%orb_false_elim. rewrite append_String. cbn.
    rewrite Ascii.eqb_sym, Hd. by apply IH.
Qed.

Lemma base_id_plain z : base_pattern_id (Py.str z) = Ok z.
Proof.
  unfold base_pattern_id. rewrite !mem_char_str by done. by rewrite int_str.
Qed.

Lemma base_id_colon z rest : base_pattern_id (Py.str z +:+ ":" +:+ rest) = Ok z.
Proof.
  change (":" +:+ rest) with (String ":" rest).
  unfold base_pattern_id. rewrite mem_char_app. cbn [Py.mem_char].
  rewrite Ascii.eqb_refl, orb_true_r.
  rewrite split_head_app by (by apply mem_char_str). by rewrite int_str.
Qed.

Lemma base_id_underscore z rest :
  Py.mem_char ":" rest = false ->
  base_pattern_id (Py.str z +:+ "_" +:+ rest) = Ok z.
Proof.
  intros Hrest. change ("_" +:+ rest) with (String "_" rest).
  unfold base_pattern_id. rewrite !mem_char_app. cbn [Py.mem_char].
  rewrite (mem_char_str ":"), (mem_char_str "_") by done. rewrite Hrest.
  rewrite Ascii.eqb_refl. cbn [Ascii.eqb Bool.eqb orb].
  rewrite split_head_app by (by apply mem_char_str). by rewrite int_str.
Qed.

(** X8: the key of a rule decodes to its identifier.  [str(id)], the key
    of a static rule, [str(id) + ":" + sub_key], the key of a sub-rule, and
    [str(id) + "_" + rest] with no colon in [rest] all give [id] back
    through the identifier parsing of [save_streak_history] and
    [check_and_fire_alert]; the part after the first colon is the sub-key
    the history loop stores. *)
Theorem pattern_key_round_trip :
  (forall id, base_pattern_id (Py.str id) = Ok id) /\
  (forall id rest, base_pattern_id (Py.str id +:+ ":" +:+ rest) = Ok id) /\
  (forall id rest, Py.mem_char ":" rest = false ->
                   base_pattern_id (Py.str id +:+ "_" +:+ rest) = Ok id) /\
  (forall id rest, Py.mem_char ":" (Py.str id) = false /\
                   Py.split_tail ":" (Py.str id +:+ ":" +:+ rest) = rest).
Proof.
  split; [|split; [|split]].
  - apply base_id_plain.
  - apply base_id_colon.
  - apply base_id_underscore.
  - intros id rest. split; [by apply mem_char_str|].
    change (":" +:+ rest) with (String ":" rest).
    apply split_tail_app. by apply mem_char_str.
Qed.

(** X8 on the key of an alert cooldown entry. *)
Lemma pattern_key_round_trip_witness :
  base_pattern_id (Py.str 12 +:+ "_" +:+ "trigger_streak") = Ok 12.
Proof.
  by apply (proj1 (proj2 (proj2 pattern_key_round_trip))).
Defined.

End Keys.

(** ** The buffers and a reload *)

Section Buffers.

Import PatternEngine Main Props.

Lemma load_recent_colors_drop table :
  load_recent_colors table =
  (rd_color <$> drop (length table - MAX_COLORS_BUFFER) table,
   rd_round_number <$> drop (length table - MAX_COLORS_BUFFER) table).
Proof.
  unfold load_recent_colors.
  by rewrite reverse_take, length_reverse, reverse_involutive.
Qed.

Lemma push_round_reload table color round_number :
  push_round color round_number (load_recent_colors table).1 (load_recent_colors table).2 =
  load_recent_colors (table ++ [mkRoundRow round_number color]).
Proof.
  rewrite !load_recent_colors_drop. cbn [fst snd]. unfold push_round.
  rewrite length_app, length_fmap, length_drop, length_app. cbn [length].
  destruct (decide (length table < MAX_COLORS_BUFFER)%nat) as [Hlt|Hge].
  - replace (length table - MAX_COLORS_BUFFER)%nat with O by lia.
    replace (length table + 1 - MAX_COLORS_BUFFER)%nat with O by lia.
    rewrite !drop_0, Nat.sub_0_r.
    destruct (Nat.ltb_spec MAX_COLORS_BUFFER (length table + 1)); [lia|].
    by rewrite !fmap_app.
  - destruct (Nat.ltb_spec MAX_COLORS_BUFFER
                (length table - (length table - MAX_COLORS_BUFFER) + 1)); [|lia].
    replace (length table + 1 - MAX_COLORS_BUFFER)%nat
      with (S (length table - MAX_COLORS_BUFFER)) by lia.
    change [color] with (rd_color <$> [mkRoundRow round_number color]).
    change [round_number] with (rd_round_number <$> [mkRoundRow round_number color]).
    rewrite <- !fmap_app.
    assert (Hd : forall {A} (l : list A), tail l = drop 1 l) by (by intros A []).
    rewrite !Hd, <- !fmap_drop. f_equal; f_equal.
    + rewrite <- (drop_app_le table) by lia. by rewrite drop_drop, Nat.add_1_r.
    + rewrite <- (drop_app_le table) by lia. by rewrite drop_drop, Nat.add_1_r.
Qed.

Lemma feed_buffers st round :
  (recent_colors (feed st round), recent_rounds (feed st round)) =
  push_round round.1 round.2 (recent_colors st) (recent_rounds st).
Proof.
  unfold feed, process_round_patterns.
  destruct (push_round _ _ _ _) as [colors rounds].
  by destruct (process_round _ _ _).
Qed.

Lemma feed_all_reload st rounds table :
  (recent_colors st, recent_rounds st) = load_recent_colors table ->
  let st' := feed_all st rounds in
  (recent_colors st', recent_rounds st') =
  load_recent_colors (table ++ ((fun r => mkRoundRow r.2 r.1) <$> rounds)).
Proof.
  revert st table. induction rounds as [|round rounds IH]; intros st table Hst.
  - cbn. by rewrite app_nil_r.
  - cbn [feed_all foldl fmap list_fmap]. cbv zeta.
    rewrite cons_middle, app_assoc. apply IH.
    rewrite feed_buffers, <- push_round_reload. by rewrite <- Hst.
Qed.

(** X9: the buffers [load_recent_colors] assigns are the colours and the
    round numbers of the last [MAX_COLORS_BUFFER] rows of the table, oldest
    first, so they are equally long and hold at most [MAX_COLORS_BUFFER]
    entries.  Appending a round to loaded buffers as [process_round_patterns]
    does gives the buffers a reload would assign once the round is in the
    table; so through any rounds, returning or raising, buffers that
    started as a load of the table are what a reload would assign. *)
Theorem buffers_are_a_reload :
  (forall table,
      let newest := drop (length table - MAX_COLORS_BUFFER) table in
      load_recent_colors table = (rd_color <$> newest, rd_round_number <$> newest) /\
      (length (load_recent_colors table).1 <= MAX_COLORS_BUFFER)%nat /\
      length (load_recent_colors table).1 = length (load_recent_colors table).2) /\
  (forall table color round_number,
      push_round color round_number
        (load_recent_colors table).1 (load_recent_colors table).2 =
      load_recent_colors (table ++ [mkRoundRow round_number color])) /\
  (forall st rounds table,
      (recent_colors st, recent_rounds st) = load_recent_colors table ->
      let st' := feed_all st rounds in
      (recent_colors st', recent_rounds st') =
      load_recent_colors (table ++ ((fun r => mkRoundRow r.2 r.1) <$> rounds))).
Proof.
  split; [|split].
  - intros table. cbv zeta. rewrite load_recent_colors_drop. cbn [fst snd].
    split; [done|]. rewrite !length_fmap, length_drop. split; [lia|done].
  - apply push_round_reload.
  - apply feed_all_reload.
Qed.

(** X9 on the rule "green or red" fed five greens from an empty table. *)
Lemma buffers_are_a_reload_witness :
  let st' := feed_all (Examples.fresh "1" Examples.green_or_red) Examples.greens5 in
  (recent_colors st', recent_rounds st') =
  load_recent_colors ([] ++ ((fun r => mkRoundRow r.2 r.1) <$> Examples.greens5)).
Proof.
  apply (proj2 (proj2 buffers_are_a_reload)). reflexivity.
Defined.

End Buffers.

(** ** Simulation and the live engine *)

Section Simulation.

Import PatternEngine Main Props.

Lemma apply_check_sim key check s :
  (apply_check key check (stat_of_sim s)).1 = stat_of_sim (sim_step check s).
Proof.
  unfold apply_check, sim_step, on_trigger, on_miss, stat_of_sim.
  destruct (c_trigger check); [done|]. by destruct (c_miss check).
Qed.

Lemma feed_single st key r c rn check :
  patterns st = [(key, r)] ->
  default true (r_active r) = true ->
  (length (recent_colors st) < MAX_COLORS_BUFFER)%nat ->
  check_pattern (recent_colors st ++ [c]) r = Ok check ->
  let st' := feed st (c, rn) in
  patterns st' = [(key, r)] /\
  recent_colors st' = recent_colors st ++ [c] /\
  state_at (pattern_stats_cache st') key =
    (apply_check key check (state_at (pattern_stats_cache st) key)).1.
Proof.
  intros Hp Ha Hlen Hc. cbv zeta. unfold feed, process_round_patterns, push_round.
  cbn [fst snd]. rewrite length_app. cbn [length].
  destruct (Nat.ltb_spec MAX_COLORS_BUFFER (length (recent_colors st) + 1)); [lia|].
  unfold process_round. rewrite Hp. cbn [process_patterns]. rewrite Ha. cbn [negb].
  rewrite Hc. unfold state_at at 2.
  destruct (apply_check key check _) as [s' evs] eqn:Hs'. cbn.
  split; [done|]. split; [done|]. unfold state_at. by rewrite lookup_insert_eq.
Qed.

Lemma simulate_loop_feed key r rounds pre st s s' :
  patterns st = [(key, r)] ->
  default true (r_active r) = true ->
  recent_colors st = pre ->
  (length pre + length rounds <= MAX_COLORS_BUFFER)%nat ->
  state_at (pattern_stats_cache st) key = stat_of_sim s ->
  simulate_loop (pre ++ rounds.*1) r (seq (S (length pre)) (length rounds)) s = Ok s' ->
  state_at (pattern_stats_cache (feed_all st rounds)) key = stat_of_sim s'.
Proof.
  revert pre st s. induction rounds as [|[c rn] rounds IH]; intros pre st s Hp Ha Hpre Hlen Hs.
  - cbn. by intros [= <-].
  - cbn [length seq simulate_loop fmap list_fmap fst].
    assert (Ht : take (S (length pre)) (pre ++ c :: rounds.*1) = pre ++ [c]).
    { replace (pre ++ c :: rounds.*1) with ((pre ++ [c]) ++ rounds.*1)
        by (by rewrite <- app_assoc).
      apply take_app_length'. rewrite length_app. cbn. lia. }
    rewrite Ht.
    destruct (check_pattern (pre ++ [c]) r) as [check|] eqn:Hc; [|done].
    cbn [res_bind]. intros Hloop.
    cbn [length] in Hlen.
    destruct (feed_single st key r c rn check Hp Ha) as (Hp' & Hc' & Hs').
    { rewrite Hpre. lia. }
    { by rewrite Hpre. }
    cbn [feed_all foldl].
    apply (IH (pre ++ [c]) (feed st (c, rn)) (sim_step check s)); try done.
    + by rewrite Hc', Hpre.
    + rewrite length_app. cbn. lia.
    + by rewrite Hs', Hs, apply_check_sim.
    + rewrite <- app_assoc. cbn [app]. rewrite length_app. cbn [length].
      by rewrite Nat.add_1_r.
Qed.

Lemma sim_step_bounds check s :
  coherent (stat_of_sim s) ->
  coherent (stat_of_sim (sim_step check s)) /\
  triggers s <= triggers (sim_step check s) /\
  misses s <= misses (sim_step check s) /\
  triggers (sim_step check s) + misses (sim_step check s) <= triggers s + misses s + 1.
Proof.
  intros Hc. rewrite <- (apply_check_sim "" check s).
  split; [by apply apply_check_coherent|].
  unfold sim_step. destruct (c_trigger check); [|destruct (c_miss check)]; cbn; lia.
Qed.

Lemma simulate_loop_bounds colors r indices s s' :
  simulate_loop colors r indices s = Ok s' ->
  coherent (stat_of_sim s) ->
  coherent (stat_of_sim s') /\
  triggers s' + misses s' <= triggers s + misses s + Z.of_nat (length indices).
Proof.
  revert s. induction indices as [|i rest IH]; intros s; cbn [simulate_loop].
  - intros [= <-] Hc. split; [done|]. cbn. lia.
  - destruct (check_pattern _ r) as [check|]; [|done]. cbn [res_bind].
    intros Hloop Hc. destruct (sim_step_bounds check s Hc) as (Hc' & _ & _ & Hsum).
    destruct (IH _ Hloop Hc') as [Hc'' Hsum']. split; [done|]. cbn [length]. lia.
Qed.

Lemma simulate_rule_bounds colors r s :
  simulate_rule colors r = Ok s ->
  0 <= sim_trigger_streak s <= max_trigger_streak s /\
  max_trigger_streak s <= triggers s /\
  0 <= sim_miss_streak s <= max_miss_streak s /\
  max_miss_streak s <= misses s /\
  triggers s + misses s <= Z.of_nat (length colors).
Proof.
  intros Hsim.
  destruct (simulate_loop_bounds _ _ _ _ _ Hsim) as [(H1 & H2 & H3 & H4) Hsum].
  { apply coherent_zero. }
  rewrite length_seq in Hsum. cbn in *. lia.
Qed.

Lemma simulate_entries_bounds pattern_name colors rules entries :
  res_map_list
    (fun r =>
       try! s <- simulate_rule colors r;
       Ok (mkSimEntry (default pattern_name (r_name r)) (triggers s) (misses s)
             (max_trigger_streak s) (max_miss_streak s))) rules = Ok entries ->
  length entries = length rules /\
  Forall (fun e => 0 <= se_max_trigger_streak e <= se_total_triggers e /\
                   0 <= se_max_miss_streak e <= se_total_misses e /\
                   se_total_triggers e + se_total_misses e <= Z.of_nat (length colors))
         entries.
Proof.
  intros H. split; [by apply res_map_list_length in H|].
  apply Forall_forall. intros e He.
  destruct (res_map_list_elem _ _ _ _ H He) as (r & _ & Hr).
  destruct (simulate_rule colors r) as [s|] eqn:Hs; [|done]. cbn in Hr.
  injection Hr as <-. cbn. apply simulate_rule_bounds in Hs. lia.
Qed.

(** X10: the simulation of a rule and the live engine agree.  For an
    active rule and at most [MAX_COLORS_BUFFER] rounds, when the simulation
    over the colours of the rounds returns, its counters are the state the
    engine holds for the rule after processing the same rounds from an
    empty start: totals, current streaks and longest streaks coincide.
    Whenever the simulation returns, its streaks are between zero and its
    longest streaks, these are at most its totals, and triggers and misses
    together are at most the number of rounds.  The answer of
    [api_pattern_simulate] has one entry for a static rule and one per
    sub-rule for a dynamic one, each within these bounds. *)
Theorem simulation_agrees_with_engine :
  (forall key r rounds s,
      default true (r_active r) = true ->
      (length rounds <= MAX_COLORS_BUFFER)%nat ->
      simulate_rule rounds.*1 r = Ok s ->
      state_at (pattern_stats_cache (feed_all (mkApp [(key, r)] [] [] ∅) rounds)) key =
      mkStat (sim_trigger_streak s) (sim_miss_streak s) (triggers s) (misses s)
        (max_trigger_streak s) (max_miss_streak s)) /\
  (forall colors r s,
      simulate_rule colors r = Ok s ->
      0 <= sim_trigger_streak s <= max_trigger_streak s /\
      max_trigger_streak s <= triggers s /\
      0 <= sim_miss_streak s <= max_miss_streak s /\
      max_miss_streak s <= misses s /\
      triggers s + misses s <= Z.of_nat (length colors)) /\
  (forall pattern_name rule colors entries,
      api_pattern_simulate pattern_name rule colors = Ok entries ->
      (r_type rule <> Some "dynamic" -> length entries = 1%nat) /\
      (forall subs, r_type rule = Some "dynamic" ->
                    expand_dynamic_pattern rule = Ok subs ->
                    length entries = length subs) /\
      Forall (fun e => 0 <= se_max_trigger_streak e <= se_total_triggers e /\
                       0 <= se_max_miss_streak e <= se_total_misses e /\
                       se_total_triggers e + se_total_misses e
                         <= Z.of_nat (length colors))
             entries).
Proof.
  split; [|split].
  - intros key r rounds s Ha Hlen Hsim.
    apply (simulate_loop_feed key r rounds [] _ sim_start); try done.
    unfold simulate_rule in Hsim. by rewrite length_fmap in Hsim.
  - apply simulate_rule_bounds.
  - intros pattern_name rule colors entries. unfold api_pattern_simulate.
    case_bool_decide as Hd.
    + destruct (expand_dynamic_pattern rule) as [subs|]; [|done]. cbn [res_bind].
      intros [Hlen Hall]%simulate_entries_bounds.
      split; [done|]. split; [|done]. by intros subs' _ [= <-].
    + cbn [res_bind]. intros [Hlen Hall]%simulate_entries_bounds.
      split; [done|]. split; [done|done].
Qed.

(** X10 on the rule "green or red" and five green rounds. *)
Lemma simulation_agrees_with_engine_witness :
  state_at (pattern_stats_cache
              (feed_all (mkApp [("1", Examples.green_or_red)] [] [] ∅) Examples.greens5)) "1" =
  mkStat 5 0 5 0 5 0.
Proof.
  apply (proj1 simulation_agrees_with_engine "1" Examples.green_or_red Examples.greens5
           (mkSim 5 0 5 0 5 0)).
  - reflexivity.
  - unfold MAX_COLORS_BUFFER. cbn. lia.
  - by vm_compute.
Defined.

End Simulation.

(** ** Loading the rules into the engine *)

Section Loading.

Import PatternEngine Main Props.

Lemma res_map_list_Forall2 {A B : Type} (f : A -> res B) l bs :
  res_map_list f l = Ok bs -> Forall2 (fun a b => f a = Ok b) l bs.
Proof.
  revert bs. induction l as [|a l IH]; intros bs; cbn.
  - intros [= <-]. constructor.
  - destruct (f a) as [b|] eqn:Hfa; [|done]. cbn.
    destruct (res_map_list f l) as [bs'|]; [|done]. cbn.
    intros [= <-]. constructor; [done|]. by apply IH.
Qed.

Lemma expand_one_fields rule x sub :
  expand_one rule x = Ok sub ->
  r_dynamic_x sub = Some x /\ r_active sub = r_active rule /\ r_type sub = r_type rule.
Proof.
  unfold expand_one. destruct (r_name rule); [|done].
  destruct (resolve_block x (r_trigger rule)); [|done]. cbn.
  destruct (resolve_block x (r_miss rule)); [|done]. cbn.
  by intros [= <-].
Qed.

Lemma expand_one_set_active rule a x :
  expand_one (set_active rule a) x =
  match expand_one rule x with
  | Ok sub => Ok (set_active sub a)
  | Raise e => Raise e
  end.
Proof.
  unfold expand_one, set_active. cbn. destruct (r_name rule); [|done].
  destruct (resolve_block x (r_trigger rule)); [|done]. cbn.
  by destruct (resolve_block x (r_miss rule)).
Qed.

Lemma res_map_list_ext {A B : Type} (f g : A -> res B) l :
  (forall a, f a = g a) -> res_map_list f l = res_map_list g l.
Proof.
  intros H. induction l as [|a l IH]; [done|]. cbn. by rewrite H, IH.
Qed.

Lemma res_map_list_post {A B C : Type} (f : A -> res B) (h : B -> C) l :
  res_map_list (fun a => match f a with Ok b => Ok (h b) | Raise e => Raise e end) l =
  match res_map_list f l with
  | Ok bs => Ok (h <$> bs)
  | Raise e => Raise e
  end.
Proof.
  induction l as [|a l IH]; [done|]. cbn. destruct (f a); [|done]. cbn.
  rewrite IH. by destruct (res_map_list f l).
Qed.

Lemma expand_set_active rule a :
  r_type rule = Some "dynamic" ->
  expand_dynamic_pattern (set_active rule a) =
  match expand_dynamic_pattern rule with
  | Ok subs => Ok ((fun sub => set_active sub a) <$> subs)
  | Raise e => Raise e
  end.
Proof.
  intros Hd. unfold expand_dynamic_pattern. cbn [set_active r_type r_dynamic_values].
  rewrite bool_decide_eq_true_2 by done. cbn [negb].
  rewrite (res_map_list_ext _ _ _ (expand_one_set_active rule a)).
  apply res_map_list_post.
Qed.

Lemma expand_dynamic_keys rule id subs :
  r_type rule = Some "dynamic" ->
  expand_dynamic_pattern rule = Ok subs ->
  sub_pattern_key id <$> subs =
  (fun x => Py.str id +:+ ":X=" +:+ Py.str x)
    <$> default [3; 4; 5; 6; 7; 8] (r_dynamic_values rule) /\
  Forall (fun sub => r_active sub = r_active rule) subs.
Proof.
  intros Hd. unfold expand_dynamic_pattern.
  rewrite bool_decide_eq_true_2 by done. cbn [negb].
  intros H%res_map_list_Forall2.
  induction H as [|x sub xs subs Hx _ [IH1 IH2]]; [by split|].
  destruct (expand_one_fields _ _ _ Hx) as (Hdx & Hact & _).
  split.
  - cbn [fmap list_fmap]. f_equal; [|exact IH1].
    unfold sub_pattern_key, sub_key_of. by rewrite Hdx.
  - by constructor.
Qed.

Lemma engine_entries_keys p entries :
  engine_entries p = Ok entries ->
  entries.*1 = row_keys p /\
  Forall (fun kr => r_active kr.2 = Some (p_active p)) entries.
Proof.
  unfold engine_entries, row_keys. cbn [set_active r_type].
  case_bool_decide as Hd.
  - rewrite (expand_set_active _ _ Hd).
    destruct (expand_dynamic_pattern (p_rule_json p)) as [subs|] eqn:He; [|done].
    cbn [res_bind]. intros [= <-].
    destruct (expand_dynamic_keys _ (p_id p) _ Hd He) as [Hk _].
    rewrite <- Hk. split.
    + rewrite <- !list_fmap_compose. apply list_fmap_ext. intros i sub _. cbn.
      unfold sub_pattern_key, sub_key_of. by cbn.
    + apply Forall_fmap, Forall_fmap. by apply Forall_true.
  - intros [= <-]. split; [done|]. by repeat constructor.
Qed.

Lemma pattern_list_keys rows pl :
  pattern_list_of rows = Ok pl ->
  pl.*1 = mjoin (row_keys <$> rows) /\
  Forall (fun kr => exists p, p ∈ rows /\ r_active kr.2 = Some (p_active p)) pl.
Proof.
  revert pl. induction rows as [|p rows IH]; intros pl; cbn.
  - intros [= <-]. by split.
  - destruct (engine_entries p) as [entries|] eqn:He; [|done]. cbn.
    destruct (pattern_list_of rows) as [more|]; [|done]. cbn.
    intros [= <-]. destruct (engine_entries_keys _ _ He) as [Hk Ha].
    destruct (IH _ eq_refl) as [IHk IHa].
    split; [by rewrite fmap_app, Hk, IHk|].
    apply Forall_app. split.
    + eapply Forall_impl; [exact Ha|]. intros kr Hkr. exists p. split; [left|done].
    + eapply Forall_impl; [exact IHa|]. intros kr (p' & Hp' & Hkr).
      exists p'. split; [by right|done].
Qed.

Lemma active_keys_all patterns :
  Forall (fun kr : string * Rule => r_active kr.2 = Some true) patterns ->
  active_keys patterns = patterns.*1.
Proof.
  induction 1 as [|[k r] rest Hr _ IH]; [done|].
  cbn in *. rewrite Hr. cbn. by rewrite IH.
Qed.

Lemma row_keys_base p key :
  key ∈ row_keys p -> base_pattern_id key = Ok (p_id p).
Proof.
  unfold row_keys. case_bool_decide.
  - intros (x & -> & _)%list_elem_of_fmap.
    change (":X=" +:+ Py.str x) with (":" +:+ "X=" +:+ Py.str x).
    apply base_id_colon.
  - intros ->%list_elem_of_singleton. apply base_id_plain.
Qed.

Lemma row_keys_nodup p :
  NoDup (default [3; 4; 5; 6; 7; 8] (r_dynamic_values (p_rule_json p))) ->
  NoDup (row_keys p).
Proof.
  intros Hnd. unfold row_keys. case_bool_decide; [|apply NoDup_singleton].
  apply NoDup_fmap_2; [|done].
  intros x y Hxy. apply append_inj_l in Hxy.
  change (":X=" +:+ Py.str x) with ("" +:+ ":X=" +:+ Py.str x) in Hxy.
  apply str_inj. by apply (append_inj_l ":X=").
Qed.

Lemma keys_nodup rows :
  NoDup (p_id <$> rows) ->
  Forall (fun p => NoDup (default [3; 4; 5; 6; 7; 8]
                            (r_dynamic_values (p_rule_json p)))) rows ->
  NoDup (mjoin (row_keys <$> rows)).
Proof.
  induction rows as [|p rows IH]; [constructor|].
  cbn [fmap list_fmap mjoin list_join]. intros [Hp Hids]%NoDup_cons [Hv Hvs]%Forall_cons.
  apply NoDup_app. split; [by apply row_keys_nodup|]. split; [|by apply IH].
  intros key Hk Hin. apply row_keys_base in Hk.
  apply list_elem_of_join in Hin as (ks & Hin & Hks).
  apply list_elem_of_fmap in Hks as (p' & -> & Hp').
  apply row_keys_base in Hin. rewrite Hk in Hin. injection Hin as Heq.
  apply Hp. rewrite Heq. apply list_elem_of_fmap. by exists p'.
Qed.

Lemma load_keys_spec :
  forall rows table loaded,
    load_patterns_to_engine rows table = Ok loaded ->
    (l_patterns loaded).*1 = mjoin (row_keys <$> selected rows) /\
    active_keys (l_patterns loaded) = (l_patterns loaded).*1 /\
    (forall key, key ∈ (l_patterns loaded).*1 ->
                 exists p, p ∈ selected rows /\ base_pattern_id key = Ok (p_id p)) /\
    (NoDup (p_id <$> selected rows) ->
     Forall (fun p => NoDup (default [3; 4; 5; 6; 7; 8]
                               (r_dynamic_values (p_rule_json p)))) (selected rows) ->
     NoDup (active_keys (l_patterns loaded))).
Proof.
  intros rows table loaded. unfold load_patterns_to_engine. fold (selected rows).
  destruct (pattern_list_of (selected rows)) as [pl|] eqn:Hpl; [|done]. cbn [res_bind].
  destruct (cache_rows _ _) as [store|]; [|done]. cbn [res_bind].
  intros [= <-]. cbn [l_patterns].
  destruct (pattern_list_keys _ _ Hpl) as [Hk Ha].
  assert (Hact : active_keys pl = pl.*1).
  { apply active_keys_all. eapply Forall_impl; [exact Ha|].
    intros kr (p & Hp & ->). f_equal.
    by apply list_elem_of_filter in Hp as [? _]. }
  split; [done|]. split; [done|]. split.
  - intros key. rewrite Hk. intros (ks & Hin & Hks)%list_elem_of_join.
    apply list_elem_of_fmap in Hks as (p & -> & Hp).
    exists p. split; [done|]. by apply row_keys_base.
  - intros Hids Hvs. rewrite Hact, Hk. by apply keys_nodup.
Qed.

(** X11: the keys [load_patterns_to_engine] gives to the engine.  When it
    returns, the engine holds, in the order of the selected rows, one entry
    under [str(id)] for a static rule and one entry under
    [str(id) + ":X=" + str(x)] for every dynamic value [x] of a dynamic
    rule; every entry is active; every key decodes to the identifier of its
    row; and when the identifiers of the rows are distinct and no rule
    lists a dynamic value twice, no two entries share a key. *)
Theorem loaded_engine_keys :
  forall rows table loaded,
    load_patterns_to_engine rows table = Ok loaded ->
    (l_patterns loaded).*1 = mjoin (row_keys <$> selected rows) /\
    active_keys (l_patterns loaded) = (l_patterns loaded).*1 /\
    (forall key, key ∈ (l_patterns loaded).*1 ->
                 exists p, p ∈ selected rows /\ base_pattern_id key = Ok (p_id p)) /\
    (NoDup (p_id <$> selected rows) ->
     Forall (fun p => NoDup (default [3; 4; 5; 6; 7; 8]
                               (r_dynamic_values (p_rule_json p)))) (selected rows) ->
     NoDup (active_keys (l_patterns loaded))).
Proof. exact load_keys_spec. Qed.

(** X11 on a static and a dynamic row. *)
Lemma loaded_engine_keys_witness :
  exists loaded,
    load_patterns_to_engine Examples.two_rows ∅ = Ok loaded /\
    (l_patterns loaded).*1 = ["1"; "2:X=3"; "2:X=4"; "2:X=5"] /\
    NoDup (active_keys (l_patterns loaded)).
Proof.
  destruct (load_patterns_to_engine Examples.two_rows ∅) as [loaded|] eqn:Hl;
    [|by vm_compute in Hl].
  exists loaded. split; [done|].
  destruct (loaded_engine_keys _ _ _ Hl) as (Hk & _ & _ & Hnd).
  split; [by rewrite Hk|]. apply Hnd.
  - apply (bool_decide_unpack _). by vm_compute.
  - repeat constructor; apply (bool_decide_unpack _); by vm_compute.
Defined.

End Loading.

(** ** The cache after loading *)

Section LoadedCache.

Import PatternEngine Main Props.

Lemma sub_key_inj id x id' x' :
  Py.str id +:+ ":X=" +:+ Py.str x = Py.str id' +:+ ":X=" +:+ Py.str x' ->
  id = id' /\ x = x'.
Proof.
  intros Heq.
  assert (Hid : id = id').
  { pose proof (base_id_colon id ("X=" +:+ Py.str x)) as H1.
    pose proof (base_id_colon id' ("X=" +:+ Py.str x')) as H2.
    change (":" +:+ "X=" +:+ Py.str x) with (":X=" +:+ Py.str x) in H1.
    change (":" +:+ "X=" +:+ Py.str x') with (":X=" +:+ Py.str x') in H2.
    rewrite Heq, H2 in H1. by injection H1. }
  subst id'. split; [done|]. apply append_inj_l in Heq.
  apply str_inj. by apply (append_inj_l ":X=").
Qed.

Lemma plain_key_not_sub id id' x : Py.str id <> Py.str id' +:+ ":X=" +:+ Py.str x.
Proof.
  intros Heq.
  assert (H : Py.mem_char ":" (Py.str id) = true).
  { rewrite Heq, mem_char_app.
    change (":X=" +:+ Py.str x) with (String ":" ("X=" +:+ Py.str x)).
    cbn [Py.mem_char]. by rewrite Ascii.eqb_refl, orb_true_r. }
  by rewrite mem_char_str in H.
Qed.

Lemma expand_dynamic_xs rule subs :
  r_type rule = Some "dynamic" ->
  expand_dynamic_pattern rule = Ok subs ->
  r_dynamic_x <$> subs = Some <$> default [3; 4; 5; 6; 7; 8] (r_dynamic_values rule).
Proof.
  intros Hd. unfold expand_dynamic_pattern.
  rewrite bool_decide_eq_true_2 by done. cbn [negb].
  intros H%res_map_list_Forall2.
  induction H as [|x sub xs subs Hx _ IH]; [done|].
  destruct (expand_one_fields _ _ _ Hx) as (Hdx & _).
  cbn [fmap list_fmap]. by f_equal.
Qed.

(** The states the second loop leaves for the values [xs] of one row. *)
Lemma cache_subs_spec id xs subs store :
  r_dynamic_x <$> subs = Some <$> xs ->
  let store' := foldl (cache_sub_rule id) store subs in
  (forall key, default zero_stat (sub_stats store' !! key) =
               default zero_stat (sub_stats store !! key)) /\
  (forall k, k ∉ (fun x => Py.str id +:+ ":X=" +:+ Py.str x) <$> xs ->
             stats_cache store' !! k = stats_cache store !! k) /\
  (forall x, x ∈ xs ->
             stats_cache store' !! (Py.str id +:+ ":X=" +:+ Py.str x) =
             Some (default zero_stat (sub_stats store !! (id, "X=" +:+ Py.str x)))).
Proof.
  revert xs store. induction subs as [|sub subs IH]; intros xs store Hxs; cbv zeta.
  - destruct xs; [|done]. cbn. split; [done|]. split; [done|].
    intros x Hx. by apply elem_of_nil in Hx.
  - destruct xs as [|x0 xs]; [done|]. cbn [fmap list_fmap] in Hxs.
    injection Hxs as Hx0 Hxs. cbn [foldl].
    set (store1 := cache_sub_rule id store sub).
    destruct (IH xs store1 Hxs) as (Hsub & Hother & Hval).
    assert (Hkey : sub_key_of sub = "X=" +:+ Py.str x0)
      by (unfold sub_key_of; by rewrite Hx0).
    assert (Hsub1 : forall key, default zero_stat (sub_stats store1 !! key) =
                                default zero_stat (sub_stats store !! key)).
    { intros key. unfold store1, cache_sub_rule. cbn [sub_stats]. rewrite Hkey.
      destruct (decide ((id, "X=" +:+ Py.str x0) = key)) as [<-|Hne].
      - by rewrite lookup_insert_eq.
      - by rewrite lookup_insert_ne. }
    assert (Hcache1 : forall k,
               stats_cache store1 !! k =
               if decide (k = Py.str id +:+ ":X=" +:+ Py.str x0)
               then Some (default zero_stat (sub_stats store !! (id, "X=" +:+ Py.str x0)))
               else stats_cache store !! k).
    { intros k. unfold store1, cache_sub_rule. cbn [stats_cache].
      unfold sub_pattern_key. rewrite Hkey.
      change (":" +:+ "X=" +:+ Py.str x0) with (":X=" +:+ Py.str x0).
      destruct (decide (k = _)) as [->|Hne].
      - by rewrite lookup_insert_eq.
      - by rewrite lookup_insert_ne. }
    split; [|split].
    + intros key. by rewrite Hsub, Hsub1.
    + intros k Hk. cbn [fmap list_fmap] in Hk. apply not_elem_of_cons in Hk as [Hne Hk].
      rewrite (Hother k Hk), Hcache1. by rewrite decide_False.
    + intros x Hx. destruct (decide (x ∈ xs)) as [Hin|Hnin].
      * rewrite (Hval x Hin). f_equal. apply Hsub1.
      * apply elem_of_cons in Hx as [->|Hx]; [|done].
        rewrite Hother.
        -- rewrite Hcache1. by rewrite decide_True.
        -- intros (x & Heq & Hx)%list_elem_of_fmap.
           apply sub_key_inj in Heq as [_ ->]. done.
Qed.

(** What one row of the second loop does to the cache and to the table
    of the sub-rule states. *)
Lemma cache_row_spec store p store' :
  cache_row store p = Ok store' ->
  (forall key, default zero_stat (sub_stats store' !! key) =
               default zero_stat (sub_stats store !! key)) /\
  (forall k, k ∉ row_keys p -> stats_cache store' !! k = stats_cache store !! k) /\
  (r_type (p_rule_json p) = Some "dynamic" ->
   forall x, x ∈ default [3; 4; 5; 6; 7; 8] (r_dynamic_values (p_rule_json p)) ->
     stats_cache store' !! (Py.str (p_id p) +:+ ":X=" +:+ Py.str x) =
     Some (default zero_stat (sub_stats store !! (p_id p, "X=" +:+ Py.str x)))) /\
  (r_type (p_rule_json p) <> Some "dynamic" ->
   stats_cache store' !! Py.str (p_id p) =
   match p_stats p with
   | Some s => Some s
   | None => stats_cache store !! Py.str (p_id p)
   end).
Proof.
  unfold cache_row, row_keys. case_bool_decide as Hd.
  - destruct (expand_dynamic_pattern (p_rule_json p)) as [subs|] eqn:He; [|done].
    cbn [res_bind]. intros [= <-].
    pose proof (expand_dynamic_xs _ _ Hd He) as Hxs.
    destruct (cache_subs_spec (p_id p) _ subs store Hxs) as (Hsub & Hother & Hval).
    by repeat split.
  - destruct (p_stats p) as [s|]; intros [= <-]; cbn [sub_stats stats_cache].
    + split; [done|]. split; [|split; [done|]].
      * intros k Hk. rewrite lookup_insert_ne; [done|].
        intros <-. apply Hk. left.
      * intros _. by rewrite lookup_insert_eq.
    + by repeat split.
Qed.

Lemma row_keys_form p k :
  k ∈ row_keys p ->
  (r_type (p_rule_json p) <> Some "dynamic" /\ k = Py.str (p_id p)) \/
  (r_type (p_rule_json p) = Some "dynamic" /\
   exists x, x ∈ default [3; 4; 5; 6; 7; 8] (r_dynamic_values (p_rule_json p)) /\
             k = Py.str (p_id p) +:+ ":X=" +:+ Py.str x).
Proof.
  unfold row_keys. case_bool_decide.
  - intros (x & -> & Hx)%list_elem_of_fmap. right. split; [done|]. by exists x.
  - intros ->%list_elem_of_singleton. by left.
Qed.

Lemma cache_rows_spec rows store store' :
  cache_rows store rows = Ok store' ->
  (forall key, default zero_stat (sub_stats store' !! key) =
               default zero_stat (sub_stats store !! key)) /\
  (forall k, Forall (fun p => k ∉ row_keys p) rows ->
             stats_cache store' !! k = stats_cache store !! k) /\
  (forall p x, p ∈ rows ->
     r_type (p_rule_json p) = Some "dynamic" ->
     x ∈ default [3; 4; 5; 6; 7; 8] (r_dynamic_values (p_rule_json p)) ->
     stats_cache store' !! (Py.str (p_id p) +:+ ":X=" +:+ Py.str x) =
     Some (default zero_stat (sub_stats store !! (p_id p, "X=" +:+ Py.str x)))) /\
  (forall p, p ∈ rows ->
     r_type (p_rule_json p) <> Some "dynamic" ->
     NoDup (p_id <$> rows) ->
     stats_cache store' !! Py.str (p_id p) =
     match p_stats p with
     | Some s => Some s
     | None => stats_cache store !! Py.str (p_id p)
     end).
Proof.
  revert store. induction rows as [|q rows IH]; intros store; cbn [cache_rows].
  - intros [= <-]. split; [done|]. split; [done|].
    split; [intros p x Hp; by apply elem_of_nil in Hp|].
    intros p Hp; by apply elem_of_nil in Hp.
  - destruct (cache_row store q) as [store1|] eqn:Hq; [|done]. cbn [res_bind].
    intros Hrest.
    destruct (cache_row_spec _ _ _ Hq) as (Hsub1 & Hother1 & Hdyn1 & Hstat1).
    destruct (IH _ Hrest) as (Hsub & Hother & Hdyn & Hstat).
    split; [|split; [|split]].
    + intros key. by rewrite Hsub, Hsub1.
    + intros k [Hq' Hk]%Forall_cons. rewrite (Hother k Hk). by apply Hother1.
    + intros p x Hp Hd Hx.
      set (k := Py.str (p_id p) +:+ ":X=" +:+ Py.str x).
      destruct (decide (Forall (fun p' => k ∉ row_keys p') rows)) as [Hfree|Hused].
      * rewrite (Hother k Hfree).
        apply elem_of_cons in Hp as [->|Hp]; [by apply Hdyn1|].
        exfalso. rewrite Forall_forall in Hfree. apply (Hfree p Hp).
        unfold row_keys. rewrite bool_decide_eq_true_2 by done.
        apply list_elem_of_fmap. by exists x.
      * apply not_Forall_Exists in Hused; [|intros p'; apply _].
        apply Exists_exists in Hused as (p' & Hp' & Hk%dec_stable).
        apply row_keys_form in Hk as [[_ Hk]|(Hd' & x' & Hx' & Hk)].
        { symmetry in Hk. by apply plain_key_not_sub in Hk. }
        apply sub_key_inj in Hk as [Hid ->].
        unfold k. rewrite Hid. rewrite (Hdyn p' x' Hp' Hd' Hx'). f_equal. apply Hsub1.
    + intros p Hp Hs [Hnq Hnd]%NoDup_cons.
      apply elem_of_cons in Hp as [->|Hp].
      * rewrite Hother; [by apply Hstat1|].
        apply Forall_forall. intros p' Hp' Hk.
        apply row_keys_form in Hk as [[_ Hk]|(_ & x' & _ & Hk)].
        -- apply str_inj in Hk. apply Hnq. rewrite Hk.
           apply list_elem_of_fmap. by exists p'.
        -- by apply plain_key_not_sub in Hk.
      * rewrite (Hstat p Hp Hs Hnd). destruct (p_stats p); [done|].
        apply Hother1. intros Hk.
        apply row_keys_form in Hk as [[_ Hk]|(_ & x' & _ & Hk)].
        -- apply str_inj in Hk. apply Hnq. rewrite <- Hk.
           apply list_elem_of_fmap. by exists p.
        -- by apply plain_key_not_sub in Hk.
Qed.

Lemma load_cache_spec :
  forall rows table loaded,
    load_patterns_to_engine rows table = Ok loaded ->
    let cache := stats_cache (l_store loaded) in
    (forall k, is_Some (cache !! k) -> k ∈ (l_patterns loaded).*1) /\
    keys_parse cache /\
    (forall p x, p ∈ selected rows ->
       r_type (p_rule_json p) = Some "dynamic" ->
       x ∈ default [3; 4; 5; 6; 7; 8] (r_dynamic_values (p_rule_json p)) ->
       cache !! (Py.str (p_id p) +:+ ":X=" +:+ Py.str x) =
       Some (default zero_stat (table !! (p_id p, "X=" +:+ Py.str x)))) /\
    (forall p, p ∈ selected rows ->
       r_type (p_rule_json p) <> Some "dynamic" ->
       NoDup (p_id <$> selected rows) ->
       cache !! Py.str (p_id p) = p_stats p).
Proof.
  intros rows table loaded Hl.
  destruct (load_keys_spec _ _ _ Hl) as (Hkeys & _ & Hbase & _).
  revert Hl Hkeys Hbase. unfold load_patterns_to_engine. fold (selected rows).
  destruct (pattern_list_of (selected rows)) as [pl|]; [|done]. cbn [res_bind].
  destruct (cache_rows _ _) as [store|] eqn:Hc; [|done]. cbn [res_bind].
  intros [= <-] Hkeys Hbase. cbn [l_patterns l_store] in *. cbv zeta.
  destruct (cache_rows_spec _ _ _ Hc) as (_ & Hother & Hdyn & Hstat).
  cbn [sub_stats stats_cache] in *.
  assert (Hin : forall k, is_Some (stats_cache store !! k) -> k ∈ pl.*1).
  { intros k Hk. rewrite Hkeys.
    destruct (decide (Forall (fun p => k ∉ row_keys p) (selected rows))) as [Hfree|Hused].
    - rewrite (Hother k Hfree), lookup_empty in Hk. by destruct Hk.
    - apply not_Forall_Exists in Hused; [|intros p'; apply _].
      apply Exists_exists in Hused as (p & Hp & Hk'%dec_stable).
      apply list_elem_of_join. exists (row_keys p). split; [done|].
      apply list_elem_of_fmap. by exists p. }
  split; [done|]. split; [|split; [done|]].
  - intros k Hk. destruct (Hbase k (Hin k Hk)) as (p & _ & Hp). by exists (p_id p).
  - intros p Hp Hs Hnd. rewrite (Hstat p Hp Hs Hnd). by destruct (p_stats p).
Qed.

(** X12: the states [load_patterns_to_engine] puts in the cache.  When it
    returns, every key of the cache is a key of the engine and decodes to a
    rule identifier; every sub-rule of a selected dynamic rule has its
    state in the cache, the one of its row in [pattern_sub_stats] or all
    zeros when it has no row yet; and, the identifiers of the rows being
    distinct, a selected static rule has in the cache the state of its
    [PatternStats] row, and no entry when it has no such row. *)
Theorem loaded_cache_states :
  forall rows table loaded,
    load_patterns_to_engine rows table = Ok loaded ->
    let cache := stats_cache (l_store loaded) in
    (forall k, is_Some (cache !! k) -> k ∈ (l_patterns loaded).*1) /\
    keys_parse cache /\
    (forall p x, p ∈ selected rows ->
       r_type (p_rule_json p) = Some "dynamic" ->
       x ∈ default [3; 4; 5; 6; 7; 8] (r_dynamic_values (p_rule_json p)) ->
       cache !! (Py.str (p_id p) +:+ ":X=" +:+ Py.str x) =
       Some (default zero_stat (table !! (p_id p, "X=" +:+ Py.str x)))) /\
    (forall p, p ∈ selected rows ->
       r_type (p_rule_json p) <> Some "dynamic" ->
       NoDup (p_id <$> selected rows) ->
       cache !! Py.str (p_id p) = p_stats p).
Proof. exact load_cache_spec. Qed.

(** X12 on a static and a dynamic row, with a stored state for ["X=4"]. *)
Lemma loaded_cache_states_witness :
  exists loaded,
    load_patterns_to_engine Examples.two_rows
      {[ (2, "X=4") := mkStat 0 2 5 3 4 2 ]} = Ok loaded /\
    stats_cache (l_store loaded) !! "2:X=4" = Some (mkStat 0 2 5 3 4 2) /\
    stats_cache (l_store loaded) !! "2:X=5" = Some zero_stat /\
    stats_cache (l_store loaded) !! "1" = Some zero_stat.
Proof.
  destruct (load_patterns_to_engine Examples.two_rows _) as [loaded|] eqn:Hl;
    [|by vm_compute in Hl].
  exists loaded. split; [done|].
  destruct (loaded_cache_states _ _ _ Hl) as (_ & _ & Hdyn & Hstat).
  set (row1 := mkPatternRow 1 "green or red" Examples.green_or_red true (Some zero_stat)).
  set (row2 := mkPatternRow 2 "Pattern 6" Examples.dynamic_345 true None).
  change (selected Examples.two_rows) with [row1; row2] in Hdyn, Hstat.
  split; [|split].
  - apply (Hdyn row2 4); [by right; left|done|by right; left].
  - apply (Hdyn row2 5); [by right; left|done|by right; right; left].
  - apply (Hstat row1); [by left|done|].
    apply (bool_decide_unpack _). by vm_compute.
Defined.

End LoadedCache.

(** ** What a history row records *)

Section HistoryRows.

Import PatternEngine Main Props.

Lemma py_index_reverse {A : Type} (l : list A) (k : nat) :
  (0 < k <= length l)%nat ->
  py_index l (- Z.of_nat k) =
  match reverse l !! (k - 1)%nat with
  | Some a => Ok a
  | None => Raise IndexError
  end.
Proof.
  intros Hk. unfold py_index.
  replace (- Z.of_nat k <? 0) with true by lia.
  replace (Z.of_nat (length l) + - Z.of_nat k <? 0) with false by lia.
  rewrite reverse_lookup by lia.
  by replace (Z.to_nat (Z.of_nat (length l) + - Z.of_nat k))
    with (length l - S (k - 1))%nat by lia.
Qed.

Lemma start_marker_reverse recent_rounds prev s :
  1 < prev ->
  start_marker recent_rounds prev = Ok s ->
  s = default "" (reverse recent_rounds !! Z.to_nat prev).
Proof.
  intros Hprev. unfold start_marker.
  destruct (Z.gtb_spec (Z.of_nat (length recent_rounds)) prev) as [Hgt|Hle].
  - replace (- prev - 1) with (- Z.of_nat (S (Z.to_nat prev))) by lia.
    rewrite py_index_reverse by lia.
    replace (S (Z.to_nat prev) - 1)%nat with (Z.to_nat prev) by lia.
    destruct (reverse recent_rounds !! Z.to_nat prev); [|done]. by intros [= <-].
  - intros [= <-]. rewrite lookup_ge_None_2; [done|]. rewrite length_reverse. lia.
Qed.

Lemma end_marker_reverse recent_rounds e :
  end_marker recent_rounds = Ok e ->
  e = default "" (reverse recent_rounds !! 1%nat).
Proof.
  unfold end_marker.
  destruct (Z.gtb_spec (Z.of_nat (length recent_rounds)) 1) as [Hgt|Hle].
  - change (-2) with (- Z.of_nat 2). rewrite py_index_reverse by lia. cbn.
    destruct (reverse recent_rounds !! 1%nat); [|done]. by intros [= <-].
  - intros [= <-]. rewrite lookup_ge_None_2; [done|]. rewrite length_reverse. lia.
Qed.

Lemma trailing_reverse {A : Type} (sequence : list A) (n : Z) :
  0 <= n ->
  trailing sequence n = reverse (take (Z.to_nat n) (reverse sequence)).
Proof.
  intros Hn. unfold trailing.
  rewrite reverse_take, length_reverse, reverse_involutive.
  destruct (Z.geb_spec (Z.of_nat (length sequence)) n) as [Hge|Hlt].
  - f_equal. lia.
  - replace (length sequence - Z.to_nat n)%nat with O by lia. done.
Qed.

Lemma ended_streak_fields key kind prev current recent_rounds recent_colors sub_key rows row :
  ended_streak key kind prev current recent_rounds recent_colors sub_key = Ok rows ->
  row ∈ rows ->
  1 < sh_streak_length row /\
  base_pattern_id key = Ok (sh_pattern_id row) /\
  sh_sub_pattern_key row = sub_key /\
  sh_sequence row = trailing recent_colors (sh_streak_length row) /\
  start_marker recent_rounds (sh_streak_length row) = Ok (sh_start_round row) /\
  end_marker recent_rounds = Ok (sh_end_round row).
Proof.
  unfold ended_streak.
  destruct (Z.gtb_spec prev 1) as [Hgt|Hle]; cbn [andb].
  2:{ intros [= <-] Hin. by apply elem_of_nil in Hin. }
  destruct (current <? prev).
  2:{ intros [= <-] Hin. by apply elem_of_nil in Hin. }
  destruct (start_marker recent_rounds prev) as [s|] eqn:Hs; [|done].
  destruct (end_marker recent_rounds) as [e|] eqn:He; [|done]. cbn [res_bind].
  unfold save_streak_history. replace (prev <? 2) with false by lia.
  destruct (base_pattern_id key) as [b|] eqn:Hb; [|done]. cbn [res_bind].
  intros [= <-] ->%list_elem_of_singleton. cbn. repeat split; done || lia.
Qed.

Lemma history_loop_elem items prev_stats recent_rounds recent_colors history key row :
  history_loop items prev_stats recent_rounds recent_colors = Ok history ->
  (key, row) ∈ history ->
  exists current rows,
    history_for key (default zero_stat (prev_stats !! key)) current
      recent_rounds recent_colors = Ok rows /\
    row ∈ rows.
Proof.
  revert history. induction items as [|[k cur] items IH]; intros history; cbn [history_loop].
  - intros [= <-] Hin. by apply elem_of_nil in Hin.
  - destruct (history_for k _ cur _ _) as [rows|] eqn:Hrows; [|done]. cbn [res_bind].
    destruct (history_loop items _ _ _) as [more|]; [|done]. cbn [res_bind].
    intros [= <-] [Hin|Hin]%elem_of_app.
    + apply list_elem_of_fmap in Hin as (row' & [= -> ->] & Hrow). eauto.
    + by apply (IH more).
Qed.

Lemma last_drop {A : Type} (l : list A) (n : nat) :
  (n < length l)%nat -> last (drop n l) = last l.
Proof.
  intros Hn. rewrite !last_lookup, length_drop, lookup_drop. f_equal. lia.
Qed.

Lemma push_round_last color round_number colors rounds :
  last (push_round color round_number colors rounds).1 = Some color.
Proof.
  unfold push_round. destruct (Nat.ltb_spec MAX_COLORS_BUFFER (length (colors ++ [color]))).
  - cbn [fst]. destruct colors as [|c0 colors]; [cbn in *; unfold MAX_COLORS_BUFFER in *; lia|].
    cbn [app tail]. apply last_snoc.
  - apply last_snoc.
Qed.

(** X13: what a row added to the streak history holds.  In a round of
    [process_round_patterns] that returns, a row added for a key has a
    length above 1, the identifier and the sub-key decoded from the key,
    as its sequence the outcomes of the last [length] rounds of the buffer,
    the current round included, so that the sequence ends with the colour
    of the current round; its end marker is the round number just before
    the current round and its start marker the round number [length] rounds
    before the current one, each the empty string when the buffer does not
    reach that far. *)
Theorem history_row_window :
  forall color round_number st st' out key row,
    process_round_patterns color round_number st = (st', Ok out) ->
    (key, row) ∈ out_history out ->
    let n := Z.to_nat (sh_streak_length row) in
    1 < sh_streak_length row /\
    base_pattern_id key = Ok (sh_pattern_id row) /\
    sh_sub_pattern_key row =
      (if Py.mem_char ":" key then Some (Py.split_tail ":" key) else None) /\
    sh_sequence row = reverse (take n (reverse (recent_colors st'))) /\
    last (sh_sequence row) = Some color /\
    sh_start_round row = default "" (reverse (recent_rounds st') !! n) /\
    sh_end_round row = default "" (reverse (recent_rounds st') !! 1%nat).
Proof.
  intros color round_number st st' out key row. unfold process_round_patterns.
  pose proof (push_round_last color round_number (recent_colors st) (recent_rounds st))
    as Hlast.
  destruct (push_round _ _ _ _) as [colors rounds]. cbn [fst] in Hlast.
  destruct (process_round _ _ _) as [stats r].
  destruct r as [results|]; [|done]. cbn [res_bind].
  destruct (history_loop _ _ _ _) as [history|] eqn:Hloop; [|done]. cbn [res_bind].
  intros [= <- <-] Hin. cbn [out_history recent_colors recent_rounds] in *.
  destruct (history_loop_elem _ _ _ _ _ _ _ Hloop Hin) as (cur & rows & Hfor & Hrow).
  assert (Hfields :
    1 < sh_streak_length row /\
    base_pattern_id key = Ok (sh_pattern_id row) /\
    sh_sub_pattern_key row =
      (if Py.mem_char ":" key then Some (Py.split_tail ":" key) else None) /\
    sh_sequence row = trailing colors (sh_streak_length row) /\
    start_marker rounds (sh_streak_length row) = Ok (sh_start_round row) /\
    end_marker rounds = Ok (sh_end_round row)).
  { revert Hfor. unfold history_for.
    destruct (ended_streak key "trigger" _ _ _ _ _) as [t|] eqn:Ht; [|done].
    destruct (ended_streak key "miss" _ _ _ _ _) as [m|] eqn:Hm; [|done].
    cbn [res_bind]. intros [= <-]. apply elem_of_app in Hrow as [Hrow|Hrow].
    - exact (ended_streak_fields _ _ _ _ _ _ _ _ _ Ht Hrow).
    - exact (ended_streak_fields _ _ _ _ _ _ _ _ _ Hm Hrow). }
  destruct Hfields as (Hlen & Hbase & Hsub & Hseq & Hstart & Hend). cbv zeta.
  split; [done|]. split; [done|]. split; [done|].
  split; [by rewrite Hseq, trailing_reverse by lia|]. split.
  - rewrite Hseq. unfold trailing.
    destruct (Z.geb_spec (Z.of_nat (length colors)) (sh_streak_length row)); [|done].
    rewrite last_drop by lia. done.
  - split; [by apply start_marker_reverse|by apply end_marker_reverse].
Qed.

(** X13 on the rule "green or red": a red after four greens. *)
Lemma history_row_window_witness :
  let st4 := feed_all (Examples.fresh "1" Examples.green_or_red) Examples.greens4 in
  let row := mkStreakHistory 1 "trigger" 4 None "R1" "R4"
               ["green"; "green"; "green"; "red"] in
  sh_sequence row = reverse (take 4 (reverse ["green"; "green"; "green"; "green"; "red"])) /\
  last (sh_sequence row) = Some "red" /\
  sh_start_round row = default "" (reverse ["R1"; "R2"; "R3"; "R4"; "R5"] !! 4%nat) /\
  sh_end_round row = default "" (reverse ["R1"; "R2"; "R3"; "R4"; "R5"] !! 1%nat).
Proof.
  intros st4 row.
  assert (Hround : exists st' out,
             process_round_patterns "red" "R5" st4 = (st', Ok out) /\
             recent_colors st' = ["green"; "green"; "green"; "green"; "red"] /\
             recent_rounds st' = ["R1"; "R2"; "R3"; "R4"; "R5"] /\
             out_history out = [("1", row)]).
  { eexists _, _. split; [by vm_compute|]. by vm_compute. }
  destruct Hround as (st' & out & Hr & Hc & Hn & Hh).
  destruct (history_row_window "red" "R5" st4 st' out "1" row Hr) as (_ & _ & _ & H).
  { rewrite Hh. left. }
  rewrite Hc, Hn in H. exact H.
Defined.

End HistoryRows.

(** ** Accepted rules, loaded and run *)

Section AcceptedRules.

Import PatternEngine Main Props.

Lemma check_pattern_set_active colors rule a :
  check_pattern colors (set_active rule a) = check_pattern colors rule.
Proof. reflexivity. Qed.

Lemma engine_entries_elem p entries key rule :
  engine_entries p = Ok entries ->
  (key, rule) ∈ entries ->
  (r_type (p_rule_json p) <> Some "dynamic" /\
   rule = set_active (p_rule_json p) (p_active p)) \/
  (r_type (p_rule_json p) = Some "dynamic" /\
   exists subs sub, expand_dynamic_pattern (p_rule_json p) = Ok subs /\
                    sub ∈ subs /\ rule = set_active sub (p_active p)).
Proof.
  unfold engine_entries. cbn [set_active r_type].
  case_bool_decide as Hd.
  - rewrite (expand_set_active _ _ Hd).
    destruct (expand_dynamic_pattern (p_rule_json p)) as [subs|] eqn:He; [|done].
    cbn [res_bind]. intros [= <-] Hin. right. split; [done|].
    apply list_elem_of_fmap in Hin as (r' & [= -> ->] & Hr').
    apply list_elem_of_fmap in Hr' as (sub & -> & Hsub). eauto.
  - intros [= <-] [= -> ->]%list_elem_of_singleton. by left.
Qed.

Lemma pattern_list_elem rows pl key rule :
  pattern_list_of rows = Ok pl ->
  (key, rule) ∈ pl ->
  exists p entries, p ∈ rows /\ engine_entries p = Ok entries /\ (key, rule) ∈ entries.
Proof.
  revert pl. induction rows as [|p rows IH]; intros pl; cbn.
  - intros [= <-] Hin. by apply elem_of_nil in Hin.
  - destruct (engine_entries p) as [entries|] eqn:He; [|done]. cbn.
    destruct (pattern_list_of rows) as [more|]; [|done]. cbn.
    intros [= <-] [Hin|Hin]%elem_of_app.
    + exists p, entries. split; [left|done].
    + destruct (IH _ eq_refl Hin) as (p' & es & Hp' & He' & Hin').
      exists p', es. split; [by right|done].
Qed.

Lemma accepted_expands p :
  row_accepted p ->
  r_type (p_rule_json p) = Some "dynamic" ->
  exists subs,
    expand_dynamic_pattern (p_rule_json p) = Ok subs /\
    forall sub colors, sub ∈ subs -> exists check, check_pattern colors sub = Ok check.
Proof.
  intros [Hv Hc] Hd. destruct (Hc Hd) as [Ht Hm].
  destruct (validated_subs_check _ Hv Hd Ht Hm) as (subs & Hs & _ & Hcheck). eauto.
Qed.

Lemma accepted_rows_load rows :
  Forall row_accepted rows ->
  exists pl, pattern_list_of rows = Ok pl.
Proof.
  induction 1 as [|p rows Hp _ [pl IH]]; [by eexists|].
  cbn. rewrite IH.
  assert (He : exists entries, engine_entries p = Ok entries).
  { unfold engine_entries. cbn [set_active r_type]. case_bool_decide as Hd; [|by eexists].
    rewrite (expand_set_active _ _ Hd).
    destruct (accepted_expands p Hp Hd) as (subs & -> & _). by eexists. }
  destruct He as [entries ->]. by eexists.
Qed.

Lemma accepted_rows_cache rows store :
  Forall row_accepted rows ->
  exists store', cache_rows store rows = Ok store'.
Proof.
  intros H. revert store. induction H as [|p rows Hp _ IH]; intros store; [by eexists|].
  cbn. assert (Hc : exists store1, cache_row store p = Ok store1).
  { unfold cache_row. case_bool_decide as Hd; [|destruct (p_stats p); by eexists].
    destruct (accepted_expands p Hp Hd) as (subs & -> & _). by eexists. }
  destruct Hc as [store1 ->]. cbn. apply IH.
Qed.

Lemma process_patterns_total colors patterns stats results :
  Forall (fun kr => exists check, check_pattern colors kr.2 = Ok check) patterns ->
  exists results', (process_patterns colors patterns stats results).2 = Ok results'.
Proof.
  intros H. revert stats results.
  induction H as [|[k rule] rest [check Hc] _ IH]; intros stats results; cbn.
  - by eexists.
  - destruct (negb _); [apply IH|]. cbn in Hc. rewrite Hc.
    destruct (apply_check k check _). apply IH.
Qed.

Lemma process_patterns_new_keys colors patterns stats results k :
  is_Some ((process_patterns colors patterns stats results).1 !! k) ->
  is_Some (stats !! k) \/ k ∈ patterns.*1.
Proof.
  revert stats results. induction patterns as [|[p rule] rest IH]; intros stats results; cbn.
  - by left.
  - destruct (negb _).
    { intros H. destruct (IH _ _ H); [by left|right; by right]. }
    destruct (check_pattern colors rule); [|by left].
    destruct (apply_check p _ _) as [s' evs].
    intros H. destruct (IH _ _ H) as [Hs|Hin]; [|right; by right].
    destruct (decide (p = k)) as [->|Hne]; [right; left|].
    left. by rewrite lookup_insert_ne in Hs.
Qed.

(** The state of an application that runs the rules [pl]: every rule can
    be checked against any buffer and every key, of a rule or of the
    cache, decodes. *)
Lemma runs_from pl st rounds :
  patterns st = pl ->
  (forall k, k ∈ pl.*1 -> exists b, base_pattern_id k = Ok b) ->
  keys_parse (pattern_stats_cache st) ->
  patterns (feed_all st rounds) = pl /\ keys_parse (pattern_stats_cache (feed_all st rounds)).
Proof.
  intros Hp Hbase. revert st Hp. induction rounds as [|round rounds IH]; intros st Hp Hk.
  - by split.
  - cbn [feed_all foldl]. apply IH.
    + unfold feed, process_round_patterns. destruct (push_round _ _ _ _).
      by destruct (process_round _ _ _).
    + unfold feed, process_round_patterns. destruct (push_round _ _ _ _) as [colors rnds].
      unfold process_round.
      pose proof (process_patterns_new_keys colors (patterns st) (pattern_stats_cache st) [])
        as Hnew.
      destruct (process_patterns _ _ _ _) as [stats r]. cbn in *.
      intros k Hs. destruct (Hnew k Hs) as [Hold|Hin]; [by apply Hk|].
      apply Hbase. by rewrite <- Hp.
Qed.

(** X14: a table of accepted rules runs without an exception.  When
    every selected row holds a rule that the validator accepts and, for a
    dynamic rule, whose steps all carry a count, [load_patterns_to_engine]
    returns, and from the engine and the cache it leaves, with any buffers
    and after any rounds, [process_round_patterns] gets through the round
    of the engine and through its history loop for every further round. *)
Theorem accepted_rules_run :
  forall rows table,
    Forall row_accepted (selected rows) ->
    exists loaded,
      load_patterns_to_engine rows table = Ok loaded /\
      forall colors rounds fed color round_number,
        let st := feed_all (mkApp (l_patterns loaded) colors rounds
                              (stats_cache (l_store loaded))) fed in
        exists out, (process_round_patterns color round_number st).2 = Ok out.
Proof.
  intros rows table Hacc.
  destruct (accepted_rows_load _ Hacc) as [pl Hpl].
  destruct (accepted_rows_cache _ (mkStore table ∅) Hacc) as [store Hstore].
  assert (Hl : load_patterns_to_engine rows table = Ok (mkLoaded pl store)).
  { unfold load_patterns_to_engine. fold (selected rows). by rewrite Hpl, Hstore. }
  exists (mkLoaded pl store). split; [done|]. cbn [l_patterns l_store].
  destruct (load_cache_spec _ _ _ Hl) as (_ & Hparse & _).
  assert (Hbase : forall k, k ∈ pl.*1 -> exists b, base_pattern_id k = Ok b).
  { intros k Hk. destruct (load_keys_spec _ _ _ Hl) as (_ & _ & Hb & _).
    destruct (Hb k Hk) as (p & _ & Hp). by eexists. }
  cbn [l_patterns l_store] in *.
  assert (Hcheck : forall colors, Forall (fun kr : string * Rule =>
                     exists check, check_pattern colors kr.2 = Ok check) pl).
  { intros colors. apply Forall_forall. intros [key rule] Hin.
    destruct (pattern_list_elem _ _ _ _ Hpl Hin) as (p & entries & Hp & He & Hin').
    rewrite Forall_forall in Hacc. specialize (Hacc p Hp).
    destruct (engine_entries_elem _ _ _ _ He Hin')
      as [[Hs ->]|(Hd & subs & sub & Hsubs & Hsub & ->)];
      cbn [snd]; rewrite check_pattern_set_active.
    - apply validated_check_total. apply Hacc.
    - destruct (accepted_expands p Hacc Hd) as (subs' & Hsubs' & Hc).
      rewrite Hsubs in Hsubs'. injection Hsubs' as <-. by apply Hc. }
  intros colors rounds fed color round_number. cbv zeta.
  destruct (runs_from pl (mkApp pl colors rounds (stats_cache store)) fed eq_refl)
    as [Hp Hk]; [exact Hbase|exact Hparse|].
  set (st := feed_all _ fed) in *.
  unfold process_round_patterns. destruct (push_round _ _ _ _) as [cs rs].
  unfold process_round.
  destruct (process_patterns_total cs (patterns st) (pattern_stats_cache st) [])
    as [results Hres]; [rewrite Hp; apply Hcheck|].
  pose proof (process_patterns_new_keys cs (patterns st) (pattern_stats_cache st) [])
    as Hnew.
  destruct (process_patterns _ _ _ _) as [stats r]. cbn [fst snd] in *. subst r.
  cbn [res_bind].
  destruct (history_loop_ok (map_to_list stats) (pattern_stats_cache st) rs cs)
    as [history ->]; [|by eexists].
  intros k s Hks%elem_of_map_to_list.
  destruct (Hnew k) as [Hold|Hin]; [by eexists|by apply Hk|].
  apply Hbase. by rewrite <- Hp.
Qed.

(** X14 on the default rules. *)
Lemma accepted_rules_run_witness :
  exists loaded,
    load_patterns_to_engine Examples.default_rows ∅ = Ok loaded /\
    forall colors rounds fed color round_number,
      exists out,
        (process_round_patterns color round_number
           (feed_all (mkApp (l_patterns loaded) colors rounds
                        (stats_cache (l_store loaded))) fed)).2 = Ok out.
Proof.
  apply accepted_rules_run.
  change (selected Examples.default_rows) with Examples.default_rows.
  unfold Examples.default_rows, DEFAULT_PATTERNS. cbn [imap compose].
  repeat (constructor;
          [split; [by vm_compute|];
           intros _; split; repeat (constructor; [by eexists|]); constructor|]).
  constructor.
Defined.

End AcceptedRules.

(** ** Sorting, and the streak table *)

Section Sorting.

Import Main.

Context {A : Type} (le : A -> A -> bool).

Lemma insert_sorted_perm x l :
  insert_sorted le x l ≡ₚ x :: l.
Proof.
  induction l as [|y l IH]; [done|]. cbn. destruct (le x y); [done|].
  rewrite IH. apply Permutation_swap.
Qed.

Lemma sorted_by_perm l : sorted_by le l ≡ₚ l.
Proof.
  induction l as [|x l IH]; [done|]. cbn. by rewrite insert_sorted_perm, IH.
Qed.

Hypothesis le_total : forall a b, le a b = false -> le b a = true.
Hypothesis le_trans : forall a b c, le a b = true -> le b c = true -> le a c = true.

Lemma insert_sorted_strongly x l :
  StronglySorted (fun a b => le a b = true) l ->
  StronglySorted (fun a b => le a b = true) (Main.insert_sorted le x l).
Proof.
  induction 1 as [|y l Hl IH Hy]; cbn; [by repeat constructor|].
  destruct (le x y) eqn:Hxy.
  - constructor; [by constructor|]. constructor; [done|].
    eapply Forall_impl; [exact Hy|]. intros z Hz. by apply (le_trans x y z).
  - constructor; [done|].
    rewrite insert_sorted_perm.
    constructor; [by apply le_total|done].
Qed.

Lemma sorted_by_strongly l :
  StronglySorted (fun a b => le a b = true) (Main.sorted_by le l).
Proof.
  induction l as [|x l IH]; cbn; [constructor|]. by apply insert_sorted_strongly.
Qed.

Lemma sorted_by_head first rest l y :
  Main.sorted_by le l = first :: rest ->
  y ∈ l -> y = first \/ le first y = true.
Proof.
  intros Hs Hy. pose proof (sorted_by_strongly l) as Hsorted. rewrite Hs in Hsorted.
  apply StronglySorted_inv in Hsorted as [_ Hall].
  assert (Hin : y ∈ first :: rest).
  { rewrite <- Hs. eapply elem_of_Permutation_proper; [apply sorted_by_perm|done]. }
  apply elem_of_cons in Hin as [->|Hin]; [by left|right].
  rewrite Forall_forall in Hall. by apply Hall.
Qed.

End Sorting.

Section StreakTable.

Import PatternEngine Main Props.

Lemma descending_strict (s : list Z) :
  NoDup s ->
  StronglySorted (fun a b => (b <=? a) = true) s ->
  StronglySorted (fun a b => b < a) s.
Proof.
  intros Hnd Hs. induction Hs as [|x s Hs IH Hx]; [constructor|].
  apply NoDup_cons in Hnd as [Hx' Hnd]. constructor; [by apply IH|].
  apply Forall_forall. intros y Hy. rewrite Forall_forall in Hx.
  specialize (Hx y Hy). apply Z.leb_le in Hx.
  assert (y <> x) by (intros ->; done). lia.
Qed.

Lemma filter_none {A : Type} (P : A -> Prop) `{forall x, Decision (P x)} (l : list A) :
  Forall (fun y => ~ P y) l -> filter P l = [].
Proof.
  induction 1 as [|y l Hy _ IH]; [done|]. by rewrite filter_cons_False.
Qed.

Lemma filter_above_prefix (s : list Z) i l :
  StronglySorted (fun a b => b < a) s ->
  s !! i = Some l ->
  filter (fun k => l < k) s = take i s.
Proof.
  intros Hs. revert i. induction Hs as [|x s Hs IH Hx]; intros i Hi; [done|].
  destruct i as [|i]; cbn in Hi.
  - injection Hi as ->. rewrite filter_cons_False by lia. cbn.
    apply filter_none. eapply Forall_impl; [exact Hx|]. cbn. lia.
  - rewrite Forall_forall in Hx.
    rewrite filter_cons_True by (apply Hx; by apply list_elem_of_lookup_2 in Hi).
    cbn. f_equal. by apply IH.
Qed.

Lemma top_lengths_spec (dist : gmap Z Z) (i : nat) :
  (i < 12)%nat ->
  ranked dist i (top_lengths dist !! i)
    (match top_lengths dist !! i with
     | Some l => default 0 (dist !! l)
     | None => 0
     end).
Proof.
  intros Hi. unfold top_lengths, ranked.
  set (s := sorted_by (fun a b => b <=? a) (elements (dom dist))).
  assert (Hperm : s ≡ₚ elements (dom dist)) by apply sorted_by_perm.
  assert (Hsorted : StronglySorted (fun a b => b < a) s).
  { apply descending_strict.
    - rewrite Hperm. apply NoDup_elements.
    - apply sorted_by_strongly.
      + intros a b Hab. apply Z.leb_gt in Hab. apply Z.leb_le. lia.
      + intros a b c Hab%Z.leb_le Hbc%Z.leb_le. apply Z.leb_le. lia. }
  rewrite lookup_take_lt by done.
  destruct (s !! i) as [l|] eqn:Hl.
  - assert (Hin : l ∈ dom dist).
    { apply elem_of_elements. rewrite <- Hperm. by apply list_elem_of_lookup_2 in Hl. }
    apply elem_of_dom in Hin as [c Hc]. rewrite Hc. split; [done|].
    rewrite <- Hperm, (filter_above_prefix s i l Hsorted Hl).
    rewrite length_take. apply lookup_lt_Some in Hl. lia.
  - split; [done|]. apply lookup_ge_None in Hl.
    rewrite <- (size_dom (D := gset Z)). unfold size, set_size. cbn.
    by rewrite <- Hperm.
Qed.

(** X15: the streak table of the dashboard has twelve rows, whatever the
    two distributions hold.  Row [i], counted from 0, shows on its trigger
    side the streak length that has exactly [i] longer lengths in the
    trigger distribution, with the number of streaks of that length, and
    nothing, with the number 0, when the distribution has at most [i]
    lengths; and the same on its miss side for the miss distribution. *)
Theorem streak_table_has_twelve_rows :
  forall trigger_dist miss_dist,
    let table := streak_table trigger_dist miss_dist in
    length table = 12%nat /\
    forall i row, table !! i = Some row ->
      ranked trigger_dist i (row_trigger_streak row) (row_trigger_count row) /\
      ranked miss_dist i (row_miss_streak row) (row_miss_count row).
Proof.
  intros trigger_dist miss_dist. cbv zeta. unfold streak_table.
  set (n := Nat.min _ 12). assert (Hn : n = 12%nat) by (unfold n; lia).
  clearbody n. subst n. split; [by rewrite length_fmap, length_seq|].
  intros i row. rewrite list_lookup_fmap.
  destruct (seq 0 12 !! i) as [j|] eqn:Hj; [|done].
  apply lookup_seq in Hj as [-> Hi]. cbn [fmap option_fmap option_map].
  intros [= <-]. cbn [row_trigger_streak row_trigger_count row_miss_streak row_miss_count].
  split; by apply top_lengths_spec.
Qed.

(** X15 on a trigger distribution with two lengths and no miss streak. *)
Lemma streak_table_has_twelve_rows_witness :
  ranked {[ 5 := 2; 3 := 1 ]} 0 (Some 5) 2 /\ ranked ∅ 0 None 0.
Proof.
  apply (proj2 (streak_table_has_twelve_rows {[ 5 := 2; 3 := 1 ]} ∅) 0%nat
           (mkStreakRow (Some 5) 2 None 0)).
  by vm_compute.
Defined.

End StreakTable.

(** ** The preview of a rule *)

Section Preview.

Import PatternEngine Main Props.

Lemma expand_one_resolved rule x sub :
  expand_one rule x = Ok sub ->
  resolve_block x (r_trigger rule) = Ok (r_trigger sub).
Proof.
  unfold expand_one. destruct (r_name rule); [|done].
  destruct (resolve_block x (r_trigger rule)); [|done]. cbn.
  destruct (resolve_block x (r_miss rule)); [|done]. cbn.
  by intros [= <-].
Qed.

Lemma resolve_block_length x f f' l :
  resolve_block x f = Ok f' ->
  steps_of f = Ok l ->
  exists l', steps_of f' = Ok l' /\ length l' = length l.
Proof.
  destruct f as [| |[[steps|]]]; cbn; try done.
  - intros [= <-] [= <-]. by exists [].
  - intros [= <-] [= <-]. eexists. split; [done|]. apply List.length_map.
  - intros [= <-] [= <-]. by exists [].
Qed.

(** The rule that is drawn is the rule itself or one of its sub-rules. *)
Lemma preview_rule_cases rule :
  preview_rule rule = rule \/
  exists x, resolve_block x (r_trigger rule) = Ok (r_trigger (preview_rule rule)).
Proof.
  unfold preview_rule. case_bool_decide as Hd; [|by left].
  destruct (expand_dynamic_pattern rule) as [subs|] eqn:He; [|by left].
  destruct (sorted_by _ subs) as [|first rest] eqn:Hs; [by left|]. right.
  assert (Hin : first ∈ subs).
  { eapply elem_of_Permutation_proper; [symmetry; apply sorted_by_perm|].
    rewrite Hs. left. }
  revert He. unfold expand_dynamic_pattern.
  rewrite bool_decide_eq_true_2 by done. cbn [negb]. intros He.
  destruct (res_map_list_elem _ _ _ _ He Hin) as (x & _ & Hx).
  exists x. by apply expand_one_resolved.
Qed.

Lemma preview_repeats_bounds step : 1 <= preview_repeats step <= 25.
Proof. unfold preview_repeats. destruct (mem_str _ _); lia. Qed.

Lemma preview_color_cases step : preview_color step ∈ ["red"; "yellow"; "green"].
Proof.
  unfold preview_color. destruct (mem_str "red" _); [left|].
  destruct (_ && _); [right; left|right; right; left].
Qed.

Lemma flat_steps_bounds steps :
  let out := flat_map (fun step => replicate (Z.to_nat (preview_repeats step))
                                     (preview_color step)) steps in
  (length steps <= length out <= 25 * length steps)%nat /\
  Forall (fun c => c ∈ ["red"; "yellow"; "green"]) out.
Proof.
  induction steps as [|step steps [IHlen IHcol]]; cbn.
  - split; [lia|constructor].
  - rewrite length_app, length_replicate.
    pose proof (preview_repeats_bounds step). split; [lia|].
    apply Forall_app. split; [|done].
    apply Forall_replicate. apply preview_color_cases.
Qed.

Lemma preview_rule_smallest rule subs sub :
  r_type rule = Some "dynamic" ->
  expand_dynamic_pattern rule = Ok subs ->
  sub ∈ subs ->
  preview_rule rule ∈ subs /\
  default 0 (r_dynamic_x (preview_rule rule)) <= default 0 (r_dynamic_x sub).
Proof.
  intros Hd He Hsub. unfold preview_rule. rewrite bool_decide_eq_true_2 by done.
  rewrite He.
  set (le := fun a b : Rule => default 0 (r_dynamic_x a) <=? default 0 (r_dynamic_x b)).
  destruct (sorted_by le subs) as [|first rest] eqn:Hs.
  { exfalso. pose proof (sorted_by_perm le subs) as Hp. rewrite Hs in Hp.
    apply Permutation_nil_l in Hp. subst subs. by apply elem_of_nil in Hsub. }
  split.
  - eapply elem_of_Permutation_proper; [symmetry; apply (sorted_by_perm le)|].
    rewrite Hs. left.
  - destruct (sorted_by_head le) with (first := first) (rest := rest) (l := subs) (y := sub)
      as [->|Hle]; try done.
    + intros a b Hab. unfold le in *. apply Z.leb_gt in Hab. apply Z.leb_le. lia.
    + intros a b c Hab%Z.leb_le Hbc%Z.leb_le. apply Z.leb_le. lia.
    + by apply Z.leb_le in Hle.
Qed.

(** X16: the preview [build_visual_sequence_flat] draws.  It raises
    [AttributeError] exactly when the rule has a [null] trigger; otherwise
    it returns a list that draws every trigger step of the rule at least
    once and at most 25 times, in the colours red, yellow and green only,
    whether the rule is static or dynamic and whether or not its expansion
    raises.  The steps drawn for a dynamic rule whose expansion returns
    sub-rules are those of a sub-rule with the smallest dynamic value. *)
Theorem preview_is_bounded :
  forall rule,
    (r_trigger rule = Null -> build_visual_sequence_flat rule = Raise AttributeError) /\
    (r_trigger rule <> Null ->
     exists out,
       build_visual_sequence_flat rule = Ok out /\
       (length (rule_steps (r_trigger rule)) <= length out
          <= 25 * length (rule_steps (r_trigger rule)))%nat /\
       Forall (fun c => c ∈ ["red"; "yellow"; "green"]) out) /\
    (forall subs sub,
       r_type rule = Some "dynamic" ->
       expand_dynamic_pattern rule = Ok subs ->
       sub ∈ subs ->
       preview_rule rule ∈ subs /\
       default 0 (r_dynamic_x (preview_rule rule)) <= default 0 (r_dynamic_x sub)).
Proof.
  intros rule. unfold build_visual_sequence_flat.
  split; [|split; [|apply preview_rule_smallest]].
  - intros Hnull. destruct (preview_rule_cases rule) as [-> |[x Hx]].
    + by rewrite Hnull.
    + by rewrite Hnull in Hx.
  - intros Hne. destruct (steps_of_not_null _ Hne) as [l Hl].
    rewrite (rule_steps_ok _ _ Hl).
    assert (Hl' : exists l', steps_of (r_trigger (preview_rule rule)) = Ok l' /\
                             length l' = length l).
    { destruct (preview_rule_cases rule) as [-> |[x Hx]]; [by exists l|].
      by apply (resolve_block_length x (r_trigger rule)). }
    destruct Hl' as (l' & -> & Hlen). cbn [res_bind]. eexists. split; [done|].
    rewrite <- Hlen. apply flat_steps_bounds.
Qed.

(** X16 on "Pattern 6" with the dynamic values 3, 4, 5: three greens. *)
Lemma preview_is_bounded_witness :
  exists out,
    build_visual_sequence_flat Examples.dynamic_345 = Ok out /\
    (1 <= length out <= 25)%nat /\
    Forall (fun c => c ∈ ["red"; "yellow"; "green"]) out.
Proof.
  by apply (proj1 (proj2 (preview_is_bounded Examples.dynamic_345))).
Defined.

End Preview.

(** ** Reading the fields of a payload *)

Section Payload.

Import Main Props.

Lemma first_key_some c keys v :
  first_key c keys = Some v ->
  Json.is_blank v = false /\
  exists d k, c = JDict d /\ k ∈ keys /\ Json.dict_get d k = Some v.
Proof.
  induction keys as [|k keys IH]; cbn; [done|].
  destruct c as [| | | | | |d]; try (intros H; destruct (IH H) as (? & d & ? & [=] & _)).
  destruct (Json.dict_get d k) as [v'|] eqn:Hk.
  - destruct (Json.is_blank v') eqn:Hb.
    + intros H. destruct (IH H) as (Hv & d' & k' & Hd & Hk' & Hget).
      split; [done|]. exists d', k'. split; [done|]. split; [by right|done].
    + intros [= <-]. split; [done|]. exists d, k. split; [done|]. split; [left|done].
  - intros H. destruct (IH H) as (Hv & d' & k' & Hd & Hk' & Hget).
    split; [done|]. exists d', k'. split; [done|]. split; [by right|done].
Qed.

Lemma first_key_none c keys :
  first_key c keys = None <-> ~ offers c keys.
Proof.
  split.
  - intros Hnone (d & k & v & -> & Hk & Hget & Hb).
    induction keys as [|k' keys IH]; [by apply elem_of_nil in Hk|].
    cbn in Hnone. apply elem_of_cons in Hk as [->|Hk].
    + rewrite Hget, Hb in Hnone. done.
    + apply IH; [|done]. destruct (Json.dict_get d k') as [v'|]; [|done].
      by destruct (Json.is_blank v').
  - intros Hno. destruct (first_key c keys) as [v|] eqn:Hf; [|done].
    exfalso. apply Hno. destruct (first_key_some _ _ _ Hf) as (Hb & d & k & -> & Hk & Hget).
    by exists d, k, v.
Qed.

Lemma first_present_spec candidates keys :
  match _first_present candidates keys with
  | Some v =>
      exists before c after,
        candidates = before ++ c :: after /\
        Forall (fun c' => ~ offers c' keys) before /\
        first_key c keys = Some v
  | None => Forall (fun c => ~ offers c keys) candidates
  end.
Proof.
  induction candidates as [|c rest IH]; cbn; [constructor|].
  destruct (first_key c keys) as [v|] eqn:Hc.
  - exists [], c, rest. split; [done|]. split; [constructor|done].
  - apply first_key_none in Hc.
    destruct (_first_present rest keys) as [v|].
    + destruct IH as (before & c' & after & -> & Hb & Hv).
      exists (c :: before), c', after. split; [done|]. split; [by constructor|done].
    + by constructor.
Qed.

Lemma first_present_head c rest keys :
  offers c keys ->
  exists v, _first_present (c :: rest) keys = Some v /\ first_key c keys = Some v.
Proof.
  intros Hoff. cbn. destruct (first_key c keys) as [v|] eqn:Hc; [by exists v|].
  by apply first_key_none in Hc.
Qed.

Lemma walk_spec fuel payload x :
  x ∈ _walk fuel payload <-> exists n, (n < fuel)%nat /\ nested n payload x.
Proof.
  revert payload x. induction fuel as [|depth IH]; intros payload x; cbn.
  - split; [by intros ?%elem_of_nil|]. intros (n & Hn & _). lia.
  - destruct payload as [| | | | | |d].
    1-6: split; [by intros ?%elem_of_nil|]; intros (n & _ & H); inversion H.
    rewrite elem_of_cons, list_elem_of_In, in_flat_map. split.
    + intros [->|((k & v) & Hkv & Hx)].
      * exists O. split; [lia|constructor].
      * apply list_elem_of_In in Hkv, Hx. cbn [snd] in Hx.
        assert (He : exists c, entered v = Some c /\ x ∈ _walk depth c).
        { destruct v as [| | | | |l|d']; try by apply elem_of_nil in Hx.
          - destruct l as [|[| | | | | |d0] l']; try by apply elem_of_nil in Hx.
            by exists (JDict d0).
          - by exists (JDict d'). }
        destruct He as (c & Hc & Hin). apply IH in Hin as (n & Hn & Hnest).
        exists (S n). split; [lia|]. by apply (nested_step n d k v c).
    + intros (n & Hn & Hnest). inversion Hnest as [d'|n' d' k v c x' Hkv Hc Hrest]; subst.
      * by left.
      * right. exists (k, v). split; [by apply list_elem_of_In|].
        apply list_elem_of_In. cbn [snd].
        assert (Hin : x ∈ _walk depth c) by (apply IH; exists n'; split; [lia|done]).
        destruct v as [| | | | |l|d'']; try done.
        -- destruct l as [|[| | | | | |d0] l']; try done. by injection Hc as <-.
        -- by injection Hc as <-.
Qed.

(** X17: what [_first_present] returns.  A value it returns is neither
    [None] nor the empty string and stands under one of the keys in the
    first candidate that has such a value under any of the keys: the order
    of the candidates goes before the order of the keys.  It returns [None]
    exactly when no candidate has such a value. *)
Theorem first_present_takes_first_candidate :
  (forall candidates keys v,
      _first_present candidates keys = Some v ->
      Json.is_blank v = false /\
      exists before d after k,
        candidates = before ++ JDict d :: after /\
        Forall (fun c => ~ offers c keys) before /\
        k ∈ keys /\ Json.dict_get d k = Some v) /\
  (forall candidates keys,
      _first_present candidates keys = None <->
      Forall (fun c => ~ offers c keys) candidates) /\
  (forall c rest keys,
      offers c keys ->
      exists v, _first_present (c :: rest) keys = Some v /\ first_key c keys = Some v).
Proof.
  split; [|split].
  - intros candidates keys v Hv. pose proof (first_present_spec candidates keys) as H.
    rewrite Hv in H. destruct H as (before & c & after & -> & Hb & Hc).
    destruct (first_key_some _ _ _ Hc) as (Hblank & d & k & -> & Hk & Hget).
    split; [done|]. by exists before, d, after, k.
  - intros candidates keys. pose proof (first_present_spec candidates keys) as H. split.
    + intros Hn. by rewrite Hn in H.
    + intros Hall. destruct (_first_present candidates keys) as [v|]; [|done].
      destruct H as (before & c & after & -> & Hb & Hc).
      apply Forall_app in Hall as [_ [Hno _]%Forall_cons].
      apply first_key_none in Hno. congruence.
  - intros c rest keys. apply first_present_head.
Qed.

(** X17 on a payload whose top level and nested object both name the
    game. *)
Lemma first_present_takes_first_candidate_witness :
  exists v,
    _first_present
      [JDict [("id", JInt 7)]; JDict [("game_id", JStr "g")]] ["game_id"; "id"] = Some v /\
    first_key (JDict [("id", JInt 7)]) ["game_id"; "id"] = Some v.
Proof.
  apply (proj2 (proj2 first_present_takes_first_candidate)).
  exists [("id", JInt 7)], "id", (JInt 7).
  split; [done|]. split; [by right; left|]. by split.
Defined.

(** X18: the candidates of [_flatten_dict_candidates].  They are the
    objects that lie at most [max_depth] levels below the payload, a level
    being entered through a value that is an object or through the first
    element of a list that starts with an object; the payload itself, when
    it is an object, is the first candidate, and a payload that is no
    object has no candidate.  So a field that the payload holds at its top
    level under one of the keys is what [_first_present] returns from the
    candidates, whatever the nested objects hold. *)
Theorem flatten_reaches_max_depth :
  (forall payload max_depth x,
      x ∈ _flatten_dict_candidates payload max_depth <->
      exists n, (n <= max_depth)%nat /\ nested n payload x) /\
  (forall d max_depth,
      head (_flatten_dict_candidates (JDict d) max_depth) = Some (JDict d)) /\
  (forall payload max_depth,
      (forall d, payload <> JDict d) ->
      _flatten_dict_candidates payload max_depth = []) /\
  (forall d max_depth keys,
      offers (JDict d) keys ->
      exists v,
        _first_present (_flatten_dict_candidates (JDict d) max_depth) keys = Some v /\
        first_key (JDict d) keys = Some v).
Proof.
  split; [|split; [|split]].
  4:{ intros d max_depth keys Hoff. unfold _flatten_dict_candidates.
      cbn [_walk]. by apply first_present_head. }
  - intros payload max_depth x. unfold _flatten_dict_candidates. rewrite walk_spec.
    split; intros (n & Hn & H); exists n; (split; [lia|done]).
  - done.
  - intros payload max_depth Hno. unfold _flatten_dict_candidates. cbn.
    destruct payload; try done. by destruct (Hno d).
Qed.

(** X18 on a payload that is a list. *)
Lemma flatten_reaches_max_depth_witness :
  _flatten_dict_candidates (JList [JDict [("id", JInt 7)]]) 3 = [].
Proof.
  by apply (proj1 (proj2 (proj2 flatten_reaches_max_depth))).
Defined.

End Payload.

(** ** Numbers, colours and crash values *)

Section Numbers.

Import Props.

Lemma num_eq_refl a : a <> Num.Nan -> Num.eq a a = true.
Proof.
  destruct a as [| |q|]; try done. intros _. cbn. apply Qeq_bool_iff. reflexivity.
Qed.

Lemma num_eq_sym a b : Num.eq a b = Num.eq b a.
Proof.
  destruct a as [| |p|], b as [| |q|]; try done. cbn.
  apply eq_true_iff_eq. rewrite !Qeq_bool_iff. split; intros H; by symmetry.
Qed.

Lemma num_eq_trans a b c : Num.eq a b = true -> Num.eq b c = true -> Num.eq a c = true.
Proof.
  destruct a as [| |p|], b as [| |q|], c as [| |r|]; try done. cbn.
  rewrite !Qeq_bool_iff. intros H1 H2. by rewrite H1.
Qed.

Lemma num_le_lt_trans a b c : Num.le a b = true -> Num.lt b c = true -> Num.lt a c = true.
Proof.
  unfold Num.le.
  destruct a as [| |p|], b as [| |q|], c as [| |r|]; try done. cbn.
  rewrite !negb_true_iff, orb_true_iff, negb_true_iff.
  intros Hpq Hqr.
  assert (Hpq' : (p <= q)%Q).
  { destruct Hpq as [H|H].
    - apply Qlt_le_weak, Qnot_le_lt. intros Hle%Qle_bool_iff. congruence.
    - apply Qeq_bool_iff in H. rewrite H. apply Qle_refl. }
  assert (Hqr' : (q < r)%Q).
  { apply Qnot_le_lt. intros Hle%Qle_bool_iff. congruence. }
  destruct (Qle_bool r p) eqn:Hrp; [|done].
  apply Qle_bool_iff in Hrp. exfalso.
  apply (Qlt_irrefl q). eapply Qlt_le_trans; [exact Hqr'|].
  by apply (Qle_trans _ p).
Qed.

End Numbers.

Section Colours.

Import Models Props.

Lemma color_of_number v a red_max green_max row cache :
  Num.of_json v = Some a ->
  (get_color_config row cache).2 = (Some red_max, Some green_max) ->
  (get_color_from_value v row cache).2 =
  Ok (if Num.lt a (Num.of_float red_max) then "red"
      else if Num.lt a (Num.of_float green_max) then "green" else "yellow").
Proof.
  intros Hv Hc. unfold get_color_from_value.
  destruct (get_color_config row cache) as [cache' [r g]]. cbn in Hc.
  injection Hc as -> ->. cbn [snd]. unfold below. rewrite Hv. cbn [res_bind].
  destruct (Num.lt a (Num.of_float red_max)); [done|]. cbn [res_bind].
  by destruct (Num.lt a (Num.of_float green_max)).
Qed.

(** X19: the colour of a crash value follows the order of the values.
    With both thresholds present, every number gets one of the three
    colours, and a value that is at most another never gets a later colour
    in the order red, green, yellow, whatever the thresholds are; a value
    that is not a number in the arithmetic sense (NaN) is yellow.  A value
    that is no number, or a threshold that is missing, raises
    [TypeError]. *)
Theorem color_follows_value :
  (forall v1 v2 a b red_max green_max row cache,
      Num.of_json v1 = Some a ->
      Num.of_json v2 = Some b ->
      (get_color_config row cache).2 = (Some red_max, Some green_max) ->
      Num.le a b = true ->
      exists c1 c2,
        (get_color_from_value v1 row cache).2 = Ok c1 /\
        (get_color_from_value v2 row cache).2 = Ok c2 /\
        c1 ∈ ["red"; "green"; "yellow"] /\ c2 ∈ ["red"; "green"; "yellow"] /\
        (color_rank c1 <= color_rank c2)%nat) /\
  (forall v red_max green_max row cache,
      Num.of_json v = Some Num.Nan ->
      (get_color_config row cache).2 = (Some red_max, Some green_max) ->
      (get_color_from_value v row cache).2 = Ok "yellow") /\
  (forall v row cache,
      Num.of_json v = None \/ (get_color_config row cache).2.1 = None ->
      (get_color_from_value v row cache).2 = Raise TypeError).
Proof.
  split; [|split].
  - intros v1 v2 a b red_max green_max row cache Ha Hb Hc Hle.
    rewrite (color_of_number v1 a red_max green_max) by done.
    rewrite (color_of_number v2 b red_max green_max) by done.
    eexists _, _. split; [done|]. split; [done|].
    destruct (Num.lt b (Num.of_float red_max)) eqn:Hbr.
    { rewrite (num_le_lt_trans a b _ Hle Hbr). cbn.
      repeat split; try lia; left. }
    destruct (Num.lt b (Num.of_float green_max)) eqn:Hbg.
    { rewrite (num_le_lt_trans a b _ Hle Hbg).
      destruct (Num.lt a (Num.of_float red_max)); cbn;
        (split; [|split; [|lia]]); set_solver. }
    destruct (Num.lt a (Num.of_float red_max));
      [|destruct (Num.lt a (Num.of_float green_max))]; cbn;
      (split; [|split; [|lia]]); set_solver.
  - intros v red_max green_max row cache Hv Hc.
    by rewrite (color_of_number v Num.Nan red_max green_max).
  - intros v row cache H. unfold get_color_from_value.
    destruct (get_color_config row cache) as [cache' [r g]]. cbn [fst snd] in *.
    unfold below. destruct H as [-> | ->]; [done|]. by destruct (Num.of_json v).
Qed.

(** X19 on the default thresholds: 2.0 is green and 1000 is yellow. *)
Lemma color_follows_value_witness :
  exists c1 c2,
    (get_color_from_value (JFloat two) None None).2 = Ok c1 /\
    (get_color_from_value (JInt 1000) None None).2 = Ok c2 /\
    c1 ∈ ["red"; "green"; "yellow"] /\ c2 ∈ ["red"; "green"; "yellow"] /\
    (color_rank c1 <= color_rank c2)%nat.
Proof.
  apply (proj1 color_follows_value (JFloat two) (JInt 1000)
           (Num.of_float two) (Num.of_int 1000) two ten None None); reflexivity.
Defined.

(** X20: the thresholds are read from the table once.  After a first
    classification, a second one returns what the cached thresholds give,
    whatever the table holds by then, and leaves the cache as it is; after
    [invalidate_color_config_cache] the next call reads the row of the
    table, or the pair 2.0 and 10.0 when the table has no row. *)
Theorem thresholds_are_cached :
  (forall v v' row row' cache,
      let first := get_color_from_value v row cache in
      (get_color_from_value v' row' first.1) =
      (first.1, (get_color_from_value v' row first.1).2) /\
      (get_color_from_value v row' first.1).2 = first.2) /\
  (forall row cache,
      get_color_config row (invalidate_color_config_cache cache) =
      (Some (default (Some two, Some ten) row), default (Some two, Some ten) row)).
Proof.
  split.
  - intros v v' row row' cache. cbv zeta. unfold get_color_from_value.
    destruct cache as [[r g]|]; cbn; [done|]. by destruct row as [[r g]|].
  - intros row cache. by destruct row.
Qed.

End Colours.

(** ** The listener *)

Section ListenerProps.

Import Listener Props.

Context {R : Type}.

Lemma same_after_call has_callback value (raw_data : R) last :
  Num.of_float value <> Num.Nan ->
  same_value value (handle_crash has_callback value raw_data last).1 = true.
Proof.
  intros Hn. unfold handle_crash. destruct (same_value value last) eqn:Hs; [done|].
  cbn. by apply num_eq_refl.
Qed.

Lemma same_value_trans v' v last :
  Num.eq (Num.of_float v') (Num.of_float v) = true ->
  same_value v last = true -> same_value v' last = true.
Proof.
  unfold same_value. destruct last as [l|]; [|done]. apply num_eq_trans.
Qed.

Lemma eq_not_nan a b : Num.eq a b = true -> b <> Num.Nan.
Proof. by destruct a, b. Qed.

Lemma handle_crashes_repeat has_callback (calls : list (spec_float * R)) last i v raw v' raw' :
  calls !! i = Some (v, raw) ->
  calls !! S i = Some (v', raw') ->
  Num.eq (Num.of_float v') (Num.of_float v) = true ->
  handle_crashes has_callback calls last !! S i = Some None.
Proof.
  revert last i. induction calls as [|[v0 raw0] calls IH]; intros last i; [done|].
  destruct i as [|i]; cbn [lookup list_lookup handle_crashes].
  - intros [= -> ->] Hnext Heq. destruct calls as [|[v1 raw1] calls]; [done|].
    cbn in Hnext. injection Hnext as -> ->. cbn [handle_crashes lookup list_lookup].
    f_equal. unfold handle_crash at 1.
    rewrite (same_value_trans v' v _ Heq); [done|].
    apply same_after_call. by apply eq_not_nan in Heq.
  - intros Hi Hnext Heq. by apply (IH _ i).
Qed.

Lemma handle_crashes_no_repeat (calls : list (spec_float * R)) last :
  no_repeat last (omap id (handle_crashes true calls last)).
Proof.
  revert last. induction calls as [|[v raw] calls IH]; intros last; [done|].
  cbn [handle_crashes]. unfold handle_crash.
  destruct (same_value v last) eqn:Hs; cbn -[same_value].
  - apply IH.
  - split; [done|]. apply IH.
Qed.

Lemma no_repeat_lookup last (delivered : list (spec_float * R)) j x y :
  no_repeat last delivered ->
  delivered !! j = Some x -> delivered !! S j = Some y ->
  Num.eq (Num.of_float y.1) (Num.of_float x.1) = false.
Proof.
  revert last j. induction delivered as [|x0 rest IH]; intros last j; [done|].
  intros [_ Hrest]. destruct j as [|j]; cbn.
  - intros [= ->] Hy. destruct rest as [|y0 rest]; [done|].
    cbn in Hy. injection Hy as ->. by destruct Hrest as [Hy _].
  - intros Hx Hy. by apply (IH (Some x0.1) j).
Qed.

(** X21: [handle_crash] drops a value that repeats the one before.  In
    any run of calls, from any start, a call whose value equals the value
    of the call just before it hands nothing to the callback; and no two
    values handed to the callback one after the other are equal. *)
Theorem repeated_crash_is_dropped :
  (forall has_callback (calls : list (spec_float * R)) last i v raw v' raw',
      calls !! i = Some (v, raw) ->
      calls !! S i = Some (v', raw') ->
      Num.eq (Num.of_float v') (Num.of_float v) = true ->
      handle_crashes has_callback calls last !! S i = Some None) /\
  (forall (calls : list (spec_float * R)) last j x y,
      let delivered := omap id (handle_crashes true calls last) in
      delivered !! j = Some x -> delivered !! S j = Some y ->
      Num.eq (Num.of_float y.1) (Num.of_float x.1) = false).
Proof.
  split.
  - apply handle_crashes_repeat.
  - intros calls last j x y delivered. apply (no_repeat_lookup last).
    apply handle_crashes_no_repeat.
Qed.

End ListenerProps.

Section ListenerWitness.

Import Listener Props.

(** X21 on two rounds that both crash at 2.0. *)
Lemma repeated_crash_is_dropped_witness :
  handle_crashes true [(Models.two, "a"); (Models.two, "b")] None !! 1%nat = Some None.
Proof.
  apply (proj1 repeated_crash_is_dropped true [(Models.two, "a"); (Models.two, "b")]
           None 0%nat Models.two "a" Models.two "b"); reflexivity.
Defined.

End ListenerWitness.

(** ** Metadata and integer fields *)

Section Metadata.

Import Main Listener Props.

Lemma dict_get_set_eq d k v : Json.dict_get (Json.dict_set d k v) k = Some v.
Proof.
  induction d as [|[k' v'] d IH]; cbn.
  - by rewrite String.eqb_refl.
  - destruct (String.eqb_spec k' k) as [->|Hne]; cbn.
    + by rewrite String.eqb_refl.
    + by destruct (String.eqb_spec k' k).
Qed.

Lemma dict_get_set_ne d k v k0 :
  k0 <> k -> Json.dict_get (Json.dict_set d k v) k0 = Json.dict_get d k0.
Proof.
  intros Hne. induction d as [|[k' v'] d IH]; cbn.
  - by destruct (String.eqb_spec k k0) as [->|].
  - destruct (String.eqb_spec k' k) as [->|Hk]; cbn.
    + destruct (String.eqb_spec k k0) as [->|]; [done|done].
    + by rewrite IH.
Qed.

Lemma fill_loop meta raw k :
  NoDup meta.*1 ->
  Json.dict_get
    (foldl (fun acc kv =>
              match Json.dict_get acc kv.1 with
              | Some v => if Json.is_blank v then Json.dict_set acc kv.1 kv.2 else acc
              | None => Json.dict_set acc kv.1 kv.2
              end) raw meta) k =
  filled (Json.dict_get raw k) (Json.dict_get meta k).
Proof.
  revert raw. induction meta as [|[k0 v0] meta IH]; intros raw Hnd.
  - cbn. unfold filled. destruct (Json.dict_get raw k) as [v|]; [|done].
    by destruct (Json.is_blank v).
  - cbn [fmap list_fmap fst] in Hnd. apply NoDup_cons in Hnd as [Hk0 Hnd].
    cbn [foldl fst snd]. rewrite IH by done. cbn [Json.dict_get].
    destruct (String.eqb_spec k0 k) as [->|Hne].
    + assert (Hnone : Json.dict_get meta k = None).
      { clear -Hk0. induction meta as [|[k' v'] meta IH]; [done|]. cbn.
        destruct (String.eqb_spec k' k) as [->|]; [|apply IH].
        * exfalso. apply Hk0. left.
        * intros H. apply Hk0. by right. }
      rewrite Hnone. unfold filled.
      destruct (Json.dict_get raw k) as [v|] eqn:Hraw.
      * destruct (Json.is_blank v) eqn:Hb.
        -- rewrite dict_get_set_eq. cbn. by destruct (Json.is_blank v0).
        -- by rewrite Hraw, Hb.
      * rewrite dict_get_set_eq. by destruct (Json.is_blank v0).
    + assert (Hsame : Json.dict_get
                (match Json.dict_get raw k0 with
                 | Some v => if Json.is_blank v then Json.dict_set raw k0 v0 else raw
                 | None => Json.dict_set raw k0 v0
                 end) k = Json.dict_get raw k).
      { destruct (Json.dict_get raw k0) as [v|]; [destruct (Json.is_blank v)|];
          try done; by apply dict_get_set_ne. }
      by rewrite Hsame.
Qed.

(** X22: [_ensure_meta] fills the gaps of a payload and nothing else.
    For a payload that is an object and metadata with distinct keys, a key
    keeps the value of the payload when that value is neither [None] nor
    the empty string; a key that is missing from the payload, or holds
    [None] or the empty string there, gets the value of the metadata if the
    metadata has the key and is left as it was otherwise. *)
Theorem ensure_meta_fills_gaps :
  forall py_str d meta k,
    NoDup meta.*1 ->
    Json.dict_get (_ensure_meta py_str (JDict d) meta) k =
    match Json.dict_get d k with
    | Some v => if Json.is_blank v then Some (default v (Json.dict_get meta k)) else Some v
    | None => Json.dict_get meta k
    end.
Proof.
  intros py_str d meta k Hnd. unfold _ensure_meta. by rewrite fill_loop.
Qed.

(** X22 on a payload with an empty hash and a crash value. *)
Lemma ensure_meta_fills_gaps_witness :
  Json.dict_get
    (_ensure_meta (fun _ => "") (JDict [("hash", JStr ""); ("v", JInt 2)])
       [("hash", JStr "ab"); ("v", JInt 9)]) "hash" = Some (JStr "ab").
Proof.
  apply (ensure_meta_fills_gaps (fun _ => "") [("hash", JStr ""); ("v", JInt 2)]
           [("hash", JStr "ab"); ("v", JInt 9)] "hash").
  apply (bool_decide_unpack _). by vm_compute.
Defined.

Lemma trunc_bounds s m e z :
  Num.trunc (S754_finite s m e) = Some z ->
  (if s then z <= 0 else 0 <= z) /\
  (0 <= e -> Z.abs z = Z.pos m * 2 ^ e) /\
  (e < 0 -> Z.abs z * 2 ^ (- e) <= Z.pos m < (Z.abs z + 1) * 2 ^ (- e)).
Proof.
  cbn. intros [= <-].
  destruct (Z.leb_spec 0 e) as [He|He].
  - assert (0 < 2 ^ e) by (apply Z.pow_pos_nonneg; lia).
    destruct s; repeat split; try nia; try lia.
  - assert (Hp : 0 < 2 ^ (- e)) by (apply Z.pow_pos_nonneg; lia).
    pose proof (Z.div_mod (Z.pos m) (2 ^ (- e))) as Hdm.
    pose proof (Z.mod_pos_bound (Z.pos m) (2 ^ (- e)) Hp) as Hmod.
    assert (0 <= Z.pos m / 2 ^ (- e)) by (apply Z.div_pos; lia).
    destruct s; repeat split; try lia; nia.
Qed.

(** X23: [_to_int_or_none] never raises and reads an integer where
    there is one.  It gives [None] for [None], for the empty string, for a
    list and for an object; an integer for an integer; for the decimal text
    of an integer that integer; for a float that is an infinity or not a
    number [None], and for a finite float its value cut towards zero. *)
Theorem to_int_or_none_reads_integers :
  _to_int_or_none JNull = None /\
  _to_int_or_none (JStr "") = None /\
  (forall l, _to_int_or_none (JList l) = None) /\
  (forall d, _to_int_or_none (JDict d) = None) /\
  (forall z, _to_int_or_none (JInt z) = Some z) /\
  (forall z, _to_int_or_none (JStr (Py.str z)) = Some z) /\
  (forall f, Num.of_float f = Num.Nan \/ Num.of_float f = Num.PosInf \/
             Num.of_float f = Num.NegInf ->
             _to_int_or_none (JFloat f) = None) /\
  (forall s m e, exists z,
      _to_int_or_none (JFloat (S754_finite s m e)) = Some z /\
      (if s then z <= 0 else 0 <= z) /\
      (0 <= e -> Z.abs z = Z.pos m * 2 ^ e) /\
      (e < 0 -> Z.abs z * 2 ^ (- e) <= Z.pos m < (Z.abs z + 1) * 2 ^ (- e))).
Proof.
  repeat split; try done.
  - intros z. unfold _to_int_or_none.
    assert (Hb : Json.is_blank (JStr (Py.str z)) = false).
    { cbn. destruct (Py.str z) eqn:Hs; [|done].
      pose proof (int_str z) as Hi. by rewrite Hs in Hi. }
    rewrite Hb. cbn. apply int_str.
  - intros f [H|[H|H]]; destruct f as [[]|[]| |]; done.
  - intros s m e. unfold _to_int_or_none. cbn [Json.is_blank int_of_json].
    destruct (Num.trunc (S754_finite s m e)) as [z|] eqn:Hz; [|done].
    exists z. split; [done|]. by apply trunc_bounds.
Qed.

(** X23 on the float 2.5. *)
Lemma to_int_or_none_reads_integers_witness :
  exists z,
    _to_int_or_none (JFloat (S754_finite false 5 (-1))) = Some z /\
    Z.abs z * 2 ^ (- -1) <= 5 < (Z.abs z + 1) * 2 ^ (- -1).
Proof.
  destruct (proj2 (proj2 (proj2 (proj2 (proj2 (proj2 (proj2
              to_int_or_none_reads_integers)))))) false 5%positive (-1))
    as (z & Hz & _ & _ & Hb).
  exists z. split; [done|]. by apply Hb.
Defined.

End Metadata.
